(** * Snake: a shallow embedding of [main.py] and its specification

    The game object of [main.py] ([SnakeGame]) becomes a record, each method
    a function on that record.  Python exceptions are values of [result];
    the [random] module is a tape of draws; the file [high_score.json] and
    the pygame display are fields of an environment record.

    Two things of the Python library bound what the program does, and are
    part of the model: CPython (3.11 and later) writes and reads integers of
    at most 4300 decimal digits, and pygame opens no window of negative
    size.  Window sizes above 16384, the limit of SDL 2, are left out. *)

From Stdlib Require Import ZArith List Bool String Ascii Lia Decimal DecimalString
  DecimalFacts DecimalPos DecimalN DecimalZ.
Import ListNotations.
Open Scope Z_scope.

(** ** Python exceptions

    [PygameError] is [pygame.error].  [Unmodelled] is no exception of
    Python: a function returns it on an input for which this development
    does not say what the program does. *)

Inductive exn :=
| IndexError | ZeroDivisionError | ValueError | PygameError
| Unmodelled.

Inductive result (A : Type) : Type :=
| Ok (a : A)
| Raise (e : exn).
Arguments Ok {A} a.
Arguments Raise {A} e.

Definition bind {A B} (r : result A) (k : A -> result B) : result B :=
  match r with
  | Ok a => k a
  | Raise e => Raise e
  end.

Declare Scope py_scope.
Delimit Scope py_scope with py.
Notation "x <- c ;; k" := (bind c (fun x => k))
  (at level 61, c at next level, right associativity) : py_scope.
Notation "' p <- c ;; k" := (bind c (fun x => let 'p := x in k))
  (at level 61, p pattern, c at next level, right associativity) : py_scope.
Open Scope py_scope.

(** ** Enumerations *)

Inductive Direction := UP | DOWN | LEFT | RIGHT.

(** [Direction.value] *)
Definition Direction_value (d : Direction) : Z * Z :=
  match d with
  | UP => (0, -1)
  | DOWN => (0, 1)
  | LEFT => (-1, 0)
  | RIGHT => (1, 0)
  end.

Definition Direction_eqb (a b : Direction) : bool :=
  match a, b with
  | UP, UP | DOWN, DOWN | LEFT, LEFT | RIGHT, RIGHT => true
  | _, _ => false
  end.

Inductive GameState := MENU | PLAYING | PAUSED | GAME_OVER.

Definition GameState_eqb (a b : GameState) : bool :=
  match a, b with
  | MENU, MENU | PLAYING, PLAYING | PAUSED, PAUSED | GAME_OVER, GAME_OVER => true
  | _, _ => false
  end.

(** [self.direction_opposites] *)
Definition direction_opposites (d : Direction) : Direction :=
  match d with
  | UP => DOWN
  | DOWN => UP
  | LEFT => RIGHT
  | RIGHT => LEFT
  end.

(** Keys of [pygame.KEYDOWN] events; [K_other] stands for every key the
    program never names. *)
Inductive key :=
| K_UP | K_DOWN | K_LEFT | K_RIGHT
| K_w | K_s | K_a | K_d
| K_p | K_SPACE | K_ESCAPE
| K_other (code : Z).

Definition key_eqb (a b : key) : bool :=
  match a, b with
  | K_UP, K_UP | K_DOWN, K_DOWN | K_LEFT, K_LEFT | K_RIGHT, K_RIGHT
  | K_w, K_w | K_s, K_s | K_a, K_a | K_d, K_d
  | K_p, K_p | K_SPACE, K_SPACE | K_ESCAPE, K_ESCAPE => true
  | K_other x, K_other y => x =? y
  | _, _ => false
  end.

(** [self.key_mapping.get(event.key)] *)
Definition key_mapping (k : key) : option Direction :=
  match k with
  | K_UP | K_w => Some UP
  | K_DOWN | K_s => Some DOWN
  | K_LEFT | K_a => Some LEFT
  | K_RIGHT | K_d => Some RIGHT
  | _ => None
  end.

Inductive event :=
| QUIT
| KEYDOWN (k : key)
| OTHER_EVENT.

(** ** Grid cells and the deque *)

Definition cell := (Z * Z)%type.

Definition cell_eqb (a b : cell) : bool :=
  (fst a =? fst b) && (snd a =? snd b).

(** [c in self.snake] *)
Definition cell_in (c : cell) (l : list cell) : bool :=
  existsb (cell_eqb c) l.

(** [new_head == self.food_pos], where the position may be [None]. *)
Definition pos_eqb (c : cell) (p : option cell) : bool :=
  match p with
  | Some q => cell_eqb c q
  | None => false
  end.

(** Truth value of an optional position: a tuple is always true, [None]
    false. *)
Definition truthy {A} (p : option A) : bool :=
  match p with
  | Some _ => true
  | None => false
  end.

(** The deque keeps the head of the snake at its right end. *)
Fixpoint deque_last {A} (dq : list A) : result A :=
  match dq with
  | [] => Raise IndexError
  | [x] => Ok x
  | _ :: r => deque_last r
  end.

Definition deque_append {A} (dq : list A) (x : A) : list A := dq ++ [x].

Definition deque_popleft {A} (dq : list A) : result (A * list A) :=
  match dq with
  | [] => Raise IndexError
  | x :: r => Ok (x, r)
  end.

(** [range(n)] *)
Definition range (n : Z) : list Z := map Z.of_nat (seq 0 (Z.to_nat n)).

(** ** The [random] module: a tape of draws *)

Definition tape := list nat.

Definition next_draw (t : tape) : nat * tape :=
  match t with
  | [] => (0%nat, [])
  | n :: r => (n, r)
  end.

(** [random.choice(l)]: the draw picks the index; an empty sequence raises. *)
Definition random_choice {A} (l : list A) (t : tape) : result (A * tape) :=
  match l with
  | [] => Raise IndexError
  | x :: _ =>
      let '(n, t') := next_draw t in
      Ok (nth (n mod List.length l)%nat l x, t')
  end.

(** [random.random() < 0.1]: one draw, read in tenths. *)
Definition random_below_tenth (t : tape) : bool * tape :=
  let '(n, t') := next_draw t in
  ((n mod 10 =? 0)%nat, t').

(** ** JSON, as far as [high_score.json] needs it

    [json.dumps] and [json.loads] belong to the Python library, not to this
    repository.  They are modelled on flat objects whose values are
    integers, plain strings, booleans or null.  On a value or a text outside
    that fragment they give no answer ([Unmodelled], [NotModelled]). *)

Inductive atom :=
| AInt (z : Z)
| AStr (s : string)
| ABool (b : bool)
| ANone.

Inductive pyval :=
| Atom (a : atom)
| Dict (kv : list (string * atom)).

(** The double quote, character 34. *)
Definition quote : ascii := Ascii false true false false false true false false.

(** [sys.int_max_str_digits]: CPython (3.11 and later) converts an integer
    to or from decimal text only when it has at most that many digits, and
    raises [ValueError] otherwise. *)
Definition int_max_str_digits : Z := 4300.

(** Has [z] at most [int_max_str_digits] decimal digits? *)
Definition fits_str_digits (z : Z) : bool := Z.abs z <? 10 ^ int_max_str_digits.

(** The decimal digits of [z], with its sign. *)
Definition dumps_int (z : Z) : string := NilZero.string_of_int (Z.to_int z).

Definition dumps_str (s : string) : string :=
  String quote (s ++ String quote EmptyString).

Definition dumps_atom (a : atom) : string :=
  match a with
  | AInt z => dumps_int z
  | AStr s => dumps_str s
  | ABool true => "true"
  | ABool false => "false"
  | ANone => "null"
  end.

Fixpoint dumps_members (kv : list (string * atom)) : string :=
  match kv with
  | [] => EmptyString
  | [(k, v)] => dumps_str k ++ ": " ++ dumps_atom v
  | (k, v) :: r => dumps_str k ++ ": " ++ dumps_atom v ++ ", " ++ dumps_members r
  end.

(** The text of [v] with the default separators. *)
Definition json_text (v : pyval) : string :=
  match v with
  | Atom a => dumps_atom a
  | Dict kv => "{" ++ dumps_members kv ++ "}"
  end.

(** Space, tab, line feed, carriage return. *)
Definition is_ws (c : ascii) : bool :=
  match c with
  | " " | "009" | "010" | "013" => true
  | _ => false
  end%char.

Fixpoint skip_ws (s : string) : string :=
  match s with
  | String c r => if is_ws c then skip_ws r else s
  | EmptyString => s
  end.

Definition digit_of_ascii (c : ascii) : option (uint -> uint) :=
  match c with
  | "0" => Some D0 | "1" => Some D1 | "2" => Some D2 | "3" => Some D3
  | "4" => Some D4 | "5" => Some D5 | "6" => Some D6 | "7" => Some D7
  | "8" => Some D8 | "9" => Some D9
  | _ => None
  end%char.

Fixpoint scan_digits (s : string) : uint * string :=
  match s with
  | String c r =>
      match digit_of_ascii c with
      | Some k => let '(d, rest) := scan_digits r in (k d, rest)
      | None => (Nil, s)
      end
  | EmptyString => (Nil, s)
  end.

(** A fraction or an exponent would make the number a float. *)
Definition starts_float_tail (s : string) : bool :=
  match s with
  | String c _ =>
      match c with
      | "." | "e" | "E" => true
      | _ => false
      end%char
  | EmptyString => false
  end.

(** The integer part of a JSON number is ["0"] or starts with a nonzero
    digit. *)
Definition scan_natural (s : string) : option (uint * string) :=
  match s with
  | String c r =>
      if Ascii.eqb c "0" then Some (D0 Nil, r)
      else match scan_digits s with
           | (Nil, _) => None
           | (d, rest) => Some (d, rest)
           end
  | EmptyString => None
  end.

(** An integer literal; one with more than [int_max_str_digits] digits is
    not converted (the literal has no leading zeros, so this is a test on
    its value). *)
Definition parse_int (s : string) : option (Z * string) :=
  let '(neg, s1) :=
    match s with
    | String c r => if Ascii.eqb c "-" then (true, r) else (false, s)
    | EmptyString => (false, s)
    end in
  match scan_natural s1 with
  | Some (d, rest) =>
      if starts_float_tail rest then None
      else
        let z := if neg then Z.of_int (Neg d) else Z.of_int (Pos d) in
        if fits_str_digits z then Some (z, rest) else None
  | None => None
  end.

(** A backslash starts an escape, a control character may not stand in a
    JSON string, and a character beyond ASCII is written as an escape by
    [json.dumps]. *)
Definition escape_or_control (c : ascii) : bool :=
  Ascii.eqb c "\" || (nat_of_ascii c <? 32)%nat || (127 <? nat_of_ascii c)%nat.

(** The characters of a string up to its closing quote; escapes, control
    characters and characters beyond ASCII are outside the fragment. *)
Fixpoint parse_str_body (s : string) : option (string * string) :=
  match s with
  | String c r =>
      if Ascii.eqb c quote then Some (EmptyString, r)
      else if escape_or_control c then None
      else match parse_str_body r with
           | Some (body, rest) => Some (String c body, rest)
           | None => None
           end
  | EmptyString => None
  end.

Definition parse_str (s : string) : option (string * string) :=
  match s with
  | String c r => if Ascii.eqb c quote then parse_str_body r else None
  | EmptyString => None
  end.

(** [s] without the prefix [p], when it starts with [p]. *)
Fixpoint strip_prefix (p s : string) : option string :=
  match p, s with
  | EmptyString, _ => Some s
  | String a p', String b s' => if Ascii.eqb a b then strip_prefix p' s' else None
  | String _ _, EmptyString => None
  end.

Definition parse_atom (s : string) : option (atom * string) :=
  match s with
  | String c _ =>
      if Ascii.eqb c quote then
        match parse_str s with
        | Some (b, rest) => Some (AStr b, rest)
        | None => None
        end
      else if Ascii.eqb c "t" then
        option_map (fun r => (ABool true, r)) (strip_prefix "true" s)
      else if Ascii.eqb c "f" then
        option_map (fun r => (ABool false, r)) (strip_prefix "false" s)
      else if Ascii.eqb c "n" then
        option_map (fun r => (ANone, r)) (strip_prefix "null" s)
      else
        match parse_int s with
        | Some (z, rest) => Some (AInt z, rest)
        | None => None
        end
  | EmptyString => None
  end.

(** One member ["key" : value], with the white space around it. *)
Definition parse_member (s : string) : option ((string * atom) * string) :=
  match parse_str (skip_ws s) with
  | Some (k, s1) =>
      match skip_ws s1 with
      | String c s2 =>
          if Ascii.eqb c ":" then
            match parse_atom (skip_ws s2) with
            | Some (v, s3) => Some ((k, v), skip_ws s3)
            | None => None
            end
          else None
      | EmptyString => None
      end
  | None => None
  end.

(** The members after the first, up to the closing brace. *)
Fixpoint parse_more (fuel : nat) (s : string) : option (list (string * atom) * string) :=
  match fuel with
  | O => None
  | S fuel' =>
      match s with
      | String c r =>
          if Ascii.eqb c "}" then Some ([], r)
          else if Ascii.eqb c "," then
            match parse_member r with
            | Some (m, s1) =>
                match parse_more fuel' s1 with
                | Some (ms, rest) => Some (m :: ms, rest)
                | None => None
                end
            | None => None
            end
          else None
      | EmptyString => None
      end
  end.

(** The text after an opening brace. *)
Definition parse_object (s : string) : option (list (string * atom) * string) :=
  match skip_ws s with
  | String c r =>
      if Ascii.eqb c "}" then Some ([], r)
      else
        match parse_member s with
        | Some (m, s1) =>
            match parse_more (S (String.length s1)) s1 with
            | Some (ms, rest) => Some (m :: ms, rest)
            | None => None
            end
        | None => None
        end
  | EmptyString => None
  end.

(** The characters a JSON value can start with; [json.loads] also reads
    [NaN] and [Infinity]. *)
Definition starts_value (c : ascii) : bool :=
  match c with
  | "{" | "[" | "-" | "t" | "f" | "n" | "N" | "I"
  | "0" | "1" | "2" | "3" | "4" | "5" | "6" | "7" | "8" | "9" => true
  | _ => Ascii.eqb c quote
  end%char.

(** What [json.loads] does with a text: it returns a value, it raises a
    [JSONDecodeError], or the text is outside the fragment modelled here
    and no answer is given. *)
Inductive loaded :=
| Loaded (v : pyval)
| DecodeError
| NotModelled.

(** [json.loads(text)].  A text that is empty or starts with no value is
    malformed; when the parser of the fragment stops elsewhere, the text may
    still be JSON (an array, a nested object, a float, an escape). *)
Definition json_loads (text : string) : loaded :=
  match skip_ws text with
  | String c r =>
      if negb (starts_value c) then DecodeError
      else
        let parsed :=
          if Ascii.eqb c "{"
          then option_map (fun '(kv, rest) => (Dict kv, rest)) (parse_object r)
          else option_map (fun '(a, rest) => (Atom a, rest)) (parse_atom (String c r)) in
        match parsed with
        | Some (v, rest) =>
            match skip_ws rest with
            | EmptyString => Loaded v
            | _ => NotModelled
            end
        | None => NotModelled
        end
  | EmptyString => DecodeError
  end.

(** A string that [json.dumps] writes between quotes as it is: no quote, no
    backslash, no control character, ASCII only. *)
Fixpoint plain_string (s : string) : bool :=
  match s with
  | EmptyString => true
  | String c r => negb (Ascii.eqb c quote) && negb (escape_or_control c) && plain_string r
  end.

Definition plain_atom (a : atom) : bool :=
  match a with
  | AStr s => plain_string s
  | _ => true
  end.

Definition fits_atom (a : atom) : bool :=
  match a with
  | AInt z => fits_str_digits z
  | _ => true
  end.

(** The atoms of [v], keys included. *)
Definition atoms (v : pyval) : list atom :=
  match v with
  | Atom a => [a]
  | Dict kv => flat_map (fun '(k, a) => [AStr k; a]) kv
  end.

(** [json.dumps(v)] with the default separators: the text of [v], or
    [ValueError] for an integer of more than [int_max_str_digits] digits.
    Strings that need escapes are outside the fragment. *)
Definition json_dumps (v : pyval) : result string :=
  if negb (forallb plain_atom (atoms v)) then Raise Unmodelled
  else if negb (forallb fits_atom (atoms v)) then Raise ValueError
  else Ok (json_text v).

(** [d.get(k, default)] on the dictionary built from an object: of two equal
    keys the later one wins. *)
Fixpoint dict_get (k : string) (kv : list (string * atom)) (default : atom) : atom :=
  match kv with
  | [] => default
  | (k', v) :: r => dict_get k r (if String.eqb k k' then v else default)
  end.

(** A text that ends a number: it starts with no digit and with no
    fraction or exponent. *)
Definition ends_number (rest : string) : Prop :=
  scan_digits rest = (Nil, rest) /\ starts_float_tail rest = false.

(** ** The environment: random tape, high-score file, display *)

(** What the pygame calls of the drawing methods leave on the display, with
    their integer arguments; the floating-point ones (pulse, rotation,
    interpolated colours, alpha) are left out. *)
Inductive draw_op :=
| Fill
| GridLine (vertical : bool) (at_ : Z)
| BodyRect (c : cell)
| HeadRect (c : cell)
| FoodRect (c : cell)
| StarPolygon (c : cell)
| Circle
| Blit
| Text (label : string) (value : option Z)
| Overlay (alpha : Z)
| Flip.

Record Env := mkEnv {
  rng : tape;
  disk : option string;          (* text of high_score.json, if it exists *)
  disk_writable : bool;          (* does write_text succeed? *)
  disk_writes : list string;     (* every write_text call, oldest first *)
  screen : list draw_op
}.

Definition set_rng (t : tape) (e : Env) : Env :=
  mkEnv t (disk e) (disk_writable e) (disk_writes e) (screen e).

Definition paint (ops : list draw_op) (e : Env) : Env :=
  mkEnv (rng e) (disk e) (disk_writable e) (disk_writes e) (screen e ++ ops).

(** [Path("high_score.json").write_text(s)] inside [try ... except: pass]. *)
Definition write_text (s : string) (e : Env) : Env :=
  mkEnv (rng e) (if disk_writable e then Some s else disk e)
        (disk_writable e) (disk_writes e ++ [s]) (screen e).

(** ** The game object *)

Record Config := mkConfig {
  width : Z;
  height : Z;
  cell_size : Z;
  grid_width : Z;
  grid_height : Z
}.

(** A particle; its position, velocity and size are floats and are not
    carried.  [special] selects the colour. *)
Record particle := mkParticle {
  life : Z;
  special : bool
}.

Record SnakeGame := mkGame {
  cfg : Config;
  env : Env;
  fps : Z;
  state : GameState;
  score : Z;
  high_score : Z;
  snake : list cell;
  direction : Direction;
  next_direction : Direction;
  growing : bool;
  food_pos : option cell;
  special_food_pos : option cell;
  special_food_timer : Z;
  particles : list particle
}.

Definition set_env (v : Env) (g : SnakeGame) : SnakeGame :=
  mkGame (cfg g) v (fps g) (state g) (score g) (high_score g) (snake g)
    (direction g) (next_direction g) (growing g) (food_pos g)
    (special_food_pos g) (special_food_timer g) (particles g).

Definition set_fps (v : Z) (g : SnakeGame) : SnakeGame :=
  mkGame (cfg g) (env g) v (state g) (score g) (high_score g) (snake g)
    (direction g) (next_direction g) (growing g) (food_pos g)
    (special_food_pos g) (special_food_timer g) (particles g).

Definition set_state (v : GameState) (g : SnakeGame) : SnakeGame :=
  mkGame (cfg g) (env g) (fps g) v (score g) (high_score g) (snake g)
    (direction g) (next_direction g) (growing g) (food_pos g)
    (special_food_pos g) (special_food_timer g) (particles g).

Definition set_score (v : Z) (g : SnakeGame) : SnakeGame :=
  mkGame (cfg g) (env g) (fps g) (state g) v (high_score g) (snake g)
    (direction g) (next_direction g) (growing g) (food_pos g)
    (special_food_pos g) (special_food_timer g) (particles g).

Definition set_high_score (v : Z) (g : SnakeGame) : SnakeGame :=
  mkGame (cfg g) (env g) (fps g) (state g) (score g) v (snake g)
    (direction g) (next_direction g) (growing g) (food_pos g)
    (special_food_pos g) (special_food_timer g) (particles g).

Definition set_snake (v : list cell) (g : SnakeGame) : SnakeGame :=
  mkGame (cfg g) (env g) (fps g) (state g) (score g) (high_score g) v
    (direction g) (next_direction g) (growing g) (food_pos g)
    (special_food_pos g) (special_food_timer g) (particles g).

Definition set_direction (v : Direction) (g : SnakeGame) : SnakeGame :=
  mkGame (cfg g) (env g) (fps g) (state g) (score g) (high_score g) (snake g)
    v (next_direction g) (growing g) (food_pos g)
    (special_food_pos g) (special_food_timer g) (particles g).

Definition set_next_direction (v : Direction) (g : SnakeGame) : SnakeGame :=
  mkGame (cfg g) (env g) (fps g) (state g) (score g) (high_score g) (snake g)
    (direction g) v (growing g) (food_pos g)
    (special_food_pos g) (special_food_timer g) (particles g).

Definition set_growing (v : bool) (g : SnakeGame) : SnakeGame :=
  mkGame (cfg g) (env g) (fps g) (state g) (score g) (high_score g) (snake g)
    (direction g) (next_direction g) v (food_pos g)
    (special_food_pos g) (special_food_timer g) (particles g).

Definition set_food_pos (v : option cell) (g : SnakeGame) : SnakeGame :=
  mkGame (cfg g) (env g) (fps g) (state g) (score g) (high_score g) (snake g)
    (direction g) (next_direction g) (growing g) v
    (special_food_pos g) (special_food_timer g) (particles g).

Definition set_special_food_pos (v : option cell) (g : SnakeGame) : SnakeGame :=
  mkGame (cfg g) (env g) (fps g) (state g) (score g) (high_score g) (snake g)
    (direction g) (next_direction g) (growing g) (food_pos g)
    v (special_food_timer g) (particles g).

Definition set_special_food_timer (v : Z) (g : SnakeGame) : SnakeGame :=
  mkGame (cfg g) (env g) (fps g) (state g) (score g) (high_score g) (snake g)
    (direction g) (next_direction g) (growing g) (food_pos g)
    (special_food_pos g) v (particles g).

Definition set_particles (v : list particle) (g : SnakeGame) : SnakeGame :=
  mkGame (cfg g) (env g) (fps g) (state g) (score g) (high_score g) (snake g)
    (direction g) (next_direction g) (growing g) (food_pos g)
    (special_food_pos g) (special_food_timer g) v.

Definition draw (ops : list draw_op) (g : SnakeGame) : SnakeGame :=
  set_env (paint ops (env g)) g.

(** [self.screen.fill(...)]: whatever was on the display is covered. *)
Definition fill_screen (g : SnakeGame) : SnakeGame :=
  set_env (mkEnv (rng (env g)) (disk (env g)) (disk_writable (env g))
                 (disk_writes (env g)) [Fill]) g.

(** ** Persistence *)

(** [_load_high_score]: the value under ["high_score"]; 0 when the file is
    missing, does not decode, or decodes to something without [.get].
    [None]: the text of the file is outside the fragment of [json_loads]. *)
Definition _load_high_score (e : Env) : option atom :=
  match disk e with
  | Some text =>
      match json_loads text with
      | Loaded (Dict kv) => Some (dict_get "high_score" kv (AInt 0))
      | Loaded (Atom _) => Some (AInt 0)
      | DecodeError => Some (AInt 0)
      | NotModelled => None
      end
  | None => Some (AInt 0)
  end.

(** [_save_high_score]: when [json.dumps] raises, [write_text] is not
    called, and [except: pass] leaves the game as it is. *)
Definition _save_high_score (g : SnakeGame) : SnakeGame :=
  match json_dumps (Dict [("high_score"%string, AInt (high_score g))]) with
  | Ok text => set_env (write_text text (env g)) g
  | Raise _ => g
  end.

(** ** Food *)

(** The list comprehension of [_spawn_food]. *)
Definition valid_positions (g : SnakeGame) : list cell :=
  flat_map (fun x =>
    flat_map (fun y => if cell_in (x, y) (snake g) then [] else [(x, y)])
             (range (grid_height (cfg g))))
    (range (grid_width (cfg g))).

Definition nonempty {A} (l : list A) : bool :=
  match l with
  | [] => false
  | _ :: _ => true
  end.

(** [_spawn_food] *)
Definition _spawn_food (g : SnakeGame) : result SnakeGame :=
  let valid := valid_positions g in
  '(food, t1) <-
    (if nonempty valid
     then '(c, t) <- random_choice valid (rng (env g)) ;; Ok (Some c, t)
     else Ok (None, rng (env g))) ;;
  '(special_pos, t2) <-
    (if nonempty valid
     then let '(below, t) := random_below_tenth t1 in
          if below
          then '(c, t') <- random_choice valid t ;; Ok (Some c, t')
          else Ok (None, t)
     else Ok (None, t1)) ;;
  let g := set_food_pos food g in
  let g := set_special_food_pos special_pos g in
  let g := set_special_food_timer (if truthy special_pos then 150 else 0) g in
  Ok (set_env (set_rng t2 (env g)) g).

(** ** Input *)

(** [_handle_input] on the key of the event. *)
Definition _handle_input (k : key) (g : SnakeGame) : SnakeGame :=
  match key_mapping k with
  | Some new_direction =>
      if negb (Direction_eqb new_direction (direction_opposites (direction g)))
      then set_next_direction new_direction g
      else g
  | None => g
  end.

(** ** Particles *)

(** [_create_eat_effect]: every particle takes three draws (angle, speed,
    size). *)
Definition _create_eat_effect (pos : cell) (is_special : bool) (g : SnakeGame) : SnakeGame :=
  let particle_count := if is_special then 20%nat else 10%nat in
  let g := set_particles (particles g ++ repeat (mkParticle 30 is_special) particle_count) g in
  set_env (set_rng (skipn (3 * particle_count) (rng (env g))) (env g)) g.

(** [_update_particles] *)
Definition _update_particles (g : SnakeGame) : SnakeGame :=
  set_particles
    (map (fun p => mkParticle (life p - 1) (special p))
         (filter (fun p => life p >? 0) (particles g))) g.

(** ** Game over and movement *)

(** [_game_over] *)
Definition _game_over (g : SnakeGame) : SnakeGame :=
  let g := set_state GAME_OVER g in
  if score g >? high_score g
  then _save_high_score (set_high_score (score g) g)
  else g.

(** The cell in front of the head, for the direction [d]. *)
Definition step_cell (head : cell) (d : Direction) : cell :=
  let '(dx, dy) := Direction_value d in (fst head + dx, snd head + dy).

Definition wall_collision (g : SnakeGame) (new_head : cell) : bool :=
  negb (((0 <=? fst new_head) && (fst new_head <? grid_width (cfg g)))
        && ((0 <=? snd new_head) && (snd new_head <? grid_height (cfg g)))).

(** [_move_snake] *)
Definition _move_snake (g : SnakeGame) : result SnakeGame :=
  let g := set_direction (next_direction g) g in
  head <- deque_last (snake g) ;;
  let new_head := step_cell head (direction g) in
  let self_collision := cell_in new_head (snake g) in
  if wall_collision g new_head || self_collision
  then Ok (_game_over g)
  else
    let g := set_snake (deque_append (snake g) new_head) g in
    let food_eaten := pos_eqb new_head (food_pos g) in
    let special_eaten := pos_eqb new_head (special_food_pos g) in
    g <- (if food_eaten || special_eaten
          then
            let points := if food_eaten then 10 else 50 in
            let g := set_score (score g + points) g in
            let g := set_growing true g in
            let g := _create_eat_effect new_head special_eaten g in
            let g := if special_eaten
                     then set_special_food_timer 0 (set_special_food_pos None g)
                     else g in
            if food_eaten then _spawn_food g else Ok g
          else Ok g) ;;
    if negb (growing g)
    then '(_, rest) <- deque_popleft (snake g) ;; Ok (set_snake rest g)
    else Ok (set_growing false g).

(** [_reset_game] *)
Definition _reset_game (g : SnakeGame) : result SnakeGame :=
  let center_x := grid_width (cfg g) / 2 in
  let center_y := grid_height (cfg g) / 2 in
  let g := set_snake [(center_x - 2, center_y); (center_x - 1, center_y);
                      (center_x, center_y)] g in
  let g := set_direction RIGHT g in
  let g := set_next_direction RIGHT g in
  let g := set_score 0 g in
  let g := set_growing false g in
  let g := set_special_food_timer 0 g in
  g <- _spawn_food g ;;
  Ok (set_particles [] g).

(** ** Drawing *)

(** [range(0, stop, step)]; a zero step raises. *)
Definition range_step (stop step : Z) : result (list Z) :=
  if step =? 0 then Raise ValueError
  else Ok (map (fun i => i * step) (range (- ((- stop) / step)))).

(** [_draw_grid] *)
Definition _draw_grid (g : SnakeGame) : result SnakeGame :=
  xs <- range_step (width (cfg g)) (cell_size (cfg g)) ;;
  let g := draw (map (GridLine true) xs) g in
  ys <- range_step (height (cfg g)) (cell_size (cfg g)) ;;
  Ok (draw (map (GridLine false) ys) g).

(** [_draw_glow]: ten circles on a surface, then one blit. *)
Definition _draw_glow (g : SnakeGame) : SnakeGame :=
  draw (repeat Circle 10 ++ [Blit]) g.

(** The loop body of [_draw_snake] over [enumerate(self.snake)]. *)
Fixpoint draw_segments (segment_count i : Z) (segments : list cell) (g : SnakeGame)
  : SnakeGame :=
  match segments with
  | [] => g
  | segment :: rest =>
      let g := draw [BodyRect segment] g in
      let g := if i =? segment_count - 1
               then _draw_glow (draw [HeadRect segment] g)
               else g in
      draw_segments segment_count (i + 1) rest g
  end.

(** [_draw_snake] *)
Definition _draw_snake (g : SnakeGame) : SnakeGame :=
  draw_segments (Z.of_nat (List.length (snake g))) 0 (snake g) g.

(** [_draw_food] *)
Definition _draw_food (g : SnakeGame) : SnakeGame :=
  let g := match food_pos g with
           | Some c => draw [FoodRect c] g
           | None => g
           end in
  match special_food_pos g with
  | Some c =>
      if special_food_timer g >? 0
      then
        let g := set_special_food_timer (special_food_timer g - 1) g in
        let g := _draw_glow (draw [StarPolygon c] g) in
        if special_food_timer g =? 0 then set_special_food_pos None g else g
      else g
  | None => g
  end.

(** [_draw_particles] *)
Definition _draw_particles (g : SnakeGame) : SnakeGame :=
  draw (flat_map (fun _ => [Circle; Blit]) (particles g)) g.

(** [_draw_text_with_shadow]: the shadow, then the text. *)
Definition _draw_text_with_shadow (label : string) (value : option Z) (g : SnakeGame)
  : SnakeGame :=
  draw [Text label value; Text label value] g.

(** [_draw_ui] *)
Definition _draw_ui (g : SnakeGame) : SnakeGame :=
  let g := _draw_text_with_shadow "Score: " (Some (score g)) g in
  let g := _draw_text_with_shadow "Best: " (Some (high_score g)) g in
  _draw_text_with_shadow "Speed: " (Some (fps g)) g.

(** [_draw_menu] *)
Definition _draw_menu (g : SnakeGame) : SnakeGame :=
  let g := draw [Text "SNAKE" None; Text "Professional Edition" None] g in
  let g := draw (map (fun s => Text s None)
                   ["Press SPACE to Start"; "Use Arrow Keys or WASD to Move";
                    "Press P to Pause"; "Press ESC to Quit"]%string) g in
  if high_score g >? 0
  then draw [Text "High Score: " (Some (high_score g))] g
  else g.

(** [_draw_game_over] *)
Definition _draw_game_over (g : SnakeGame) : SnakeGame :=
  let g := draw [Overlay 128] g in
  let g := draw [Text "GAME OVER" None] g in
  let g := draw [Text "Final Score: " (Some (score g))] g in
  let g := if (score g =? high_score g) && (score g >? 0)
           then draw [Text "NEW HIGH SCORE!" None] g
           else g in
  draw [Text "Press SPACE to Play Again or ESC to Quit" None] g.

(** [_draw_pause] *)
Definition _draw_pause (g : SnakeGame) : SnakeGame :=
  let g := draw [Overlay 64] g in
  let g := draw [Text "PAUSED" None] g in
  draw [Text "Press P to Resume" None] g.

(** ** The main loop *)

(** One event of [pygame.event.get()], with the [running] flag of [run]. *)
Definition handle_event (ev : event) (st : bool * SnakeGame) : result (bool * SnakeGame) :=
  let '(running, g) := st in
  match ev with
  | QUIT => Ok (false, g)
  | KEYDOWN k =>
      if key_eqb k K_ESCAPE then Ok (false, g)
      else
        match state g with
        | MENU =>
            if key_eqb k K_SPACE
            then g <- _reset_game g ;; Ok (running, set_state PLAYING g)
            else Ok (running, g)
        | PLAYING =>
            if key_eqb k K_p
            then Ok (running, set_state PAUSED g)
            else Ok (running, _handle_input k g)
        | PAUSED =>
            if key_eqb k K_p
            then Ok (running, set_state PLAYING g)
            else Ok (running, g)
        | GAME_OVER =>
            if key_eqb k K_SPACE
            then g <- _reset_game g ;; Ok (running, set_state PLAYING g)
            else Ok (running, g)
        end
  | OTHER_EVENT => Ok (running, g)
  end.

Fixpoint handle_events (evs : list event) (st : bool * SnakeGame)
  : result (bool * SnakeGame) :=
  match evs with
  | [] => Ok st
  | ev :: rest => st <- handle_event ev st ;; handle_events rest st
  end.

(** "Update game logic": one simulation tick when the game is being played. *)
Definition update (g : SnakeGame) : result SnakeGame :=
  match state g with
  | PLAYING =>
      g <- _move_snake g ;;
      let g := _update_particles g in
      Ok (set_fps (Z.min (10 + score g / 50) 20) g)
  | _ => Ok g
  end.

(** "Clear screen", "Draw based on state", "Update display". *)
Definition render (g : SnakeGame) : result SnakeGame :=
  let g := fill_screen g in
  g <- match state g with
       | PLAYING =>
           g <- _draw_grid g ;;
           Ok (_draw_ui (_draw_particles (_draw_snake (_draw_food g))))
       | MENU => Ok (_draw_menu g)
       | PAUSED =>
           g <- _draw_grid g ;;
           Ok (_draw_pause (_draw_ui (_draw_snake (_draw_food g))))
       | GAME_OVER =>
           g <- _draw_grid g ;;
           Ok (_draw_game_over (_draw_snake g))
       end ;;
  Ok (draw [Flip] g).

(** One iteration of the [while running] loop. *)
Definition frame (evs : list event) (g : SnakeGame) : result (bool * SnakeGame) :=
  '(running, g) <- handle_events evs (true, g) ;;
  g <- update g ;;
  g <- render g ;;
  Ok (running, g).

(** [run], on the events of the successive frames; it stops with the frame
    that clears [running], or when the given frames are used up. *)
Fixpoint run (frames : list (list event)) (g : SnakeGame) : result SnakeGame :=
  match frames with
  | [] => Ok g
  | evs :: rest =>
      '(running, g) <- frame evs g ;;
      if running then run rest g else Ok g
  end.

(** Does [z] fit the C [int] that pygame reads a window size into? *)
Definition c_int (z : Z) : bool := (- 2 ^ 31 <=? z) && (z <? 2 ^ 31).

(** [pygame.display.set_mode((w, h))], as far as the size decides it.  A
    negative width or height raises [pygame.error].  SDL 2 opens no window
    wider or higher than 16384 pixels, other versions have other limits,
    and what pygame makes of a size beyond the C [int] depends on the
    platform: sizes above 16384 are not modelled. *)
Definition display_set_mode (w h : Z) : result unit :=
  if ((0 <=? w) && (w <=? 16384)) && ((0 <=? h) && (h <=? 16384)) then Ok tt
  else if (c_int w && c_int h) && ((w <? 0) || (h <? 0)) then Raise PygameError
  else Raise Unmodelled.

(** The stored high score as the integer the game compares scores with.  A
    high score that is a string, a boolean or null is outside the model. *)
Definition int_of_atom (a : option atom) : result Z :=
  match a with
  | Some (AInt z) => Ok z
  | _ => Raise Unmodelled
  end.

(** [SnakeGame.__init__]: the grid size is computed before the window is
    opened, the high score is loaded after it. *)
Definition SnakeGame_init (w h c : Z) (e : Env) : result SnakeGame :=
  if c =? 0 then Raise ZeroDivisionError
  else
    _ <- display_set_mode w h ;;
    hs <- int_of_atom (_load_high_score e) ;;
    _reset_game
      (mkGame (mkConfig w h c (w / c) (h / c)) e 10 MENU 0 hs [] RIGHT RIGHT
              false None None 0 []).

(** The states the program can be in: after construction, and after any
    event, update or redraw of the main loop. *)
Inductive reachable : SnakeGame -> Prop :=
| reach_init w h c e g :
    SnakeGame_init w h c e = Ok g -> reachable g
| reach_event ev r g r' g' :
    reachable g -> handle_event ev (r, g) = Ok (r', g') -> reachable g'
| reach_update g g' :
    reachable g -> update g = Ok g' -> reachable g'
| reach_render g g' :
    reachable g -> render g = Ok g' -> reachable g'.

(** What every reachable state satisfies between two method calls. *)
Definition game_inv (g : SnakeGame) : Prop :=
  growing g = false /\ snake g <> [] /\
  next_direction g <> direction_opposites (direction g) /\
  cell_size (cfg g) <> 0.

(** ** Relations between two states of the game *)

(** The environment [e] with the display of [e']. *)
Definition with_screen_of (e' e : Env) : Env :=
  mkEnv (rng e) (disk e) (disk_writable e) (disk_writes e) (screen e').

(** [g'] differs from [g] at most in what is on the display. *)
Definition display_only (g g' : SnakeGame) : Prop :=
  g' = set_env (with_screen_of (env g') (env g)) g.

(** [g'] differs from [g] at most in the display and in the special food
    (its position and its timer). *)
Definition special_only (g g' : SnakeGame) : Prop :=
  g' = set_env (with_screen_of (env g') (env g))
         (set_special_food_pos (special_food_pos g')
            (set_special_food_timer (special_food_timer g') g)).

(** The simulation state named by the specification: snake body, directions,
    score, high score, game state and the normal food position ... *)
Definition same_play (g g' : SnakeGame) : Prop :=
  snake g' = snake g /\ direction g' = direction g /\
  next_direction g' = next_direction g /\ score g' = score g /\
  high_score g' = high_score g /\ state g' = state g /\
  food_pos g' = food_pos g.

(** ... and the special food. *)
Definition same_special (g g' : SnakeGame) : Prop :=
  special_food_pos g' = special_food_pos g /\
  special_food_timer g' = special_food_timer g.

(** The cell the snake is about to enter: the head moved by the buffered
    direction, as [_move_snake] computes it. *)
Definition next_cell (g : SnakeGame) : result cell :=
  head <- deque_last (snake g) ;; Ok (step_cell head (next_direction g)).

(** The two collision tests of [_move_snake] on a cell. *)
Definition collides (g : SnakeGame) (c : cell) : bool :=
  wall_collision g c || cell_in c (snake g).

(** The game that [_move_snake] hands to [_spawn_food] when the head enters
    the cell [c] that holds the normal and the special food: the statements
    of [_move_snake] between the collision test and the call, with
    [food_eaten] and [special_eaten] both true. *)
Definition bitten_both (g : SnakeGame) (c : cell) : SnakeGame :=
  let g := set_direction (next_direction g) g in
  let g := set_snake (deque_append (snake g) c) g in
  let g := set_score (score g + 10) g in
  let g := set_growing true g in
  let g := _create_eat_effect c true g in
  set_special_food_timer 0 (set_special_food_pos None g).

(** What [update] makes of the game [gs] that [_move_snake] got back from
    [_spawn_food]: the snake keeps its new length, the particles age, the
    speed follows the score. *)
Definition after_spawn (gs : SnakeGame) : SnakeGame :=
  let g := _update_particles (set_growing false gs) in
  set_fps (Z.min (10 + score g / 50) 20) g.

(** ** Concrete games used by the examples *)

Definition env0 : Env := mkEnv [] None true [] [].

Definition board : Config := mkConfig 800 600 20 40 30.

(** A game in play on the 40 x 30 board of [main], the snake heading right
    along row 15. *)
Definition game0 : SnakeGame :=
  mkGame board env0 10 PLAYING 0 0 [(18, 15); (19, 15); (20, 15)]
         RIGHT RIGHT false (Some (5, 5)) None 0 [].

(** The state a result holds, [game0] if it raised. *)
Definition the_game (r : result SnakeGame) : SnakeGame :=
  match r with
  | Ok g => g
  | Raise _ => game0
  end.

(** [main] up to the first SPACE: the game is built (two draws: food at
    index 0 of the free cells, no special food), then started (draws 642, 1:
    food on (21, 15), the cell in front of the head, no special food). *)
Definition env1 : Env := mkEnv [0; 1; 642; 1; 7; 1]%nat None true [] [].

Definition menu1 : SnakeGame :=
  Eval vm_compute in the_game (SnakeGame_init 800 600 20 env1).

Definition game1 : SnakeGame :=
  Eval vm_compute in
    the_game (st <- handle_event (KEYDOWN K_SPACE) (true, menu1) ;; Ok (snd st)).

(** The same with the draws 642, 0, 642 at the start: normal and special
    food both on (21, 15). *)
Definition env2 : Env := mkEnv [0; 1; 642; 0; 642; 7; 1]%nat None true [] [].

Definition menu2 : SnakeGame :=
  Eval vm_compute in the_game (SnakeGame_init 800 600 20 env2).

Definition game2 : SnakeGame :=
  Eval vm_compute in
    the_game (st <- handle_event (KEYDOWN K_SPACE) (true, menu2) ;; Ok (snd st)).

(** [game1] after the player turns up and fifteen frames pass: the head has
    reached the top row and still moves up. *)
Definition game_top : SnakeGame :=
  Eval vm_compute in the_game (run ([KEYDOWN K_UP] :: repeat [] 14) game1).

(** [game1] after one tick to the right, which eats the food (score 10),
    a turn up and fifteen ticks up: the head is on the top row. *)
Definition game_scored : SnakeGame :=
  Eval vm_compute in
    the_game (run ([] :: [KEYDOWN K_UP] :: repeat [] 14) game1).

(** The text [_save_high_score] writes for the high score [n]. *)
Definition high_score_text (n : Z) : string :=
  json_text (Dict [("high_score"%string, AInt n)]).

(** [game2] (special food on the board, timer 150) after a turn up and
    fifteen frames: the head is on the top row, the special food still there
    with 135 frames left. *)
Definition game_special_top : SnakeGame :=
  Eval vm_compute in the_game (run ([KEYDOWN K_UP] :: repeat [] 14) game2).

(** [game2] paused by the player. *)
Definition game_paused : SnakeGame :=
  Eval vm_compute in
    the_game (st <- handle_event (KEYDOWN K_p) (true, game2) ;; Ok (snd st)).

(** [game2] once the player has pressed UP, and after the tick that
    follows. *)
Definition game2_up : SnakeGame :=
  Eval vm_compute in
    the_game (st <- handle_event (KEYDOWN K_UP) (true, game2) ;; Ok (snd st)).

Definition game2_moved : SnakeGame :=
  Eval vm_compute in the_game (update game2_up).

(** Games about to leave the board on the left and on the right, and a
    game whose special food has one frame left. *)
Definition game_left_edge : SnakeGame :=
  mkGame board env0 10 PLAYING 0 0 [(2, 7); (1, 7); (0, 7)]
         LEFT LEFT false (Some (5, 5)) None 0 [].

Definition game_right_edge : SnakeGame :=
  mkGame board env0 10 PLAYING 0 0 [(37, 7); (38, 7); (39, 7)]
         RIGHT RIGHT false (Some (5, 5)) None 0 [].

Definition game_last_frame : SnakeGame :=
  mkGame board env0 10 PLAYING 30 0 [(18, 15); (19, 15); (20, 15)]
         RIGHT RIGHT false (Some (5, 5)) (Some (9, 9)) 1 [].

(** ** Further invariants of the reachable states *)

(** The cell [c] lies on the board. *)
Definition in_grid (g : SnakeGame) (c : cell) : Prop :=
  0 <= fst c < grid_width (cfg g) /\ 0 <= snd c < grid_height (cfg g).

(** [b] is the neighbour of [a] in one of the four directions. *)
Definition adjacent (a b : cell) : Prop := exists d, b = step_cell a d.

(** Every cell of the list is followed by one of its neighbours. *)
Fixpoint chain (l : list cell) : Prop :=
  match l with
  | a :: r =>
      match r with
      | b :: _ => adjacent a b /\ chain r
      | [] => True
      end
  | [] => True
  end.

(** The head lies in the committed direction from the cell behind it. *)
Definition heads_along (g : SnakeGame) : Prop :=
  forall l neck head,
    snake g = l ++ [neck; head] -> head = step_cell neck (direction g).

(** What the states of a run satisfy besides [game_inv]; [bound] is the
    largest life a particle can have (30 right after a bite, 29 once the
    tick has aged it). *)
Record play_inv_at (bound : Z) (g : SnakeGame) : Prop := mkPlayInv {
  pi_nodup : NoDup (snake g);
  pi_chain : chain (snake g);
  pi_heads : state g <> GAME_OVER -> heads_along g;
  pi_length : (3 <= List.length (snake g))%nat;
  pi_score :
    10 * (Z.of_nat (List.length (snake g)) - 3) <= score g
    <= 50 * (Z.of_nat (List.length (snake g)) - 3);
  pi_score10 : score g mod 10 = 0;
  pi_fps : 10 <= fps g <= 20;
  pi_timer :
    match special_food_pos g with
    | Some _ => 0 < special_food_timer g <= 150
    | None => special_food_timer g = 0
    end;
  pi_food : forall c, food_pos g = Some c -> in_grid g c /\ ~ In c (snake g);
  pi_special :
    forall c, special_food_pos g = Some c -> in_grid g c /\ ~ In c (snake g);
  pi_particles : Forall (fun p => 0 <= life p <= bound) (particles g);
  pi_over : state g = GAME_OVER -> score g <= high_score g;
  pi_grid :
    4 <= grid_width (cfg g) -> 1 <= grid_height (cfg g) ->
    Forall (in_grid g) (snake g)
}.

Definition play_inv : SnakeGame -> Prop := play_inv_at 29.

(** The board has fewer than 2 ^ 31 columns and rows (a window is at most
    16384 pixels wide and high), and at most three cells of the snake lie
    off the board (on a board narrower than four cells the snake of
    [_reset_game] does not fit). *)
Definition board_inv (g : SnakeGame) : Prop :=
  grid_width (cfg g) < 2 ^ 31 /\ grid_height (cfg g) < 2 ^ 31 /\
  (List.length (filter (wall_collision g) (snake g)) <= 3)%nat.

(** ** The state machine and the keys *)

(** The changes of [self.state] that [run] can make in one step. *)
Definition transition (s s' : GameState) : Prop :=
  match s, s' with
  | MENU, MENU | MENU, PLAYING => True
  | PLAYING, PLAYING | PLAYING, PAUSED | PLAYING, GAME_OVER => True
  | PAUSED, PAUSED | PAUSED, PLAYING => True
  | GAME_OVER, GAME_OVER | GAME_OVER, PLAYING => True
  | _, _ => False
  end.

(** The events that clear [running]: closing the window, or ESC. *)
Definition quits (ev : event) : bool :=
  match ev with
  | QUIT => true
  | KEYDOWN k => key_eqb k K_ESCAPE
  | OTHER_EVENT => false
  end.

(** Does [_handle_input] take the key [k]: it names a direction, and not the
    opposite of the committed one. *)
Definition accepted (k : key) (g : SnakeGame) : bool :=
  match key_mapping k with
  | Some d => negb (Direction_eqb d (direction_opposites (direction g)))
  | None => false
  end.

(** All cells of the board, in the order of the loops of [_spawn_food]. *)
Definition all_cells (g : SnakeGame) : list cell :=
  flat_map (fun x => map (fun y => (x, y)) (range (grid_height (cfg g))))
           (range (grid_width (cfg g))).

(** ** What the drawing methods put on the display *)

(** The draw operations of [_draw_snake] for the cells [l] followed by the
    head [h]. *)
Definition snake_ops (l : list cell) (h : cell) : list draw_op :=
  map BodyRect l ++ [BodyRect h; HeadRect h] ++ repeat Circle 10 ++ [Blit].

(** The text that [_draw_game_over] shows for a new high score. *)
Definition new_high_score_banner : draw_op := Text "NEW HIGH SCORE!" None.

(** * Properties *)

(** ** Cells, deque and random choice *)

Lemma cell_eqb_eq (a b : cell) : cell_eqb a b = true <-> a = b.
Proof.
  destruct a as [ax ay], b as [bx by_]; unfold cell_eqb; simpl.
  rewrite andb_true_iff, !Z.eqb_eq.
  split; [intros [-> ->]; reflexivity | intros H; inversion H; auto].
Qed.

Lemma cell_in_In (c : cell) (l : list cell) : cell_in c l = true <-> In c l.
Proof.
  unfold cell_in. rewrite existsb_exists. split.
  - intros [x [Hx He]]. apply cell_eqb_eq in He. subst; assumption.
  - intros H. exists c. split; [assumption | apply cell_eqb_eq; reflexivity].
Qed.

Lemma cell_in_false (c : cell) (l : list cell) : cell_in c l = false <-> ~ In c l.
Proof.
  rewrite <- cell_in_In. destruct (cell_in c l); split; congruence.
Qed.

Lemma pos_eqb_eq (c : cell) (p : option cell) : pos_eqb c p = true <-> p = Some c.
Proof.
  destruct p as [q|]; simpl.
  - rewrite cell_eqb_eq. split; [intros ->; reflexivity | intros H; inversion H; auto].
  - split; discriminate.
Qed.

Lemma deque_last_app {A} (dq : list A) (x : A) : deque_last (dq ++ [x]) = Ok x.
Proof.
  induction dq as [|y dq IH]; simpl; [reflexivity|].
  destruct (dq ++ [x]) eqn:E; [destruct dq; discriminate | exact IH].
Qed.

Lemma deque_last_nonempty {A} (dq : list A) :
  dq <> [] -> exists x, deque_last dq = Ok x.
Proof.
  induction dq as [|y dq IH]; [congruence|]. intros _.
  destruct dq as [|z dq]; [exists y; reflexivity|].
  destruct IH as [x Hx]; [discriminate|]. exists x. exact Hx.
Qed.

Lemma deque_last_Ok_nonempty {A} (dq : list A) (x : A) :
  deque_last dq = Ok x -> dq <> [].
Proof. destruct dq; simpl; congruence. Qed.

Lemma random_choice_In {A} (l : list A) (t t' : tape) (c : A) :
  random_choice l t = Ok (c, t') -> In c l.
Proof.
  unfold random_choice. destruct l as [|x l]; [discriminate|].
  destruct (next_draw t) as [n t1].
  remember (x :: l) as l0 eqn:El0. intros H.
  assert (Hc : c = nth (n mod List.length l0) l0 x) by congruence.
  rewrite Hc. apply nth_In. apply Nat.mod_upper_bound. subst l0; simpl; lia.
Qed.

Lemma random_choice_total {A} (l : list A) (t : tape) :
  nonempty l = true -> exists c t', random_choice l t = Ok (c, t').
Proof.
  destruct l as [|x l]; [discriminate|]. intros _.
  unfold random_choice. destruct (next_draw t) as [n t1]. eauto.
Qed.

(** ** Free cells *)

Lemma range_In (n x : Z) : In x (range n) <-> 0 <= x < n.
Proof.
  unfold range. rewrite in_map_iff. split.
  - intros [k [<- Hk]]. apply in_seq in Hk. lia.
  - intros H. exists (Z.to_nat x). split; [lia|]. apply in_seq. lia.
Qed.

Lemma valid_positions_In (g : SnakeGame) (c : cell) :
  In c (valid_positions g) <->
  (0 <= fst c < grid_width (cfg g) /\ 0 <= snd c < grid_height (cfg g)) /\
  ~ In c (snake g).
Proof.
  unfold valid_positions. rewrite in_flat_map. split.
  - intros [x [Hx Hc]]. apply in_flat_map in Hc. destruct Hc as [y [Hy Hc]].
    apply range_In in Hx. apply range_In in Hy.
    destruct (cell_in (x, y) (snake g)) eqn:E; [contradiction|].
    destruct Hc as [<-|[]]. simpl. split; [lia|]. apply cell_in_false; exact E.
  - intros [[Hx Hy] Hn]. destruct c as [x y]; simpl in *.
    exists x. split; [apply range_In; lia|].
    apply in_flat_map. exists y. split; [apply range_In; lia|].
    apply cell_in_false in Hn. rewrite Hn. left; reflexivity.
Qed.

(** What [_spawn_food] returns: it never raises, and touches only the two
    food positions, the timer and the random tape. *)
Lemma spawn_food_spec (g : SnakeGame) :
  exists food sp t,
    _spawn_food g =
      Ok (mkGame (cfg g)
            (mkEnv t (disk (env g)) (disk_writable (env g)) (disk_writes (env g))
                   (screen (env g)))
            (fps g) (state g) (score g) (high_score g) (snake g) (direction g)
            (next_direction g) (growing g) food sp
            (if truthy sp then 150 else 0) (particles g)) /\
    (forall c, food = Some c -> In c (valid_positions g)) /\
    (forall c, sp = Some c -> In c (valid_positions g)) /\
    (valid_positions g = [] -> food = None /\ sp = None).
Proof.
  unfold _spawn_food.
  destruct (nonempty (valid_positions g)) eqn:Hne.
  - destruct (random_choice_total _ (rng (env g)) Hne) as [c1 [t1 H1]].
    rewrite H1. simpl.
    destruct (random_below_tenth t1) as [below t2] eqn:Hb.
    assert (Hnil : valid_positions g <> []) by (destruct (valid_positions g); [discriminate | congruence]).
    destruct below.
    + destruct (random_choice_total _ t2 Hne) as [c2 [t3 H2]].
      rewrite H2. simpl.
      exists (Some c1), (Some c2), t3. repeat split; try congruence.
      * intros c E; inversion E; subst. eapply random_choice_In; eassumption.
      * intros c E; inversion E; subst. eapply random_choice_In; eassumption.
    + simpl. exists (Some c1), None, t2. repeat split; try congruence.
      intros c E; inversion E; subst. eapply random_choice_In; eassumption.
  - simpl. exists None, None, (rng (env g)). repeat split; congruence.
Qed.

(** C3. Whenever [_spawn_food] runs it returns normally; the normal food
    position and the special food position it sets, when present, are grid
    cells that the snake does not occupy; and when every grid cell is
    occupied by the snake both positions are absent. *)
Theorem spawn_food_avoids_snake (g : SnakeGame) :
  exists g',
    _spawn_food g = Ok g' /\
    snake g' = snake g /\
    (forall c, food_pos g' = Some c -> ~ In c (snake g')) /\
    (forall c, special_food_pos g' = Some c -> ~ In c (snake g')) /\
    ((forall x y, 0 <= x < grid_width (cfg g) -> 0 <= y < grid_height (cfg g) ->
                  In (x, y) (snake g)) ->
     food_pos g' = None /\ special_food_pos g' = None).
Proof.
  destruct (spawn_food_spec g) as [food [sp [t [E [Hf [Hs Hnone]]]]]].
  eexists. split; [exact E|]. simpl.
  split; [reflexivity|].
  split; [intros c Hc; apply Hf in Hc; apply valid_positions_In in Hc; tauto|].
  split; [intros c Hc; apply Hs in Hc; apply valid_positions_In in Hc; tauto|].
  intros Hfull. apply Hnone.
  destruct (valid_positions g) as [|c l] eqn:Hv; [reflexivity|].
  assert (Hin : In c (valid_positions g)) by (rewrite Hv; left; reflexivity).
  apply valid_positions_In in Hin. destruct c as [x y]. simpl in Hin.
  destruct Hin as [[Hx Hy] Hn]. exfalso. apply Hn. apply Hfull; assumption.
Qed.

Lemma deque_popleft_app {A} (dq : list A) (x : A) :
  exists y, deque_popleft (dq ++ [x]) = Ok (y, tl (dq ++ [x])).
Proof. destruct dq as [|y dq]; simpl; eauto. Qed.

Lemma spawn_food_avoids_snake_witness :
  exists g',
    _spawn_food game0 = Ok g' /\
    food_pos g' = Some (0, 0) /\ ~ In (0, 0) (snake g').
Proof.
  destruct (spawn_food_avoids_snake game0) as [g' [E [_ [Hf _]]]].
  exists g'. split; [exact E|].
  assert (Hfood : food_pos g' = Some (0, 0)).
  { revert E. vm_compute. intros E; inversion E; reflexivity. }
  split; [exact Hfood | exact (Hf (0, 0) Hfood)].
Defined.

(** ** One move of the snake *)

#[local] Arguments _spawn_food : simpl never.
#[local] Arguments _game_over : simpl never.
#[local] Arguments repeat : simpl never.
#[local] Arguments skipn : simpl never.

Section Move.
Variable g : SnakeGame.
Variable head : cell.
Hypothesis Hhead : deque_last (snake g) = Ok head.

Let new_head := step_cell head (next_direction g).
Let food_eaten := pos_eqb new_head (food_pos g).
Let special_eaten := pos_eqb new_head (special_food_pos g).

(** The state handed to [_spawn_food] (or kept) once something is eaten. *)
Let bitten (points : Z) : SnakeGame :=
  mkGame (cfg g)
    (mkEnv (skipn (3 * (if special_eaten then 20 else 10)) (rng (env g)))
           (disk (env g)) (disk_writable (env g)) (disk_writes (env g))
           (screen (env g)))
    (fps g) (state g) (score g + points) (high_score g)
    (snake g ++ [new_head]) (next_direction g) (next_direction g) true
    (food_pos g)
    (if special_eaten then None else special_food_pos g)
    (if special_eaten then 0 else special_food_timer g)
    (particles g ++
       repeat (mkParticle 30 special_eaten) (if special_eaten then 20 else 10)).

Lemma move_snake_collision :
  wall_collision g new_head || cell_in new_head (snake g) = true ->
  _move_snake g = Ok (_game_over (set_direction (next_direction g) g)).
Proof.
  intros Hc. unfold _move_snake. simpl. rewrite Hhead. simpl.
  fold new_head. unfold wall_collision in *. simpl. rewrite Hc. reflexivity.
Qed.

Hypothesis Hfree : wall_collision g new_head || cell_in new_head (snake g) = false.

Lemma move_snake_plain :
  growing g = false -> food_eaten = false -> special_eaten = false ->
  _move_snake g =
    Ok (mkGame (cfg g) (env g) (fps g) (state g) (score g) (high_score g)
          (tl (snake g ++ [new_head])) (next_direction g) (next_direction g)
          false (food_pos g) (special_food_pos g) (special_food_timer g)
          (particles g)).
Proof.
  intros Hg Hf Hs. unfold _move_snake. simpl. rewrite Hhead. simpl.
  fold new_head. unfold wall_collision in *. simpl. rewrite Hfree.
  fold food_eaten special_eaten. rewrite Hf, Hs. simpl. rewrite Hg. simpl.
  unfold deque_append.
  destruct (deque_popleft_app (snake g) new_head) as [y Hy]. rewrite Hy.
  simpl. unfold set_snake. simpl. rewrite Hg. reflexivity.
Qed.

Lemma move_snake_special_only :
  food_eaten = false -> special_eaten = true ->
  _move_snake g = Ok (set_growing false (bitten 50)).
Proof.
  intros Hf Hs. unfold _move_snake. simpl. rewrite Hhead. simpl.
  fold new_head. unfold wall_collision in *. simpl. rewrite Hfree.
  fold food_eaten special_eaten. unfold bitten. rewrite Hf, Hs. reflexivity.
Qed.

Lemma move_snake_food :
  food_eaten = true ->
  exists gs, _spawn_food (bitten 10) = Ok gs /\
             _move_snake g = Ok (set_growing false gs).
Proof.
  intros Hf.
  destruct (spawn_food_spec (bitten 10)) as [food [sp [t [E _]]]].
  eexists. split; [exact E|].
  unfold _move_snake. simpl. rewrite Hhead. simpl.
  fold new_head. unfold wall_collision in *. simpl. rewrite Hfree.
  fold food_eaten special_eaten. rewrite Hf. simpl.
  match goal with
  | |- context [_spawn_food ?X] =>
      replace X with (bitten 10)
        by (unfold bitten, deque_append; destruct special_eaten; reflexivity)
  end.
  rewrite E. reflexivity.
Qed.
End Move.

Lemma spawn_food_frame (g g' : SnakeGame) :
  _spawn_food g = Ok g' ->
  cfg g' = cfg g /\ fps g' = fps g /\ state g' = state g /\ score g' = score g /\
  high_score g' = high_score g /\ snake g' = snake g /\
  direction g' = direction g /\ next_direction g' = next_direction g /\
  growing g' = growing g /\ particles g' = particles g /\
  disk (env g') = disk (env g) /\ disk_writable (env g') = disk_writable (env g) /\
  disk_writes (env g') = disk_writes (env g) /\ screen (env g') = screen (env g).
Proof.
  destruct (spawn_food_spec g) as [food [sp [t [E _]]]].
  rewrite E. intros H; inversion H; subst; simpl. repeat split.
Qed.

Lemma next_cell_Ok (g : SnakeGame) (c : cell) :
  next_cell g = Ok c ->
  exists head, deque_last (snake g) = Ok head /\ c = step_cell head (next_direction g).
Proof.
  unfold next_cell. destruct (deque_last (snake g)) as [head|e]; simpl; [|discriminate].
  intros H; inversion H. eauto.
Qed.

Lemma next_cell_total (g : SnakeGame) :
  snake g <> [] -> exists c, next_cell g = Ok c.
Proof.
  intros Hs. destruct (deque_last_nonempty _ Hs) as [head Hh].
  unfold next_cell. rewrite Hh. simpl. eauto.
Qed.

(** The four ways a move can go. *)
Lemma move_snake_cases (g : SnakeGame) (c : cell) :
  next_cell g = Ok c -> growing g = false ->
  (collides g c = true /\
   _move_snake g = Ok (_game_over (set_direction (next_direction g) g)))
  \/
  (collides g c = false /\ pos_eqb c (food_pos g) = false /\
   pos_eqb c (special_food_pos g) = false /\
   _move_snake g =
     Ok (mkGame (cfg g) (env g) (fps g) (state g) (score g) (high_score g)
           (tl (snake g ++ [c])) (next_direction g) (next_direction g)
           false (food_pos g) (special_food_pos g) (special_food_timer g)
           (particles g)))
  \/
  (collides g c = false /\ pos_eqb c (food_pos g) = false /\
   pos_eqb c (special_food_pos g) = true /\
   _move_snake g =
     Ok (mkGame (cfg g) (set_rng (skipn 60 (rng (env g))) (env g))
           (fps g) (state g) (score g + 50) (high_score g)
           (snake g ++ [c]) (next_direction g) (next_direction g)
           false (food_pos g) None 0
           (particles g ++ repeat (mkParticle 30 true) 20)))
  \/
  (collides g c = false /\ pos_eqb c (food_pos g) = true /\
   exists gm gs,
     _spawn_food gm = Ok gs /\ _move_snake g = Ok (set_growing false gs) /\
     cfg gm = cfg g /\ fps gm = fps g /\ state gm = state g /\
     score gm = score g + 10 /\ high_score gm = high_score g /\
     snake gm = snake g ++ [c] /\ direction gm = next_direction g /\
     next_direction gm = next_direction g /\
     disk (env gm) = disk (env g) /\
     disk_writable (env gm) = disk_writable (env g) /\
     disk_writes (env gm) = disk_writes (env g) /\
     screen (env gm) = screen (env g) /\
     (pos_eqb c (special_food_pos g) = true ->
      special_food_pos gm = None /\ special_food_timer gm = 0)).
Proof.
  intros Hc Hg. apply next_cell_Ok in Hc. destruct Hc as [head [Hh ->]].
  unfold collides.
  destruct (wall_collision g (step_cell head (next_direction g))
            || cell_in (step_cell head (next_direction g)) (snake g)) eqn:Hcol.
  - left. split; [reflexivity|]. apply (move_snake_collision g head Hh Hcol).
  - right.
    destruct (pos_eqb (step_cell head (next_direction g)) (food_pos g)) eqn:Hf.
    + right; right. split; [reflexivity|]. split; [reflexivity|].
      destruct (move_snake_food g head Hh Hcol Hf) as [gs [Hs Hm]].
      eexists; exists gs. split; [exact Hs|]. split; [exact Hm|].
      simpl. repeat split; try reflexivity;
        match goal with H : _ = true |- _ => rewrite H; reflexivity end.
    + destruct (pos_eqb (step_cell head (next_direction g)) (special_food_pos g)) eqn:Hs.
      * right; left. repeat split.
        rewrite (move_snake_special_only g head Hh Hcol Hf Hs). rewrite Hs. reflexivity.
      * left. repeat split. apply (move_snake_plain g head Hh Hcol Hg Hf Hs).
Qed.

(** ** Drawing changes the display, and [_draw_food] the special food *)

Lemma display_only_refl (g : SnakeGame) : display_only g g.
Proof.
  unfold display_only. destruct g as [cf en fp st sc hs sn di nd gr fo sp ti pa].
  destruct en; reflexivity.
Qed.

Lemma display_only_trans (g1 g2 g3 : SnakeGame) :
  display_only g1 g2 -> display_only g2 g3 -> display_only g1 g3.
Proof.
  unfold display_only. intros H12 H23. rewrite H23. rewrite H12.
  destruct g1; reflexivity.
Qed.

Lemma display_only_special_only (g g' : SnakeGame) : display_only g g' -> special_only g g'.
Proof.
  unfold display_only, special_only. intros H. rewrite H.
  destruct g; reflexivity.
Qed.

Lemma special_only_trans (g1 g2 g3 : SnakeGame) :
  special_only g1 g2 -> special_only g2 g3 -> special_only g1 g3.
Proof.
  unfold special_only. intros H12 H23. rewrite H23. rewrite H12.
  destruct g1; reflexivity.
Qed.

Lemma display_only_same (g g' : SnakeGame) :
  display_only g g' -> same_play g g' /\ same_special g g'.
Proof.
  unfold display_only, same_play, same_special. intros ->. simpl. repeat split.
Qed.

Lemma special_only_same_play (g g' : SnakeGame) :
  special_only g g' -> same_play g g'.
Proof.
  unfold special_only, same_play. intros ->. simpl. repeat split.
Qed.

Lemma draw_display_only (ops : list draw_op) (g : SnakeGame) : display_only g (draw ops g).
Proof. unfold display_only, draw. destruct g; reflexivity. Qed.

Lemma fill_display_only (g : SnakeGame) : display_only g (fill_screen g).
Proof. unfold display_only, fill_screen. destruct g; reflexivity. Qed.

Ltac peel_draws :=
  repeat (eapply display_only_trans; [|apply draw_display_only]); apply display_only_refl.

Lemma draw_glow_display_only (g : SnakeGame) : display_only g (_draw_glow g).
Proof. apply draw_display_only. Qed.

Lemma draw_segments_display_only (segments : list cell) :
  forall n i g, display_only g (draw_segments n i segments g).
Proof.
  induction segments as [|s rest IH]; intros n i g; simpl.
  - apply display_only_refl.
  - eapply display_only_trans; [|apply IH].
    eapply display_only_trans; [apply draw_display_only|].
    destruct (i =? n - 1).
    + eapply display_only_trans; [apply draw_display_only | apply draw_glow_display_only].
    + apply display_only_refl.
Qed.

Lemma draw_snake_display_only (g : SnakeGame) : display_only g (_draw_snake g).
Proof. apply draw_segments_display_only. Qed.

Lemma draw_particles_display_only (g : SnakeGame) : display_only g (_draw_particles g).
Proof. apply draw_display_only. Qed.

Lemma draw_text_display_only (label : string) (value : option Z) (g : SnakeGame) :
  display_only g (_draw_text_with_shadow label value g).
Proof. apply draw_display_only. Qed.

Lemma draw_ui_display_only (g : SnakeGame) : display_only g (_draw_ui g).
Proof.
  unfold _draw_ui.
  eapply display_only_trans; [|apply draw_text_display_only].
  eapply display_only_trans; [|apply draw_text_display_only].
  apply draw_text_display_only.
Qed.

Lemma draw_menu_display_only (g : SnakeGame) : display_only g (_draw_menu g).
Proof.
  unfold _draw_menu.
  match goal with
  | |- context [if ?b then _ else _] => destruct b
  end; peel_draws.
Qed.

Lemma draw_game_over_display_only (g : SnakeGame) : display_only g (_draw_game_over g).
Proof.
  unfold _draw_game_over.
  eapply display_only_trans; [|apply draw_display_only].
  match goal with
  | |- context [if ?b then _ else _] => destruct b
  end; peel_draws.
Qed.

Lemma draw_pause_display_only (g : SnakeGame) : display_only g (_draw_pause g).
Proof.
  unfold _draw_pause.
  peel_draws.
Qed.

Lemma draw_grid_display_only (g g' : SnakeGame) :
  _draw_grid g = Ok g' -> display_only g g'.
Proof.
  unfold _draw_grid, range_step. simpl.
  destruct (cell_size (cfg g) =? 0); simpl; [discriminate|].
  intros H; inversion H; subst.
  eapply display_only_trans; apply draw_display_only.
Qed.

Lemma draw_grid_total (g : SnakeGame) :
  cell_size (cfg g) <> 0 -> exists g', _draw_grid g = Ok g'.
Proof.
  intros Hc. unfold _draw_grid, range_step. simpl.
  apply Z.eqb_neq in Hc. rewrite Hc. simpl. eauto.
Qed.

(** [_draw_food], field by field. *)
Lemma draw_food_spec (g : SnakeGame) :
  special_only g (_draw_food g) /\
  (special_food_pos (_draw_food g), special_food_timer (_draw_food g)) =
    match special_food_pos g with
    | Some c =>
        if special_food_timer g >? 0
        then (if special_food_timer g - 1 =? 0 then None else Some c,
              special_food_timer g - 1)
        else (Some c, special_food_timer g)
    | None => (None, special_food_timer g)
    end.
Proof.
  unfold _draw_food, special_only, _draw_glow, draw.
  destruct g as [cf en fp st sc hs sn di nd gr fo sp ti pa]; destruct en; simpl.
  destruct fo as [c0|]; destruct sp as [c|]; simpl;
    try (split; reflexivity);
    destruct (ti >? 0); simpl; try (split; reflexivity);
    destruct (ti - 1 =? 0); simpl; split; reflexivity.
Qed.

Lemma render_special_only (g g' : SnakeGame) :
  render g = Ok g' -> special_only g g'.
Proof.
  unfold render. intros H.
  destruct (state (fill_screen g)) eqn:Hst.
  - simpl in H. inversion H; subst.
    apply display_only_special_only.
    eapply display_only_trans; [apply fill_display_only|].
    eapply display_only_trans; [apply draw_menu_display_only | apply draw_display_only].
  - destruct (_draw_grid (fill_screen g)) as [g1|e] eqn:Hg; simpl in H; [|discriminate].
    inversion H; subst. apply draw_grid_display_only in Hg.
    eapply special_only_trans;
      [apply display_only_special_only;
       eapply display_only_trans; [apply fill_display_only | exact Hg] |].
    eapply special_only_trans; [apply (proj1 (draw_food_spec g1))|].
    apply display_only_special_only.
    eapply display_only_trans; [apply draw_snake_display_only|].
    eapply display_only_trans; [apply draw_particles_display_only|].
    eapply display_only_trans; [apply draw_ui_display_only | apply draw_display_only].
  - destruct (_draw_grid (fill_screen g)) as [g1|e] eqn:Hg; simpl in H; [|discriminate].
    inversion H; subst. apply draw_grid_display_only in Hg.
    eapply special_only_trans;
      [apply display_only_special_only;
       eapply display_only_trans; [apply fill_display_only | exact Hg] |].
    eapply special_only_trans; [apply (proj1 (draw_food_spec g1))|].
    apply display_only_special_only.
    eapply display_only_trans; [apply draw_snake_display_only|].
    eapply display_only_trans; [apply draw_ui_display_only|].
    eapply display_only_trans; [apply draw_pause_display_only | apply draw_display_only].
  - destruct (_draw_grid (fill_screen g)) as [g1|e] eqn:Hg; simpl in H; [|discriminate].
    inversion H; subst. apply draw_grid_display_only in Hg.
    apply display_only_special_only.
    eapply display_only_trans; [apply fill_display_only|].
    eapply display_only_trans; [exact Hg|].
    eapply display_only_trans; [apply draw_snake_display_only|].
    eapply display_only_trans; [apply draw_game_over_display_only | apply draw_display_only].
Qed.

Lemma render_display_only (g g' : SnakeGame) :
  render g = Ok g' -> state g = MENU \/ state g = GAME_OVER -> display_only g g'.
Proof.
  unfold render. intros H Hst.
  assert (Hs : state (fill_screen g) = state g) by reflexivity.
  rewrite Hs in H.
  destruct Hst as [E | E]; rewrite E in H.
  - simpl in H. inversion H; subst.
    eapply display_only_trans; [apply fill_display_only|].
    eapply display_only_trans; [apply draw_menu_display_only | apply draw_display_only].
  - destruct (_draw_grid (fill_screen g)) as [g1|e] eqn:Hg; simpl in H; [|discriminate].
    inversion H; subst. apply draw_grid_display_only in Hg.
    eapply display_only_trans; [apply fill_display_only|].
    eapply display_only_trans; [exact Hg|].
    eapply display_only_trans; [apply draw_snake_display_only|].
    eapply display_only_trans; [apply draw_game_over_display_only | apply draw_display_only].
Qed.

Lemma render_total (g : SnakeGame) :
  cell_size (cfg g) <> 0 -> exists g', render g = Ok g'.
Proof.
  intros Hc. unfold render.
  destruct (draw_grid_total (fill_screen g)) as [g1 Hg]; [exact Hc|].
  destruct (state (fill_screen g)); rewrite ?Hg; simpl; eauto.
Qed.

(** ** The invariant of the reachable states *)

Lemma special_only_inv (g g' : SnakeGame) :
  special_only g g' -> game_inv g -> game_inv g'.
Proof. unfold special_only, game_inv. intros ->. simpl. tauto. Qed.

Lemma direction_opposites_neq (d : Direction) : d <> direction_opposites d.
Proof. destruct d; discriminate. Qed.

#[local] Arguments fits_str_digits : simpl never.

(** [json.dumps] on the dictionary of [_save_high_score]. *)
Lemma json_dumps_high_score (n : Z) :
  json_dumps (Dict [("high_score"%string, AInt n)]) =
    if fits_str_digits n then Ok (high_score_text n) else Raise ValueError.
Proof.
  unfold json_dumps.
  change (forallb plain_atom (atoms (Dict [("high_score"%string, AInt n)])))
    with true.
  change (forallb fits_atom (atoms (Dict [("high_score"%string, AInt n)])))
    with (fits_str_digits n && true).
  rewrite andb_true_r. destruct (fits_str_digits n); reflexivity.
Qed.

(** [_save_high_score] writes the text of the high score, unless the high
    score has too many digits for [json.dumps]: then it does nothing. *)
Lemma save_high_score_cases (g : SnakeGame) :
  _save_high_score g =
    if fits_str_digits (high_score g)
    then set_env (write_text (high_score_text (high_score g)) (env g)) g
    else g.
Proof.
  unfold _save_high_score. rewrite json_dumps_high_score.
  destruct (fits_str_digits (high_score g)); reflexivity.
Qed.

Lemma game_over_fields (g : SnakeGame) :
  state (_game_over g) = GAME_OVER /\ cfg (_game_over g) = cfg g /\
  fps (_game_over g) = fps g /\ score (_game_over g) = score g /\
  snake (_game_over g) = snake g /\ direction (_game_over g) = direction g /\
  next_direction (_game_over g) = next_direction g /\
  growing (_game_over g) = growing g /\ food_pos (_game_over g) = food_pos g /\
  special_food_pos (_game_over g) = special_food_pos g /\
  special_food_timer (_game_over g) = special_food_timer g /\
  particles (_game_over g) = particles g.
Proof.
  unfold _game_over. rewrite save_high_score_cases. simpl.
  destruct (score g >? high_score g); [|simpl; repeat split].
  destruct (fits_str_digits (score g)); simpl; repeat split.
Qed.

Lemma tl_app_nonempty {A} (l : list A) (x : A) : l <> [] -> tl (l ++ [x]) <> [].
Proof. destruct l as [|y [|z l]]; simpl; congruence. Qed.

Lemma move_snake_total (g : SnakeGame) :
  game_inv g -> exists g', _move_snake g = Ok g'.
Proof.
  intros [Hg [Hs _]]. destruct (next_cell_total g Hs) as [c Hc].
  destruct (move_snake_cases g c Hc Hg)
    as [[_ H] | [[_ [_ [_ H]]] | [[_ [_ [_ H]]] | [_ [_ [gm [gs [_ [H _]]]]]]]]];
    eauto.
Qed.

Lemma move_snake_inv (g g' : SnakeGame) :
  game_inv g -> _move_snake g = Ok g' -> game_inv g'.
Proof.
  intros [Hg [Hs [_ Hcs]]] Hm. destruct (next_cell_total g Hs) as [c Hc].
  unfold game_inv.
  destruct (move_snake_cases g c Hc Hg)
    as [[_ H] | [[_ [_ [_ H]]] | [[_ [_ [_ H]]] | [_ [_ [gm [gs [Hsp [H Hf]]]]]]]]];
    rewrite H in Hm; inversion Hm; subst; clear Hm.
  - destruct (game_over_fields (set_direction (next_direction g) g))
      as [_ [-> [_ [_ [-> [-> [-> [-> _]]]]]]]].
    simpl. repeat split; auto. apply direction_opposites_neq.
  - simpl. repeat split; auto.
    + apply tl_app_nonempty; assumption.
    + apply direction_opposites_neq.
  - simpl. repeat split; auto.
    + destruct (snake g); discriminate.
    + apply direction_opposites_neq.
  - destruct (spawn_food_frame _ _ Hsp)
      as [E1 [_ [_ [_ [_ [E2 [E3 [E4 _]]]]]]]].
    destruct Hf as [F1 [_ [_ [_ [_ [F2 [F3 [F4 _]]]]]]]].
    simpl. rewrite E1, E2, E3, E4, F1, F2, F3, F4. repeat split; auto.
    + destruct (snake g); discriminate.
    + apply direction_opposites_neq.
Qed.

Lemma reset_game_inv (g g' : SnakeGame) :
  cell_size (cfg g) <> 0 -> _reset_game g = Ok g' -> game_inv g'.
Proof.
  intros Hc. unfold _reset_game.
  match goal with
  | |- context [_spawn_food ?X] =>
      destruct (_spawn_food X) as [gs|e] eqn:Hs; simpl; [|discriminate]
  end.
  intros H; inversion H; subst; clear H.
  destruct (spawn_food_frame _ _ Hs) as [E1 [_ [_ [_ [_ [E2 [E3 [E4 [E5 _]]]]]]]]].
  unfold game_inv. simpl in *. rewrite E1, E2, E3, E4, E5.
  repeat split; auto; discriminate.
Qed.

Lemma reset_game_total (g : SnakeGame) : exists g', _reset_game g = Ok g'.
Proof.
  unfold _reset_game.
  match goal with
  | |- context [_spawn_food ?X] =>
      destruct (spawn_food_spec X) as [food [sp [t [E _]]]]; rewrite E
  end.
  simpl. eauto.
Qed.

Lemma set_state_inv (s : GameState) (g : SnakeGame) :
  game_inv g -> game_inv (set_state s g).
Proof. unfold game_inv; simpl; tauto. Qed.

Lemma handle_input_inv (k : key) (g : SnakeGame) :
  game_inv g -> game_inv (_handle_input k g).
Proof.
  unfold _handle_input, game_inv. intros H.
  destruct (key_mapping k) as [d|]; [|exact H].
  destruct (Direction_eqb d (direction_opposites (direction g))) eqn:E; simpl; [exact H|].
  repeat split; try tauto.
  intros ->. destruct (direction g); discriminate.
Qed.

Lemma handle_event_inv (ev : event) (r r' : bool) (g g' : SnakeGame) :
  game_inv g -> handle_event ev (r, g) = Ok (r', g') -> game_inv g'.
Proof.
  intros Hi. unfold handle_event.
  destruct ev as [|k|]; try (intros H; inversion H; subst; exact Hi).
  destruct (key_eqb k K_ESCAPE); [intros H; inversion H; subst; exact Hi|].
  assert (Hreset :
             (g0 <- _reset_game g ;; Ok (r, set_state PLAYING g0)) = Ok (r', g') ->
             game_inv g').
  { destruct (_reset_game g) as [g1|e] eqn:Hr; simpl; [|discriminate].
    intros H; inversion H; subst. apply set_state_inv.
    eapply reset_game_inv; [|exact Hr]. apply Hi. }
  destruct (state g).
  - destruct (key_eqb k K_SPACE); [exact Hreset|].
    intros H; inversion H; subst; exact Hi.
  - destruct (key_eqb k K_p); intros H; inversion H; subst.
    + apply set_state_inv; exact Hi.
    + apply handle_input_inv; exact Hi.
  - destruct (key_eqb k K_p); intros H; inversion H; subst.
    + apply set_state_inv; exact Hi.
    + exact Hi.
  - destruct (key_eqb k K_SPACE); [exact Hreset|].
    intros H; inversion H; subst; exact Hi.
Qed.

Lemma update_inv (g g' : SnakeGame) :
  game_inv g -> update g = Ok g' -> game_inv g'.
Proof.
  intros Hi. unfold update.
  destruct (state g); try (intros H; inversion H; subst; exact Hi).
  destruct (_move_snake g) as [g1|e] eqn:Hm; simpl; [|discriminate].
  intros H; inversion H; subst.
  apply (move_snake_inv _ _ Hi) in Hm. unfold game_inv in *. simpl. exact Hm.
Qed.

Lemma render_inv (g g' : SnakeGame) :
  game_inv g -> render g = Ok g' -> game_inv g'.
Proof.
  intros Hi Hr. eapply special_only_inv; [apply render_special_only; exact Hr | exact Hi].
Qed.

Lemma display_set_mode_Ok (w h : Z) :
  display_set_mode w h = Ok tt <-> 0 <= w <= 16384 /\ 0 <= h <= 16384.
Proof.
  unfold display_set_mode.
  destruct (((0 <=? w) && (w <=? 16384)) && ((0 <=? h) && (h <=? 16384))) eqn:E.
  - rewrite !andb_true_iff, !Z.leb_le in E. split; [intros _; lia | reflexivity].
  - split.
    + destruct ((c_int w && c_int h) && ((w <? 0) || (h <? 0))); discriminate.
    + intros H. rewrite <- !Z.leb_le, <- !andb_true_iff in H.
      rewrite andb_assoc in H. rewrite !andb_assoc in E. congruence.
Qed.

Lemma display_set_mode_negative (w h : Z) :
  - 2 ^ 31 <= w < 2 ^ 31 -> - 2 ^ 31 <= h < 2 ^ 31 -> w < 0 \/ h < 0 ->
  display_set_mode w h = Raise PygameError.
Proof.
  intros Hw Hh Hneg. unfold display_set_mode, c_int.
  replace (((0 <=? w) && (w <=? 16384)) && ((0 <=? h) && (h <=? 16384))) with false.
  - replace (- 2 ^ 31 <=? w) with true by (symmetry; apply Z.leb_le; lia).
    replace (w <? 2 ^ 31) with true by (symmetry; apply Z.ltb_lt; lia).
    replace (- 2 ^ 31 <=? h) with true by (symmetry; apply Z.leb_le; lia).
    replace (h <? 2 ^ 31) with true by (symmetry; apply Z.ltb_lt; lia).
    replace ((w <? 0) || (h <? 0)) with true; [reflexivity|].
    symmetry. apply orb_true_iff. rewrite !Z.ltb_lt. exact Hneg.
  - symmetry. apply not_true_is_false. rewrite !andb_true_iff, !Z.leb_le. lia.
Qed.

(** The constructor returns exactly when the cell size is not zero, the
    window size is one pygame takes, and the file gives an integer. *)
Lemma init_Ok (w h c : Z) (e : Env) (g : SnakeGame) :
  SnakeGame_init w h c e = Ok g ->
  c <> 0 /\ (0 <= w <= 16384 /\ 0 <= h <= 16384) /\
  exists hs,
    _load_high_score e = Some (AInt hs) /\
    _reset_game
      (mkGame (mkConfig w h c (w / c) (h / c)) e 10 MENU 0 hs [] RIGHT RIGHT
              false None None 0 []) = Ok g.
Proof.
  unfold SnakeGame_init. destruct (c =? 0) eqn:Hc; [discriminate|].
  apply Z.eqb_neq in Hc.
  destruct (display_set_mode w h) as [[]|x] eqn:Hd; [|discriminate].
  apply display_set_mode_Ok in Hd.
  destruct (_load_high_score e) as [[hs| | |]|]; try discriminate.
  cbn [bind int_of_atom]. intros Hr.
  split; [exact Hc|]. split; [exact Hd|]. exists hs. split; [reflexivity | exact Hr].
Qed.

Lemma init_run (w h c hs : Z) (e : Env) :
  c <> 0 -> 0 <= w <= 16384 -> 0 <= h <= 16384 ->
  _load_high_score e = Some (AInt hs) ->
  SnakeGame_init w h c e =
    _reset_game
      (mkGame (mkConfig w h c (w / c) (h / c)) e 10 MENU 0 hs [] RIGHT RIGHT
              false None None 0 []).
Proof.
  intros Hc Hw Hh Hl. unfold SnakeGame_init.
  apply Z.eqb_neq in Hc. rewrite Hc.
  rewrite (proj2 (display_set_mode_Ok w h) (conj Hw Hh)), Hl. reflexivity.
Qed.

(** The constructor on a zero cell size, on a negative window size, and on
    a window larger than the model covers. *)
Example constructor_errors :
  SnakeGame_init 800 600 0 env0 = Raise ZeroDivisionError /\
  SnakeGame_init (-800) 600 0 env0 = Raise ZeroDivisionError /\
  SnakeGame_init (-800) 600 20 env0 = Raise PygameError /\
  SnakeGame_init 800 (-1) 20 env0 = Raise PygameError /\
  SnakeGame_init 20000 600 20 env0 = Raise Unmodelled.
Proof. repeat split. Qed.

(** [_load_high_score] on a missing file, on texts that do not decode, on
    JSON that is no object, on an object without the key, and on JSON
    outside the fragment (an array). *)
Example load_high_score_examples :
  _load_high_score env0 = Some (AInt 0) /\
  _load_high_score (mkEnv [] (Some EmptyString) true [] []) = Some (AInt 0) /\
  _load_high_score (mkEnv [] (Some "high score 7"%string) true [] []) = Some (AInt 0) /\
  _load_high_score (mkEnv [] (Some "17"%string) true [] []) = Some (AInt 0) /\
  _load_high_score (mkEnv [] (Some "{ }"%string) true [] []) = Some (AInt 0) /\
  _load_high_score (mkEnv [] (Some (high_score_text 70)) true [] []) = Some (AInt 70) /\
  _load_high_score (mkEnv [] (Some "[70]"%string) true [] []) = None.
Proof. vm_compute. repeat split. Qed.

Lemma init_inv (w h c : Z) (e : Env) (g : SnakeGame) :
  SnakeGame_init w h c e = Ok g -> game_inv g.
Proof.
  intros Hi. destruct (init_Ok _ _ _ _ _ Hi) as [Hc [_ [hs [_ Hr]]]].
  revert Hr. apply reset_game_inv. simpl. exact Hc.
Qed.

Lemma reachable_inv (g : SnakeGame) : reachable g -> game_inv g.
Proof.
  induction 1 as [w h c e g Hi | ev r g r' g' _ IH He | g g' _ IH Hu | g g' _ IH Hr].
  - eapply init_inv; exact Hi.
  - eapply handle_event_inv; eassumption.
  - eapply update_inv; eassumption.
  - eapply render_inv; eassumption.
Qed.

(** ** Concrete runs *)

Lemma menu1_reachable : reachable menu1.
Proof. apply (reach_init 800 600 20 env1). vm_compute. reflexivity. Qed.

Lemma game1_reachable : reachable game1.
Proof.
  apply (reach_event (KEYDOWN K_SPACE) true menu1 true game1 menu1_reachable).
  vm_compute. reflexivity.
Qed.

Lemma menu2_reachable : reachable menu2.
Proof. apply (reach_init 800 600 20 env2). vm_compute. reflexivity. Qed.

Lemma game2_reachable : reachable game2.
Proof.
  apply (reach_event (KEYDOWN K_SPACE) true menu2 true game2 menu2_reachable).
  vm_compute. reflexivity.
Qed.

(** ** The simulation tick *)

Lemma update_playing (g g1 : SnakeGame) :
  state g = PLAYING -> _move_snake g = Ok g1 ->
  update g = Ok (set_fps (Z.min (10 + score g1 / 50) 20) (_update_particles g1)).
Proof. intros Hs Hm. unfold update. rewrite Hs, Hm. reflexivity. Qed.

Lemma update_idle (g : SnakeGame) : state g <> PLAYING -> update g = Ok g.
Proof. unfold update. destruct (state g); congruence. Qed.

Lemma length_tl_snoc {A} (l : list A) (x : A) :
  List.length (tl (l ++ [x])) = List.length l.
Proof. destruct l; simpl; [reflexivity|]. rewrite length_app. simpl. lia. Qed.

Lemma length_snoc {A} (l : list A) (x : A) :
  List.length (l ++ [x]) = (List.length l + 1)%nat.
Proof. rewrite length_app. reflexivity. Qed.

(** C1. On a tick in the Playing state that ends in no wall or self
    collision, the snake is as long after the move as before when the cell
    entered holds no food, and one cell longer when it holds the normal or
    the special food. *)
Theorem tick_length (g : SnakeGame) (c : cell) :
  reachable g -> state g = PLAYING ->
  next_cell g = Ok c -> collides g c = false ->
  exists g',
    update g = Ok g' /\
    List.length (snake g') =
      (List.length (snake g) +
       (if pos_eqb c (food_pos g) || pos_eqb c (special_food_pos g) then 1 else 0))%nat.
Proof.
  intros Hr Hst Hc Hfree.
  destruct (reachable_inv g Hr) as [Hg _].
  destruct (move_snake_cases g c Hc Hg)
    as [[Hcol _] | [[_ [Hf [Hs H]]] | [[_ [Hf [Hs H]]] | [_ [Hf [gm [gs [Hsp [H Hfr]]]]]]]]].
  - congruence.
  - eexists. split; [apply (update_playing _ _ Hst H)|].
    simpl. rewrite Hf, Hs. simpl. rewrite length_tl_snoc. lia.
  - eexists. split; [apply (update_playing _ _ Hst H)|].
    simpl. rewrite Hf, Hs. simpl. apply length_snoc.
  - eexists. split; [apply (update_playing _ _ Hst H)|].
    simpl. rewrite Hf. simpl.
    destruct (spawn_food_frame _ _ Hsp) as [_ [_ [_ [_ [_ [E _]]]]]].
    destruct Hfr as [_ [_ [_ [_ [_ [F _]]]]]].
    rewrite E, F. apply length_snoc.
Qed.

Lemma tick_length_witness :
  reachable game1 /\ state game1 = PLAYING /\
  next_cell game1 = Ok (21, 15) /\ collides game1 (21, 15) = false /\
  exists g',
    update game1 = Ok g' /\
    List.length (snake g') = (3 + 1)%nat.
Proof.
  split; [exact game1_reachable|].
  split; [reflexivity|]. split; [reflexivity|]. split; [reflexivity|].
  exact (tick_length game1 (21, 15) game1_reachable eq_refl eq_refl eq_refl).
Defined.

(** C2. On a tick, when the cell in front of the head (head plus committed
    direction) lies outside the grid or is a cell of the snake, the tail
    included, the game goes to GameOver, and neither the move nor the redraw
    of that frame changes the snake, the score or the two food positions. *)
Theorem tick_collision (g : SnakeGame) (c : cell) :
  reachable g -> state g = PLAYING -> next_cell g = Ok c ->
  (fst c < 0 \/ fst c >= grid_width (cfg g) \/
   snd c < 0 \/ snd c >= grid_height (cfg g) \/ In c (snake g)) ->
  exists g1 g2,
    update g = Ok g1 /\ render g1 = Ok g2 /\
    state g1 = GAME_OVER /\ state g2 = GAME_OVER /\
    snake g1 = snake g /\ snake g2 = snake g /\
    score g1 = score g /\ score g2 = score g /\
    food_pos g1 = food_pos g /\ food_pos g2 = food_pos g /\
    special_food_pos g1 = special_food_pos g /\
    special_food_pos g2 = special_food_pos g.
Proof.
  intros Hr Hst Hc Hhit.
  pose proof (reachable_inv g Hr) as Hinv.
  assert (Hcol : collides g c = true).
  { unfold collides, wall_collision.
    destruct Hhit as [H | [H | [H | [H | H]]]].
    - replace (0 <=? fst c) with false by (symmetry; apply Z.leb_gt; lia). reflexivity.
    - replace (fst c <? grid_width (cfg g)) with false by (symmetry; apply Z.ltb_ge; lia).
      rewrite andb_false_r. reflexivity.
    - replace (0 <=? snd c) with false by (symmetry; apply Z.leb_gt; lia).
      rewrite andb_false_r. reflexivity.
    - replace (snd c <? grid_height (cfg g)) with false by (symmetry; apply Z.ltb_ge; lia).
      rewrite !andb_false_r. reflexivity.
    - apply cell_in_In in H. rewrite H. apply orb_true_r. }
  destruct (move_snake_cases g c Hc (proj1 Hinv))
    as [[_ H] | [[Hf _] | [[Hf _] | [Hf _]]]]; try congruence.
  pose proof (update_playing _ _ Hst H) as Hu.
  pose proof (update_inv _ _ Hinv Hu) as Hinv1.
  destruct (render_total _ (proj2 (proj2 (proj2 Hinv1)))) as [g2 Hr2].
  destruct (game_over_fields (set_direction (next_direction g) g))
    as [E1 [_ [_ [E2 [E3 [_ [_ [_ [E4 [E5 _]]]]]]]]]].
  simpl in E2, E3, E4, E5.
  remember (set_fps (Z.min (10 + score (_game_over (set_direction (next_direction g) g)) / 50) 20)
              (_update_particles (_game_over (set_direction (next_direction g) g))))
    as g1 eqn:Eg1.
  assert (F : state g1 = GAME_OVER /\ snake g1 = snake g /\ score g1 = score g /\
              food_pos g1 = food_pos g /\ special_food_pos g1 = special_food_pos g).
  { subst g1. simpl. rewrite E1, E2, E3, E4, E5. repeat split. }
  destruct F as [F1 [F2 [F3 [F4 F5]]]].
  assert (He : display_only g1 g2).
  { apply render_display_only; [exact Hr2 | right; exact F1]. }
  destruct (display_only_same _ _ He) as [[S1 [_ [_ [S2 [_ [S3 S4]]]]]] [S5 _]].
  exists g1, g2. rewrite S1, S2, S3, S4, S5, F1, F2, F3, F4, F5.
  repeat split; assumption.
Qed.

#[local] Arguments handle_event : simpl never.

Lemma handle_events_cons (ev : event) (evs : list event) (st : bool * SnakeGame) :
  handle_events (ev :: evs) st = (st' <- handle_event ev st ;; handle_events evs st').
Proof. reflexivity. Qed.

Lemma handle_events_reachable (evs : list event) :
  forall r g r' g',
    reachable g -> handle_events evs (r, g) = Ok (r', g') -> reachable g'.
Proof.
  induction evs as [|ev evs IH]; intros r g r' g' Hr.
  - simpl. intros H; inversion H; subst; exact Hr.
  - rewrite handle_events_cons.
    destruct (handle_event ev (r, g)) as [[r1 g1]|e] eqn:He; simpl; [|discriminate].
    apply IH. eapply reach_event; eassumption.
Qed.

Lemma frame_reachable (evs : list event) (g : SnakeGame) (r : bool) (g' : SnakeGame) :
  reachable g -> frame evs g = Ok (r, g') -> reachable g'.
Proof.
  intros Hr. unfold frame.
  destruct (handle_events evs (true, g)) as [[r1 g1]|e] eqn:He; simpl; [|discriminate].
  destruct (update g1) as [g2|e] eqn:Hu; simpl; [|discriminate].
  destruct (render g2) as [g3|e] eqn:Hd; simpl; [|discriminate].
  intros H; inversion H; subst.
  eapply reach_render; [|exact Hd].
  eapply reach_update; [|exact Hu].
  eapply handle_events_reachable; eassumption.
Qed.

Lemma run_reachable (frames : list (list event)) :
  forall g g', reachable g -> run frames g = Ok g' -> reachable g'.
Proof.
  induction frames as [|evs frames IH]; intros g g' Hr; simpl.
  - intros H; inversion H; subst; exact Hr.
  - destruct (frame evs g) as [[r g1]|e] eqn:Hf; simpl; [|discriminate].
    pose proof (frame_reachable _ _ _ _ Hr Hf) as Hr1.
    destruct r; [apply IH; exact Hr1|].
    intros H; inversion H; subst; exact Hr1.
Qed.

Lemma game_top_reachable : reachable game_top.
Proof.
  apply (run_reachable ([KEYDOWN K_UP] :: repeat [] 14) game1 game_top game1_reachable).
  vm_compute. reflexivity.
Qed.

Lemma tick_collision_witness :
  reachable game_top /\ state game_top = PLAYING /\
  next_cell game_top = Ok (20, -1) /\
  (fst (20, -1) < 0 \/ fst (20, -1) >= grid_width (cfg game_top) \/
   snd (20, -1) < 0 \/ snd (20, -1) >= grid_height (cfg game_top) \/
   In (20, -1) (snake game_top)) /\
  exists g1 g2,
    update game_top = Ok g1 /\ render g1 = Ok g2 /\
    state g1 = GAME_OVER /\ state g2 = GAME_OVER /\
    snake g1 = snake game_top /\ snake g2 = snake game_top /\
    score g1 = score game_top /\ score g2 = score game_top /\
    food_pos g1 = food_pos game_top /\ food_pos g2 = food_pos game_top /\
    special_food_pos g1 = special_food_pos game_top /\
    special_food_pos g2 = special_food_pos game_top.
Proof.
  assert (Hhit : fst (20, -1) < 0 \/ fst (20, -1) >= grid_width (cfg game_top) \/
                 snd (20, -1) < 0 \/ snd (20, -1) >= grid_height (cfg game_top) \/
                 In (20, -1) (snake game_top)).
  { right; right; left. simpl. lia. }
  split; [exact game_top_reachable|].
  split; [reflexivity|]. split; [reflexivity|]. split; [exact Hhit|].
  exact (tick_collision game_top (20, -1) game_top_reachable eq_refl eq_refl Hhit).
Defined.

(** ** Score *)

Lemma handle_event_score (ev : event) (r r' : bool) (g g' : SnakeGame) :
  state g = PLAYING \/ state g = PAUSED ->
  handle_event ev (r, g) = Ok (r', g') ->
  score g' = score g /\ direction g' = direction g /\
  high_score g' = high_score g /\ env g' = env g /\
  (state g' = PLAYING \/ state g' = PAUSED).
Proof.
  intros Hst. unfold handle_event.
  destruct ev as [|k|]; try (intros H; inversion H; subst; tauto).
  destruct (key_eqb k K_ESCAPE); [intros H; inversion H; subst; tauto|].
  destruct Hst as [E | E]; rewrite E.
  - destruct (key_eqb k K_p); intros H; inversion H; subst; simpl; [tauto|].
    unfold _handle_input. destruct (key_mapping k) as [d|]; [|tauto].
    destruct (negb (Direction_eqb d (direction_opposites (direction g)))); simpl; tauto.
  - destruct (key_eqb k K_p); intros H; inversion H; subst; simpl; tauto.
Qed.

(** C5, as the code has it. During play (Playing or Paused) the score is
    changed only by a tick: by exactly 10 when the head enters the cell of
    the normal food, also when the special food lies on that cell; by exactly
    50 when it enters a cell that holds the special food only; by nothing
    when no food is entered or the tick ends in a collision.  Key events and
    redraws leave it alone, so it never decreases. *)
Theorem score_changes (g : SnakeGame) :
  reachable g -> state g = PLAYING \/ state g = PAUSED ->
  (forall ev r r' g', handle_event ev (r, g) = Ok (r', g') -> score g' = score g) /\
  (forall g', render g = Ok g' -> score g' = score g) /\
  (exists g',
     update g = Ok g' /\ score g <= score g' /\
     (state g = PAUSED -> score g' = score g) /\
     (state g = PLAYING -> forall c, next_cell g = Ok c ->
        score g' = score g +
          (if collides g c then 0
           else if pos_eqb c (food_pos g) then 10
           else if pos_eqb c (special_food_pos g) then 50
           else 0))).
Proof.
  intros Hr Hst. pose proof (reachable_inv g Hr) as Hinv.
  split; [intros ev r r' g' H; apply (handle_event_score _ _ _ _ _ Hst H)|].
  split.
  { intros g' H. apply render_special_only in H.
    apply special_only_same_play in H. apply H. }
  destruct Hst as [E | E].
  - destruct Hinv as [Hg [Hs _]]. destruct (next_cell_total g Hs) as [c Hc].
    assert (Hsc : exists g1, _move_snake g = Ok g1 /\
              score g1 = score g +
                (if collides g c then 0
                 else if pos_eqb c (food_pos g) then 10
                 else if pos_eqb c (special_food_pos g) then 50
                 else 0)).
    { destruct (move_snake_cases g c Hc Hg)
        as [[Hcol H] | [[Hcol [Hf [Hsp H]]] | [[Hcol [Hf [Hsp H]]] |
            [Hcol [Hf [gm [gs [Hspawn [H Hfr]]]]]]]]];
        rewrite Hcol; eexists; (split; [exact H|]).
      - destruct (game_over_fields (set_direction (next_direction g) g))
          as [_ [_ [_ [-> _]]]]. simpl. lia.
      - rewrite Hf, Hsp. simpl. lia.
      - rewrite Hf, Hsp. reflexivity.
      - rewrite Hf. simpl.
        destruct (spawn_food_frame _ _ Hspawn) as [_ [_ [_ [-> _]]]].
        destruct Hfr as [_ [_ [_ [-> _]]]]. reflexivity. }
    destruct Hsc as [g1 [Hm Hsc]].
    eexists. split; [apply (update_playing _ _ E Hm)|]. simpl.
    split; [|split].
    + rewrite Hsc. destruct (collides g c); [lia|].
      destruct (pos_eqb c (food_pos g)); [lia|].
      destruct (pos_eqb c (special_food_pos g)); lia.
    + rewrite E. discriminate.
    + intros _ c' Hc'. assert (c' = c) by congruence. subst c'. exact Hsc.
  - exists g. split; [apply update_idle; rewrite E; discriminate|].
    split; [lia|]. split; [reflexivity|]. rewrite E. discriminate.
Qed.

Lemma score_changes_witness :
  reachable game1 /\ (state game1 = PLAYING \/ state game1 = PAUSED) /\
  exists g', update game1 = Ok g' /\ score g' = 0 + 10.
Proof.
  split; [exact game1_reachable|]. split; [left; reflexivity|].
  destruct (score_changes game1 game1_reachable (or_introl eq_refl))
    as [_ [_ [g' [Hu [_ [_ H]]]]]].
  exists g'. split; [exact Hu|]. exact (H eq_refl (21, 15) eq_refl).
Defined.

(** C5 as the specification words it fails where normal and special food
    share a cell: the special food is eaten (and cleared), yet the score
    rises by 10, not by 50. *)
Lemma special_on_food_cell_scores_ten :
  reachable game2 /\ state game2 = PLAYING /\
  snake game2 = [(18, 15); (19, 15); (20, 15)] /\ next_direction game2 = RIGHT /\
  next_cell game2 = Ok (21, 15) /\ collides game2 (21, 15) = false /\
  food_pos game2 = Some (21, 15) /\
  special_food_pos game2 = Some (21, 15) /\
  pos_eqb (21, 15) (special_food_pos game2) = true /\
  exists g',
    update game2 = Ok g' /\
    score g' = score game2 + 10 /\ score g' <> score game2 + 50.
Proof.
  split; [exact game2_reachable|].
  repeat (split; [reflexivity|]).
  eexists. split; [vm_compute; reflexivity|].
  split; [reflexivity | discriminate].
Qed.

(** ** Normal and special food on one cell *)

Lemma random_choice_zero {A} (c : A) (l : list A) (t : tape) :
  random_choice (c :: l) (0%nat :: t) = Ok (c, t).
Proof.
  unfold random_choice, next_draw. rewrite Nat.Div0.mod_0_l. reflexivity.
Qed.

(** With a free cell on the board, [_spawn_food] places the normal food. *)
Lemma spawn_food_present (g gs : SnakeGame) :
  valid_positions g <> [] -> _spawn_food g = Ok gs -> food_pos gs <> None.
Proof.
  intros Hv. unfold _spawn_food.
  destruct (valid_positions g) as [|c l] eqn:Ev; [congruence|].
  cbn [nonempty].
  destruct (random_choice (c :: l) (rng (env g))) as [[c1 t1]|e]; cbn [bind];
    [|discriminate].
  destruct (random_below_tenth t1) as [[|] t2].
  - destruct (random_choice (c :: l) t2) as [[c2 t3]|e]; cbn [bind]; [|discriminate].
    intros H; inversion H. discriminate.
  - cbn [bind]. intros H; inversion H. discriminate.
Qed.

(** The bite of a cell that holds both foods, as [_move_snake] runs it:
    [_spawn_food] is called on [bitten_both g c]. *)
Lemma move_snake_shared (g : SnakeGame) (c : cell) :
  next_cell g = Ok c -> collides g c = false ->
  food_pos g = Some c -> special_food_pos g = Some c ->
  exists gs,
    _spawn_food (bitten_both g c) = Ok gs /\
    _move_snake g = Ok (set_growing false gs).
Proof.
  intros Hc Hfree Hf Hs.
  assert (Hfe : pos_eqb c (food_pos g) = true) by (apply pos_eqb_eq; exact Hf).
  assert (Hse : pos_eqb c (special_food_pos g) = true) by (apply pos_eqb_eq; exact Hs).
  apply next_cell_Ok in Hc. destruct Hc as [head [Hh Hstep]]. subst c.
  destruct (move_snake_food g head Hh Hfree Hfe) as [gs [Hsp Hm]].
  exists gs. split; [|exact Hm].
  rewrite <- Hsp. f_equal.
  unfold bitten_both, _create_eat_effect, deque_append. cbn.
  rewrite Hse. reflexivity.
Qed.

(** C10. Some spawn outcomes put the special food on the cell of the normal
    food.  When the head of a game in play then enters that cell [c], the
    tick runs [_spawn_food] on [bitten_both g c] (ten points added, the
    snake grown by [c], the special food cleared: position absent, timer 0)
    and returns what [_spawn_food] gives, aged by [after_spawn]: the score
    has risen by exactly 10, and the food and the special food are the new
    pair, each absent or on a free cell of the board. *)
Theorem shared_food_cell :
  (forall g, valid_positions g <> [] ->
     exists t c g',
       _spawn_food (set_env (set_rng t (env g)) g) = Ok g' /\
       food_pos g' = Some c /\ special_food_pos g' = Some c) /\
  (forall g c,
     reachable g -> state g = PLAYING ->
     next_cell g = Ok c -> collides g c = false ->
     food_pos g = Some c -> special_food_pos g = Some c ->
     score (bitten_both g c) = score g + 10 /\
     snake (bitten_both g c) = snake g ++ [c] /\
     special_food_pos (bitten_both g c) = None /\
     special_food_timer (bitten_both g c) = 0 /\
     exists gs,
       _spawn_food (bitten_both g c) = Ok gs /\
       update g = Ok (after_spawn gs) /\
       score (after_spawn gs) = score g + 10 /\
       score (after_spawn gs) <> score g + 50 /\
       score (after_spawn gs) <> score g + 60 /\
       snake (after_spawn gs) = snake g ++ [c] /\
       food_pos (after_spawn gs) = food_pos gs /\
       special_food_pos (after_spawn gs) = special_food_pos gs /\
       special_food_timer (after_spawn gs) =
         (if truthy (special_food_pos gs) then 150 else 0) /\
       (forall x, food_pos gs = Some x -> in_grid g x /\ ~ In x (snake g ++ [c])) /\
       (forall x, special_food_pos gs = Some x ->
                  in_grid g x /\ ~ In x (snake g ++ [c])) /\
       (valid_positions (bitten_both g c) <> [] -> food_pos gs <> None)).
Proof.
  split.
  - intros g Hv. exists [0; 0; 0]%nat.
    unfold _spawn_food.
    change (valid_positions (set_env (set_rng [0; 0; 0]%nat (env g)) g))
      with (valid_positions g).
    destruct (valid_positions g) as [|c l]; [congruence|].
    exists c. simpl nonempty. cbv iota.
    change (rng (env (set_env (set_rng [0; 0; 0]%nat (env g)) g)))
      with [0; 0; 0]%nat.
    eexists. rewrite random_choice_zero.
    unfold bind at 2. unfold bind at 1.
    change (random_below_tenth [0; 0]%nat) with (true, [0%nat]).
    cbv iota beta. rewrite random_choice_zero.
    split; [reflexivity|]. split; reflexivity.
  - intros g c Hr Hst Hc Hfree Hf Hs.
    split; [reflexivity|]. split; [reflexivity|].
    split; [reflexivity|]. split; [reflexivity|].
    destruct (move_snake_shared g c Hc Hfree Hf Hs) as [gs [Hsp Hm]].
    exists gs. split; [exact Hsp|].
    split; [apply (update_playing _ _ Hst Hm)|].
    assert (Hpresent : valid_positions (bitten_both g c) <> [] -> food_pos gs <> None)
      by (intros Hv0; apply (spawn_food_present _ _ Hv0 Hsp)).
    destruct (spawn_food_frame _ _ Hsp) as [_ [_ [_ [E1 [_ [E2 _]]]]]].
    destruct (spawn_food_spec (bitten_both g c))
      as [food [sp [t [E [Hfood [Hspec _]]]]]].
    pose proof (valid_positions_In (bitten_both g c)) as Hv.
    rewrite E in Hsp. injection Hsp as Hgs.
    assert (Hfp : food_pos gs = food) by (rewrite <- Hgs; reflexivity).
    assert (Hspp : special_food_pos gs = sp) by (rewrite <- Hgs; reflexivity).
    assert (Htm : special_food_timer gs = if truthy sp then 150 else 0)
      by (rewrite <- Hgs; reflexivity).
    change (score (after_spawn gs)) with (score gs).
    change (snake (after_spawn gs)) with (snake gs).
    change (food_pos (after_spawn gs)) with (food_pos gs).
    change (special_food_pos (after_spawn gs)) with (special_food_pos gs).
    change (special_food_timer (after_spawn gs)) with (special_food_timer gs).
    rewrite Hfp in Hpresent.
    rewrite E1, E2, Htm, Hfp, Hspp.
    change (score (bitten_both g c)) with (score g + 10).
    change (snake (bitten_both g c)) with (snake g ++ [c]).
    split; [reflexivity|]. split; [lia|]. split; [lia|].
    split; [reflexivity|]. split; [reflexivity|]. split; [reflexivity|].
    split; [reflexivity|].
    split; [intros x Hx; apply Hfood in Hx; apply Hv in Hx; exact Hx|].
    split; [intros x Hx; apply Hspec in Hx; apply Hv in Hx; exact Hx|].
    exact Hpresent.
Qed.

Lemma shared_food_cell_witness :
  reachable game2 /\ state game2 = PLAYING /\
  next_cell game2 = Ok (21, 15) /\ collides game2 (21, 15) = false /\
  food_pos game2 = Some (21, 15) /\ special_food_pos game2 = Some (21, 15) /\
  exists gs,
    _spawn_food (bitten_both game2 (21, 15)) = Ok gs /\
    update game2 = Ok (after_spawn gs) /\
    score (after_spawn gs) = score game2 + 10 /\
    food_pos (after_spawn gs) = food_pos gs /\
    special_food_pos (after_spawn gs) = special_food_pos gs.
Proof.
  split; [exact game2_reachable|].
  repeat (split; [reflexivity|]).
  destruct (proj2 shared_food_cell game2 (21, 15) game2_reachable
              eq_refl eq_refl eq_refl eq_refl eq_refl)
    as [_ [_ [_ [_ [gs [Hsp [Hu [Hsc [_ [_ [_ [Hf [Hs _]]]]]]]]]]]]].
  exists gs. repeat split; assumption.
Defined.

(** ** Direction *)

Lemma handle_events_playing (evs : list event) :
  forall r g r' g',
    state g = PLAYING \/ state g = PAUSED ->
    handle_events evs (r, g) = Ok (r', g') ->
    direction g' = direction g /\ score g' = score g /\
    high_score g' = high_score g /\ env g' = env g /\
    (state g' = PLAYING \/ state g' = PAUSED).
Proof.
  induction evs as [|ev evs IH]; intros r g r' g' Hst.
  - simpl. intros H; inversion H; subst. tauto.
  - rewrite handle_events_cons.
    destruct (handle_event ev (r, g)) as [[r1 g1]|e] eqn:He; simpl; [|discriminate].
    intros H.
    destruct (handle_event_score _ _ _ _ _ Hst He) as [E1 [E2 [E3 [E4 Hst1]]]].
    destruct (IH _ _ _ _ Hst1 H) as [G1 [G2 [G3 [G4 G5]]]].
    rewrite G1, G2, G3, G4, E1, E2, E3, E4. tauto.
Qed.

Lemma handle_events_inv (evs : list event) :
  forall r g r' g',
    game_inv g -> handle_events evs (r, g) = Ok (r', g') -> game_inv g'.
Proof.
  induction evs as [|ev evs IH]; intros r g r' g' Hi.
  - simpl. intros H; inversion H; subst. exact Hi.
  - rewrite handle_events_cons.
    destruct (handle_event ev (r, g)) as [[r1 g1]|e] eqn:He; simpl; [|discriminate].
    apply IH. eapply handle_event_inv; eassumption.
Qed.

Lemma move_snake_direction (g g' : SnakeGame) :
  game_inv g -> _move_snake g = Ok g' ->
  direction g' = next_direction g /\ next_direction g' = next_direction g.
Proof.
  intros [Hg [Hs _]] Hm. destruct (next_cell_total g Hs) as [c Hc].
  destruct (move_snake_cases g c Hc Hg)
    as [[_ H] | [[_ [_ [_ H]]] | [[_ [_ [_ H]]] | [_ [_ [gm [gs [Hsp [H Hf]]]]]]]]];
    rewrite H in Hm; inversion Hm; subst; clear Hm.
  - destruct (game_over_fields (set_direction (next_direction g) g))
      as [_ [_ [_ [_ [_ [-> [-> _]]]]]]]. split; reflexivity.
  - split; reflexivity.
  - split; reflexivity.
  - destruct (spawn_food_frame _ _ Hsp) as [_ [_ [_ [_ [_ [_ [E3 [E4 _]]]]]]]].
    destruct Hf as [_ [_ [_ [_ [_ [_ [F3 [F4 _]]]]]]]].
    simpl. rewrite E3, E4, F3, F4. split; reflexivity.
Qed.

(** C4. While a game is played, whatever key events a frame delivers, the
    buffered direction is never the opposite of the committed direction, and
    the direction the following tick commits is never the opposite of the
    direction committed before. *)
Theorem no_reversal (g : SnakeGame) (evs : list event) (r : bool) (g1 g2 : SnakeGame) :
  reachable g -> state g = PLAYING \/ state g = PAUSED ->
  handle_events evs (true, g) = Ok (r, g1) -> update g1 = Ok g2 ->
  direction g1 = direction g /\
  next_direction g1 <> direction_opposites (direction g1) /\
  direction g2 <> direction_opposites (direction g) /\
  next_direction g2 <> direction_opposites (direction g2) /\
  (state g1 = PLAYING -> direction g2 = next_direction g1).
Proof.
  intros Hr Hst He Hu.
  pose proof (reachable_inv g Hr) as Hi.
  pose proof (handle_events_inv _ _ _ _ _ Hi He) as Hi1.
  pose proof (update_inv _ _ Hi1 Hu) as Hi2.
  destruct (handle_events_playing _ _ _ _ _ Hst He) as [E1 [_ [_ [_ Hst1]]]].
  split; [exact E1|].
  split; [apply Hi1|].
  assert (Hd : direction g2 = next_direction g1 \/ direction g2 = direction g1).
  { revert Hu. unfold update. destruct (state g1).
    - intros H; inversion H; subst; right; reflexivity.
    - destruct (_move_snake g1) as [g3|e] eqn:Hm; simpl; [|discriminate].
      intros H; inversion H; subst. left. simpl.
      apply (move_snake_direction _ _ Hi1 Hm).
    - intros H; inversion H; subst; right; reflexivity.
    - intros H; inversion H; subst; right; reflexivity. }
  split.
  { rewrite <- E1. destruct Hd as [-> | ->].
    - apply Hi1.
    - apply direction_opposites_neq. }
  split; [apply Hi2|].
  intros Hp. revert Hu. unfold update. rewrite Hp.
  destruct (_move_snake g1) as [g3|e] eqn:Hm; simpl; [|discriminate].
  intros H; inversion H; subst. simpl. apply (move_snake_direction _ _ Hi1 Hm).
Qed.

Lemma no_reversal_witness :
  reachable game1 /\ (state game1 = PLAYING \/ state game1 = PAUSED) /\
  exists g1 g2,
    handle_events [KEYDOWN K_LEFT; KEYDOWN K_UP; KEYDOWN K_a] (true, game1) = Ok (true, g1) /\
    update g1 = Ok g2 /\
    next_direction g1 = UP /\ direction g2 = UP /\
    direction g2 <> direction_opposites (direction game1).
Proof.
  split; [exact game1_reachable|]. split; [left; reflexivity|].
  eexists; eexists.
  split; [vm_compute; reflexivity|]. split; [vm_compute; reflexivity|].
  split; [reflexivity|]. split; [reflexivity|].
  exact (proj1 (proj2 (proj2
    (no_reversal game1 [KEYDOWN K_LEFT; KEYDOWN K_UP; KEYDOWN K_a] true _ _
       game1_reachable (or_introl eq_refl) eq_refl eq_refl)))).
Defined.

(** ** What each step does to the high score and to the file *)

Lemma display_only_env (g g' : SnakeGame) :
  display_only g g' ->
  rng (env g') = rng (env g) /\ disk (env g') = disk (env g) /\
  disk_writable (env g') = disk_writable (env g) /\
  disk_writes (env g') = disk_writes (env g).
Proof. unfold display_only. intros ->. simpl. repeat split. Qed.

Lemma special_only_env (g g' : SnakeGame) :
  special_only g g' ->
  high_score g' = high_score g /\
  rng (env g') = rng (env g) /\ disk (env g') = disk (env g) /\
  disk_writable (env g') = disk_writable (env g) /\
  disk_writes (env g') = disk_writes (env g).
Proof. unfold special_only. intros ->. simpl. repeat split. Qed.

Lemma reset_game_high_score (g g' : SnakeGame) :
  _reset_game g = Ok g' ->
  high_score g' = high_score g /\ disk (env g') = disk (env g) /\
  disk_writes (env g') = disk_writes (env g).
Proof.
  unfold _reset_game.
  match goal with
  | |- context [_spawn_food ?X] =>
      destruct (_spawn_food X) as [gs|e] eqn:Hs; simpl; [|discriminate]
  end.
  intros H; inversion H; subst; clear H.
  destruct (spawn_food_frame _ _ Hs)
    as [_ [_ [_ [_ [E1 [_ [_ [_ [_ [_ [E2 [_ [E3 _]]]]]]]]]]]]].
  simpl in *. rewrite E1, E2, E3. repeat split.
Qed.

Lemma handle_event_high_score (ev : event) (r r' : bool) (g g' : SnakeGame) :
  handle_event ev (r, g) = Ok (r', g') ->
  high_score g' = high_score g /\ disk (env g') = disk (env g) /\
  disk_writes (env g') = disk_writes (env g).
Proof.
  unfold handle_event.
  destruct ev as [|k|]; try (intros H; inversion H; subst; tauto).
  destruct (key_eqb k K_ESCAPE); [intros H; inversion H; subst; tauto|].
  assert (Hreset :
            (g0 <- _reset_game g ;; Ok (r, set_state PLAYING g0)) = Ok (r', g') ->
            high_score g' = high_score g /\ disk (env g') = disk (env g) /\
            disk_writes (env g') = disk_writes (env g)).
  { destruct (_reset_game g) as [g1|e] eqn:Hr; simpl; [|discriminate].
    intros H; inversion H; subst. simpl. apply reset_game_high_score; exact Hr. }
  destruct (state g).
  - destruct (key_eqb k K_SPACE); [exact Hreset|].
    intros H; inversion H; subst; tauto.
  - destruct (key_eqb k K_p); intros H; inversion H; subst; simpl; [tauto|].
    unfold _handle_input. destruct (key_mapping k) as [d|]; [|tauto].
    destruct (negb (Direction_eqb d (direction_opposites (direction g)))); simpl; tauto.
  - destruct (key_eqb k K_p); intros H; inversion H; subst; simpl; tauto.
  - destruct (key_eqb k K_SPACE); [exact Hreset|].
    intros H; inversion H; subst; tauto.
Qed.

(** What a move does to the state, the high score and the file. *)
Lemma move_snake_high_score (g g' : SnakeGame) :
  game_inv g -> state g = PLAYING -> _move_snake g = Ok g' ->
  (state g' = GAME_OVER /\
   g' = _game_over (set_direction (next_direction g) g))
  \/
  (state g' = PLAYING /\
   high_score g' = high_score g /\ disk (env g') = disk (env g) /\
   disk_writes (env g') = disk_writes (env g)).
Proof.
  intros [Hg [Hs _]] Hst Hm. destruct (next_cell_total g Hs) as [c Hc].
  destruct (move_snake_cases g c Hc Hg)
    as [[_ H] | [[_ [_ [_ H]]] | [[_ [_ [_ H]]] | [_ [_ [gm [gs [Hsp [H Hf]]]]]]]]];
    rewrite H in Hm; inversion Hm; subst; clear Hm.
  - left. destruct (game_over_fields (set_direction (next_direction g) g)) as [E _].
    split; [exact E | reflexivity].
  - right. simpl. repeat split. exact Hst.
  - right. simpl. repeat split. exact Hst.
  - right.
    destruct (spawn_food_frame _ _ Hsp)
      as [_ [_ [E0 [_ [E1 [_ [_ [_ [_ [_ [E2 [_ [E3 _]]]]]]]]]]]]].
    destruct Hf as [_ [_ [F0 [_ [F1 [_ [_ [_ [F2 [_ [F3 _]]]]]]]]]]].
    simpl. rewrite E0, E1, E2, E3, F0, F1, F2, F3. repeat split. exact Hst.
Qed.

Lemma game_over_spec (g : SnakeGame) :
  state (_game_over g) = GAME_OVER /\
  (score g > high_score g ->
   high_score (_game_over g) = score g /\
   (fits_str_digits (score g) = true ->
    disk_writes (env (_game_over g)) =
      disk_writes (env g) ++ [high_score_text (score g)] /\
    (disk_writable (env g) = true ->
     disk (env (_game_over g)) = Some (high_score_text (score g))) /\
    (disk_writable (env g) = false -> disk (env (_game_over g)) = disk (env g))) /\
   (fits_str_digits (score g) = false -> env (_game_over g) = env g)) /\
  (score g <= high_score g ->
   high_score (_game_over g) = high_score g /\ env (_game_over g) = env g) /\
  _game_over (_game_over g) = _game_over g.
Proof.
  unfold _game_over. rewrite !save_high_score_cases. unfold write_text. simpl.
  destruct (score g >? high_score g) eqn:E; simpl.
  - split; [destruct (fits_str_digits (score g)); reflexivity|]. split.
    + intros _. destruct (fits_str_digits (score g)); simpl.
      * split; [reflexivity|]. split; [|discriminate].
        intros _. split; [reflexivity|]. split; intros ->; reflexivity.
      * split; [reflexivity|]. split; [discriminate | reflexivity].
    + split; [intros H; apply Z.gtb_lt in E; lia|].
      destruct (fits_str_digits (score g)); simpl;
        replace (score g >? score g) with false
          by (symmetry; rewrite Z.gtb_ltb; apply Z.ltb_irrefl);
        reflexivity.
  - split; [reflexivity|]. split.
    + intros H. rewrite Z.gtb_ltb in E. apply Z.ltb_ge in E. lia.
    + split; [intros _; split; reflexivity|]. rewrite E. reflexivity.
Qed.

Lemma game_over_set_direction (d : Direction) (g : SnakeGame) :
  high_score (_game_over (set_direction d g)) = high_score (_game_over g) /\
  env (_game_over (set_direction d g)) = env (_game_over g) /\
  score (_game_over (set_direction d g)) = score g.
Proof.
  unfold _game_over. rewrite !save_high_score_cases. simpl.
  destruct (score g >? high_score g); [|simpl; repeat split].
  destruct (fits_str_digits (score g)); simpl; repeat split.
Qed.

Lemma game_scored_reachable : reachable game_scored.
Proof.
  apply (run_reachable ([] :: [KEYDOWN K_UP] :: repeat [] 14) game1 game_scored
           game1_reachable).
  vm_compute. reflexivity.
Qed.

(** ** The countdown of the special food *)




Lemma game2_up_reachable : reachable game2_up.
Proof.
  apply (reach_event (KEYDOWN K_UP) true game2 true game2_up game2_reachable).
  vm_compute. reflexivity.
Qed.


Lemma game_special_top_reachable : reachable game_special_top.
Proof.
  apply (run_reachable ([KEYDOWN K_UP] :: repeat [] 14) game2 game_special_top
           game2_reachable).
  vm_compute. reflexivity.
Qed.


(** ** Drawing and the simulation state *)

(** C8, as the code has it. No drawing operation changes the snake, the
    directions, the score, the high score, the game state or the normal food
    position, whatever the game state.  The grid, snake, particle, UI, menu,
    pause and game-over drawings leave the special food and its timer alone
    as well, and so does the food drawing when no special food is counting
    down. *)
Theorem drawing_preserves_play (g : SnakeGame) :
  (forall g', _draw_grid g = Ok g' -> same_play g g' /\ same_special g g') /\
  (same_play g (_draw_snake g) /\ same_special g (_draw_snake g)) /\
  (same_play g (_draw_particles g) /\ same_special g (_draw_particles g)) /\
  (same_play g (_draw_ui g) /\ same_special g (_draw_ui g)) /\
  (same_play g (_draw_menu g) /\ same_special g (_draw_menu g)) /\
  (same_play g (_draw_pause g) /\ same_special g (_draw_pause g)) /\
  (same_play g (_draw_game_over g) /\ same_special g (_draw_game_over g)) /\
  (same_play g (_draw_glow g) /\ same_special g (_draw_glow g)) /\
  same_play g (_draw_food g) /\
  (special_food_pos g = None \/ special_food_timer g <= 0 ->
   same_special g (_draw_food g)) /\
  (forall g', render g = Ok g' ->
     same_play g g' /\
     (state g = MENU \/ state g = GAME_OVER -> same_special g g')).
Proof.
  split; [intros g' H; apply display_only_same, draw_grid_display_only; exact H|].
  split; [apply display_only_same, draw_snake_display_only|].
  split; [apply display_only_same, draw_particles_display_only|].
  split; [apply display_only_same, draw_ui_display_only|].
  split; [apply display_only_same, draw_menu_display_only|].
  split; [apply display_only_same, draw_pause_display_only|].
  split; [apply display_only_same, draw_game_over_display_only|].
  split; [apply display_only_same, draw_glow_display_only|].
  destruct (draw_food_spec g) as [Hso Hpair].
  split; [apply special_only_same_play; exact Hso|].
  split.
  - intros Hno. unfold same_special.
    assert (Hp : (special_food_pos (_draw_food g), special_food_timer (_draw_food g)) =
                 (special_food_pos g, special_food_timer g)).
    { rewrite Hpair. destruct Hno as [-> | Hle]; [reflexivity|].
      destruct (special_food_pos g); [|reflexivity].
      replace (special_food_timer g >? 0) with false; [reflexivity|].
      symmetry. rewrite Z.gtb_ltb. apply Z.ltb_ge. exact Hle. }
    inversion Hp as [[P1 P2]]. rewrite P1, P2. split; reflexivity.
  - intros g' H. split.
    + apply special_only_same_play, render_special_only; exact H.
    + intros Hst. apply (display_only_same _ _ (render_display_only _ _ H Hst)).
Qed.

Lemma drawing_preserves_play_witness :
  same_play game2 (_draw_food game2) /\
  same_play game2 (_draw_snake game2) /\ same_special game2 (_draw_snake game2).
Proof.
  destruct (drawing_preserves_play game2) as [_ [Hs [_ [_ [_ [_ [_ [_ [Hf _]]]]]]]]].
  split; [exact Hf | exact Hs].
Defined.

Lemma game_paused_reachable : reachable game_paused.
Proof.
  apply (reach_event (KEYDOWN K_p) true game2 true game_paused game2_reachable).
  vm_compute. reflexivity.
Qed.

(** C8 as the specification words it fails on the food drawing, which holds
    the countdown of the special food: drawing the food of a game in play
    takes one off the timer, and so does the redraw of the frame. *)
Lemma food_drawing_counts_down :
  reachable game2_up /\ update game2_up = Ok game2_moved /\
  state game2_moved = PLAYING /\
  snake game2_moved = [(19, 15); (20, 15); (20, 14)] /\
  special_food_pos game2_moved = Some (21, 15) /\
  special_food_timer game2_moved = 150 /\
  special_food_timer (_draw_food game2_moved) = 149 /\
  exists g',
    render game2_moved = Ok g' /\
    special_food_timer g' = 149 /\
    special_food_timer g' <> special_food_timer game2_moved.
Proof.
  split; [exact game2_up_reachable|].
  split; [vm_compute; reflexivity|].
  repeat (split; [reflexivity|]).
  eexists. split; [vm_compute; reflexivity|].
  split; [reflexivity | discriminate].
Qed.

(** The same happens while the game is paused, when no tick takes place. *)
Lemma paused_redraw_counts_down :
  reachable game_paused /\ state game_paused = PAUSED /\
  special_food_timer game_paused = 150 /\
  special_food_timer (_draw_food game_paused) = 149 /\
  exists g',
    render game_paused = Ok g' /\
    special_food_timer g' = 149 /\
    special_food_timer g' <> special_food_timer game_paused.
Proof.
  split; [exact game_paused_reachable|].
  repeat (split; [reflexivity|]).
  eexists. split; [vm_compute; reflexivity|].
  split; [reflexivity | discriminate].
Qed.

(** ** The high-score file *)

Lemma to_uint_normal (p : positive) : unorm (Pos.to_uint p) = Pos.to_uint p.
Proof.
  rewrite <- (DecimalPos.Unsigned.to_of (Pos.to_uint p)).
  rewrite DecimalPos.Unsigned.of_to. reflexivity.
Qed.

Lemma to_uint_no_leading_zero (p : positive) (d : uint) : Pos.to_uint p <> D0 d.
Proof.
  intros E. pose proof (to_uint_normal p) as Hn. rewrite E in Hn.
  rewrite unorm_D0 in Hn. unfold unorm in Hn.
  destruct (nzhead d) eqn:Hz; try (apply (nzhead_nonzero d d); congruence).
  inversion Hn; subst.
  apply (DecimalPos.Unsigned.to_uint_nonzero p). exact E.
Qed.

Lemma scan_digits_string_of_uint (d : uint) (rest : string) :
  scan_digits rest = (Nil, rest) ->
  scan_digits (NilEmpty.string_of_uint d ++ rest) = (d, rest).
Proof.
  intros Hrest. induction d; simpl; try (rewrite IHd; reflexivity). exact Hrest.
Qed.

Lemma string_of_uint_head (d : uint) :
  d <> Nil -> (forall d', d <> D0 d') ->
  exists c r,
    NilEmpty.string_of_uint d = String c r /\
    In c ["1"; "2"; "3"; "4"; "5"; "6"; "7"; "8"; "9"]%char.
Proof.
  intros Hnil Hzero.
  destruct d; try congruence; try (exfalso; apply (Hzero d); reflexivity);
    simpl; do 2 eexists; (split; [reflexivity|]); simpl; tauto.
Qed.

(** A first character that is a nonzero digit. *)
Lemma nonzero_digit_tests (c : ascii) :
  In c ["1"; "2"; "3"; "4"; "5"; "6"; "7"; "8"; "9"]%char ->
  Ascii.eqb c "0" = false /\ Ascii.eqb c "-" = false /\
  Ascii.eqb c quote = false /\ Ascii.eqb c "t" = false /\
  Ascii.eqb c "f" = false /\ Ascii.eqb c "n" = false /\ is_ws c = false.
Proof.
  intros H. simpl in H.
  repeat (destruct H as [<- | H]; [repeat split|]). destruct H.
Qed.

Lemma scan_natural_string_of_uint (d : uint) (rest : string) :
  d <> Nil -> (forall d', d <> D0 d') ->
  scan_digits rest = (Nil, rest) ->
  scan_natural (NilEmpty.string_of_uint d ++ rest) = Some (d, rest).
Proof.
  intros Hnil Hzero Hrest.
  pose proof (scan_digits_string_of_uint d rest Hrest) as Hscan.
  destruct (string_of_uint_head d Hnil Hzero) as [c [r [Hs Hc]]].
  destruct (nonzero_digit_tests c Hc) as [H0 _].
  rewrite Hs in *. unfold scan_natural.
  change (String c r ++ rest)%string with (String c (r ++ rest)) in *.
  cbv iota beta. rewrite H0, Hscan. destruct d; congruence.
Qed.

Lemma parse_atom_dumps_int (z : Z) (rest : string) :
  fits_str_digits z = true -> ends_number rest ->
  parse_atom (dumps_int z ++ rest) = Some (AInt z, rest).
Proof.
  intros Hfit [Hrest Hfloat]. unfold dumps_int.
  destruct z as [|p|p]; simpl Z.to_int.
  - change (NilZero.string_of_int (Pos zero) ++ rest)%string with (String "0" rest).
    unfold parse_atom, parse_int, scan_natural.
    cbv iota beta. change (Ascii.eqb "0" quote) with false.
    change (Ascii.eqb "0" "t") with false. change (Ascii.eqb "0" "f") with false.
    change (Ascii.eqb "0" "n") with false. change (Ascii.eqb "0" "-") with false.
    cbv iota beta. change (Ascii.eqb "0" "0") with true. cbv iota beta.
    rewrite Hfloat. cbv zeta iota.
    change (Z.of_int (Pos (D0 Nil))) with 0. rewrite Hfit. reflexivity.
  - pose proof (DecimalPos.Unsigned.to_uint_nonnil p) as Hnil.
    pose proof (to_uint_no_leading_zero p) as Hzero.
    pose proof (DecimalZ.of_to (Z.pos p)) as Hof. simpl Z.to_int in Hof.
    pose proof (scan_natural_string_of_uint _ rest Hnil (fun d' => Hzero d') Hrest) as Hscan.
    destruct (string_of_uint_head _ Hnil (fun d' => Hzero d')) as [c [r [Hs Hc]]].
    destruct (nonzero_digit_tests c Hc) as [_ [Hm [Hq [Ht [Hf [Hn _]]]]]].
    assert (Hstr : NilZero.string_of_int (Pos (Pos.to_uint p)) =
                   NilEmpty.string_of_uint (Pos.to_uint p)).
    { unfold NilZero.string_of_int, NilZero.string_of_uint.
      destruct (Pos.to_uint p); congruence. }
    rewrite Hstr. unfold parse_atom, parse_int.
    rewrite Hs in *.
    change (String c r ++ rest)%string with (String c (r ++ rest)) in *.
    cbv iota beta. rewrite Hq, Ht, Hf, Hn, Hm. cbv iota beta.
    rewrite Hscan, Hfloat, Hof. cbv zeta. rewrite Hfit. reflexivity.
  - pose proof (DecimalPos.Unsigned.to_uint_nonnil p) as Hnil.
    pose proof (to_uint_no_leading_zero p) as Hzero.
    pose proof (DecimalZ.of_to (Z.neg p)) as Hof. simpl Z.to_int in Hof.
    pose proof (scan_natural_string_of_uint _ rest Hnil (fun d' => Hzero d') Hrest) as Hscan.
    assert (Hstr : NilZero.string_of_int (Neg (Pos.to_uint p)) =
                   String "-" (NilEmpty.string_of_uint (Pos.to_uint p))).
    { unfold NilZero.string_of_int, NilZero.string_of_uint.
      destruct (Pos.to_uint p); congruence. }
    rewrite Hstr. unfold parse_atom, parse_int.
    change (String "-" (NilEmpty.string_of_uint (Pos.to_uint p)) ++ rest)%string
      with (String "-" (NilEmpty.string_of_uint (Pos.to_uint p) ++ rest)).
    cbv iota beta.
    change (Ascii.eqb "-" quote) with false.
    change (Ascii.eqb "-" "t") with false.
    change (Ascii.eqb "-" "f") with false.
    change (Ascii.eqb "-" "n") with false.
    change (Ascii.eqb "-" "-") with true.
    cbv iota beta. rewrite Hscan, Hfloat, Hof. cbv zeta. rewrite Hfit. reflexivity.
Qed.

Lemma dumps_int_head (z : Z) (rest : string) :
  exists c r, (dumps_int z ++ rest)%string = String c r /\ is_ws c = false.
Proof.
  unfold dumps_int. destruct z as [|p|p]; simpl Z.to_int.
  - do 2 eexists. split; reflexivity.
  - pose proof (DecimalPos.Unsigned.to_uint_nonnil p) as Hnil.
    pose proof (to_uint_no_leading_zero p) as Hzero.
    destruct (string_of_uint_head _ Hnil (fun d' => Hzero d')) as [c [r [Hs Hc]]].
    destruct (nonzero_digit_tests c Hc) as [_ [_ [_ [_ [_ [_ Hw]]]]]].
    exists c, (r ++ rest)%string. split; [|exact Hw].
    unfold NilZero.string_of_int, NilZero.string_of_uint.
    destruct (Pos.to_uint p); try congruence; rewrite Hs; reflexivity.
  - do 2 eexists. split; reflexivity.
Qed.

Lemma parse_str_body_plain (k rest : string) :
  plain_string k = true ->
  parse_str_body (k ++ String quote rest) = Some (k, rest).
Proof.
  induction k as [|c k IH]; simpl.
  - intros _. reflexivity.
  - rewrite !andb_true_iff, !negb_true_iff. intros [[Hq He] Hk].
    rewrite Hq, He, (IH Hk). reflexivity.
Qed.

Lemma append_assoc (a b c : string) : ((a ++ b) ++ c = a ++ (b ++ c))%string.
Proof. induction a as [|x a IH]; simpl; [reflexivity | rewrite IH; reflexivity]. Qed.

Lemma parse_str_dumps_str (k rest : string) :
  plain_string k = true ->
  parse_str (dumps_str k ++ rest) = Some (k, rest).
Proof.
  intros Hk. unfold dumps_str, parse_str.
  change (String quote (k ++ String quote EmptyString) ++ rest)%string
    with (String quote ((k ++ String quote EmptyString) ++ rest)).
  change (Ascii.eqb quote quote) with true. cbv iota.
  rewrite append_assoc. apply (parse_str_body_plain k rest Hk).
Qed.

(** Decoding what [json.dumps] wrote for a one-entry dictionary with an
    integer value. *)
Lemma loads_dumps_entry (k : string) (z : Z) :
  plain_string k = true -> fits_str_digits z = true ->
  json_loads (json_text (Dict [(k, AInt z)])) = Loaded (Dict [(k, AInt z)]).
Proof.
  intros Hk Hfit.
  assert (Hend : ends_number "}") by (split; reflexivity).
  unfold json_text, dumps_members, dumps_atom, json_loads.
  change ("{" ++ (dumps_str k ++ ": " ++ dumps_int z) ++ "}")%string
    with (String "{" ((dumps_str k ++ ": " ++ dumps_int z) ++ "}")).
  change (skip_ws (String "{" ((dumps_str k ++ ": " ++ dumps_int z) ++ "}")))
    with (String "{" ((dumps_str k ++ ": " ++ dumps_int z) ++ "}")).
  change (negb (starts_value "{")) with false.
  change (Ascii.eqb "{" "{") with true. cbv iota.
  rewrite !append_assoc.
  assert (Hobj : parse_object (dumps_str k ++ ": " ++ dumps_int z ++ "}") =
                 Some ([(k, AInt z)], EmptyString)).
  { assert (Hmem : parse_member (dumps_str k ++ ": " ++ dumps_int z ++ "}") =
                   Some ((k, AInt z), "}"%string)).
    { unfold parse_member.
      change (skip_ws (dumps_str k ++ ": " ++ dumps_int z ++ "}"))
        with (dumps_str k ++ ": " ++ dumps_int z ++ "}")%string.
      rewrite (parse_str_dumps_str k _ Hk).
      change (": " ++ dumps_int z ++ "}")%string
        with (String ":" (String " " (dumps_int z ++ "}"))).
      change (skip_ws (String ":" (String " " (dumps_int z ++ "}"))))
        with (String ":" (String " " (dumps_int z ++ "}"))).
      change (Ascii.eqb ":" ":") with true. cbv iota.
      destruct (dumps_int_head z "}") as [c [r [Hs Hw]]].
      assert (Hskip : skip_ws (String " " (dumps_int z ++ "}")) =
                      (dumps_int z ++ "}")%string).
      { change (skip_ws (String " " (dumps_int z ++ "}")))
          with (skip_ws (dumps_int z ++ "}")).
        rewrite Hs. simpl. rewrite Hw. reflexivity. }
      rewrite Hskip, (parse_atom_dumps_int z _ Hfit Hend). reflexivity. }
    unfold parse_object.
    change (skip_ws (dumps_str k ++ ": " ++ dumps_int z ++ "}"))
      with (dumps_str k ++ ": " ++ dumps_int z ++ "}")%string.
    unfold dumps_str at 1.
    change (String quote (k ++ String quote EmptyString) ++ ": " ++ dumps_int z ++ "}")%string
      with (String quote ((k ++ String quote EmptyString) ++ ": " ++ dumps_int z ++ "}")).
    change (Ascii.eqb quote "}") with false. cbv iota.
    change (String quote ((k ++ String quote EmptyString) ++ ": " ++ dumps_int z ++ "}"))
      with (dumps_str k ++ ": " ++ dumps_int z ++ "}")%string.
    rewrite Hmem. reflexivity. }
  rewrite Hobj. reflexivity.
Qed.

(** The file written for a high score of at most [int_max_str_digits]
    digits loads as that high score. *)
Lemma load_high_score_text (n : Z) (e : Env) :
  fits_str_digits n = true -> disk e = Some (high_score_text n) ->
  _load_high_score e = Some (AInt n).
Proof.
  intros Hfit Hd. unfold _load_high_score. rewrite Hd. unfold high_score_text.
  rewrite (loads_dumps_entry "high_score" n eq_refl Hfit). reflexivity.
Qed.

Lemma load_after_save (g : SnakeGame) :
  fits_str_digits (high_score g) = true -> disk_writable (env g) = true ->
  _load_high_score (env (_save_high_score g)) = Some (AInt (high_score g)).
Proof.
  intros Hfit Hw. apply (load_high_score_text _ _ Hfit).
  rewrite save_high_score_cases, Hfit. unfold write_text. simpl.
  rewrite Hw. reflexivity.
Qed.

(** A high score of more digits is not written: the file stays as it is. *)
Lemma save_too_long (g : SnakeGame) :
  fits_str_digits (high_score g) = false -> _save_high_score g = g.
Proof. intros Hfit. rewrite save_high_score_cases, Hfit. reflexivity. Qed.

(** The constructor, run on a file that loads as the integer [n], returns
    a game with the high score [n]. *)
Lemma init_after_load (w h c n : Z) (e : Env) :
  c <> 0 -> 0 <= w <= 16384 -> 0 <= h <= 16384 ->
  _load_high_score e = Some (AInt n) ->
  exists g', SnakeGame_init w h c e = Ok g' /\ high_score g' = n.
Proof.
  intros Hc Hw Hh Hl. rewrite (init_run w h c n e Hc Hw Hh Hl).
  match goal with
  | |- context [_reset_game ?X] =>
      destruct (reset_game_total X) as [g' Hr];
      destruct (reset_game_high_score X g' Hr) as [Hhs _]
  end.
  exists g'. split; [exact Hr | exact Hhs].
Qed.

(** C9, with the bound it needs.  When the file can be written, saving a
    high score N with 0 <= N < 10 ^ 4300 (at most 4300 decimal digits) puts
    the text of N into the file, loading it again gives N, and the game that
    [main] constructs afterwards, [SnakeGame(800, 600, 20)], starts with the
    high score N. *)
Theorem save_load_round_trip (N : Z) (g : SnakeGame) :
  0 <= N < 10 ^ 4300 ->
  disk_writable (env g) = true ->
  let e := env (_save_high_score (set_high_score N g)) in
  disk e = Some (high_score_text N) /\
  _load_high_score e = Some (AInt N) /\
  exists g', SnakeGame_init 800 600 20 e = Ok g' /\ high_score g' = N.
Proof.
  intros HN Hw e.
  assert (Hfit : fits_str_digits N = true).
  { unfold fits_str_digits. apply Z.ltb_lt.
    rewrite Z.abs_eq by exact (proj1 HN). exact (proj2 HN). }
  assert (Hdisk : disk e = Some (high_score_text N)).
  { unfold e. rewrite save_high_score_cases.
    change (high_score (set_high_score N g)) with N. rewrite Hfit.
    unfold write_text. simpl. rewrite Hw. reflexivity. }
  assert (Hload : _load_high_score e = Some (AInt N))
    by (apply (load_high_score_text N e Hfit Hdisk)).
  split; [exact Hdisk|]. split; [exact Hload|].
  apply (init_after_load 800 600 20 N e); [discriminate | lia | lia | exact Hload].
Qed.

Lemma save_load_round_trip_witness :
  0 <= 120 < 10 ^ 4300 /\
  disk_writable (env game_scored) = true /\
  disk (env (_save_high_score (set_high_score 120 game_scored))) =
    Some (high_score_text 120) /\
  _load_high_score (env (_save_high_score (set_high_score 120 game_scored))) =
    Some (AInt 120) /\
  exists g',
    SnakeGame_init 800 600 20
      (env (_save_high_score (set_high_score 120 game_scored))) = Ok g' /\
    high_score g' = 120.
Proof.
  assert (HN : 0 <= 120 < 10 ^ 4300)
    by (split; [discriminate | vm_compute; reflexivity]).
  split; [exact HN|]. split; [reflexivity|].
  exact (save_load_round_trip 120 game_scored HN eq_refl).
Defined.

(** C9 as the specification words it, for every non-negative N, fails at
    N = 10 ^ 4300, the least integer of 4301 digits: [json.dumps] raises
    [ValueError], [_save_high_score] swallows it and writes nothing, and the
    load that follows gives what was there before (no file: 0), not N. *)
Lemma long_high_score_is_not_saved :
  0 <= 10 ^ 4300 /\
  disk_writable (env game_scored) = true /\
  json_dumps (Dict [("high_score"%string, AInt (10 ^ 4300))]) = Raise ValueError /\
  _save_high_score (set_high_score (10 ^ 4300) game_scored) =
    set_high_score (10 ^ 4300) game_scored /\
  disk (env (_save_high_score (set_high_score (10 ^ 4300) game_scored))) = None /\
  _load_high_score (env (_save_high_score (set_high_score (10 ^ 4300) game_scored))) =
    Some (AInt 0) /\
  Some (AInt 0) <> Some (AInt (10 ^ 4300)).
Proof.
  assert (Hfit : fits_str_digits (10 ^ 4300) = false) by (vm_compute; reflexivity).
  assert (Hsave : _save_high_score (set_high_score (10 ^ 4300) game_scored) =
                  set_high_score (10 ^ 4300) game_scored)
    by (apply save_too_long; exact Hfit).
  assert (Hpos : 0 < 10 ^ 4300) by (apply Z.pow_pos_nonneg; [reflexivity | discriminate]).
  split; [apply Z.lt_le_incl; exact Hpos|].
  split; [reflexivity|].
  split; [rewrite json_dumps_high_score, Hfit; reflexivity|].
  split; [exact Hsave|].
  rewrite Hsave.
  split; [reflexivity|]. split; [reflexivity|].
  intros E.
  assert (E' : 0 = 10 ^ 4300)
    by (exact (f_equal (fun o => match o with Some (AInt z) => z | _ => 0 end) E)).
  rewrite <- E' in Hpos. exact (Z.lt_irrefl 0 Hpos).
Qed.

(** ** The scenarios of the specification *)

(** A snake of length 3 moving right into the normal food: length 4, score
    10, and new food on another cell. *)
Example scenario_eat_normal_food :
  exists g',
    update game1 = Ok g' /\
    List.length (snake game1) = 3%nat /\ List.length (snake g') = 4%nat /\
    score g' = score game1 + 10 /\
    food_pos game1 = Some (21, 15) /\ food_pos g' = Some (0, 0).
Proof.
  eexists. split; [vm_compute; reflexivity|]. repeat split.
Qed.

(** The head moving to (-1, y) or to (grid_width, y) ends the game. *)
Example scenario_wall :
  next_cell game_left_edge = Ok (-1, 7) /\
  (exists g', _move_snake game_left_edge = Ok g' /\ state g' = GAME_OVER) /\
  next_cell game_right_edge = Ok (40, 7) /\
  (exists g', _move_snake game_right_edge = Ok g' /\ state g' = GAME_OVER).
Proof.
  split; [reflexivity|].
  split; [eexists; split; [vm_compute; reflexivity | reflexivity]|].
  split; [reflexivity|].
  eexists; split; [vm_compute; reflexivity | reflexivity].
Qed.

(** The countdown of the special food reaching zero: the position becomes
    absent and the score stays. *)
Example scenario_special_food_expires :
  special_food_timer game_last_frame = 1 /\
  special_food_pos (_draw_food game_last_frame) = None /\
  special_food_timer (_draw_food game_last_frame) = 0 /\
  score (_draw_food game_last_frame) = score game_last_frame.
Proof. vm_compute. repeat split. Qed.


(** * The invariants of a run, and further properties of the code *)

(** ** Lists of cells *)

Lemma deque_last_split {A} (dq : list A) (x : A) :
  deque_last dq = Ok x -> exists l, dq = l ++ [x].
Proof.
  induction dq as [|y dq IH]; [discriminate|].
  destruct dq as [|z dq].
  - simpl. intros H; inversion H. exists []. reflexivity.
  - intros H. destruct (IH H) as [l Hl]. exists (y :: l). rewrite Hl. reflexivity.
Qed.

Lemma two_last {A} (l0 l : list A) (h c neck hd : A) :
  (l0 ++ [h]) ++ [c] = l ++ [neck; hd] -> neck = h /\ hd = c.
Proof.
  change (l ++ [neck; hd]) with (l ++ [neck] ++ [hd]). rewrite app_assoc.
  intros H. apply app_inj_tail in H. destruct H as [H ->].
  apply app_inj_tail in H. destruct H as [_ ->]. split; reflexivity.
Qed.

Lemma chain_tl (l : list cell) : chain l -> chain (tl l).
Proof.
  destruct l as [|a [|b r]]; simpl; try tauto.
Qed.

Lemma chain_snoc (l : list cell) (h c : cell) :
  chain (l ++ [h]) -> adjacent h c -> chain ((l ++ [h]) ++ [c]).
Proof.
  induction l as [|a l IH]; intros Hc Ha.
  - simpl. split; [exact Ha | exact I].
  - destruct l as [|b l].
    + simpl in *. tauto.
    + change (chain ((a :: (b :: l) ++ [h]) ++ [c]))
        with (adjacent a b /\ chain (((b :: l) ++ [h]) ++ [c])).
      change (chain ((a :: b :: l) ++ [h]))
        with (adjacent a b /\ chain ((b :: l) ++ [h])) in Hc.
      destruct Hc as [Hab Hc]. split; [exact Hab | apply IH; assumption].
Qed.

Lemma NoDup_snoc {A} (l : list A) (x : A) :
  NoDup l -> ~ In x l -> NoDup (l ++ [x]).
Proof.
  induction l as [|a l IH]; intros Hn Hx; simpl.
  - constructor; [intros [] | constructor].
  - inversion Hn; subst. constructor.
    + rewrite in_app_iff. simpl. intros [H | [H | []]]; [contradiction|].
      apply Hx. left. symmetry. exact H.
    + apply IH; [assumption|]. intros H. apply Hx. right. exact H.
Qed.

Lemma NoDup_tl {A} (l : list A) : NoDup l -> NoDup (tl l).
Proof. destruct l; simpl; [auto|]. intros H; inversion H; assumption. Qed.

Lemma In_tl {A} (l : list A) (x : A) : In x (tl l) -> In x l.
Proof. destruct l; simpl; auto. Qed.

Lemma Forall_tl {A} (P : A -> Prop) (l : list A) : Forall P l -> Forall P (tl l).
Proof. destruct l; simpl; [auto|]. intros H; inversion H; assumption. Qed.

Lemma Forall_snoc {A} (P : A -> Prop) (l : list A) (x : A) :
  Forall P l -> P x -> Forall P (l ++ [x]).
Proof. intros Hl Hx. apply Forall_app. split; [exact Hl | constructor; [exact Hx | constructor]]. Qed.

Lemma collides_false (g : SnakeGame) (c : cell) :
  collides g c = false -> in_grid g c /\ ~ In c (snake g).
Proof.
  unfold collides, wall_collision, in_grid. rewrite orb_false_iff, negb_false_iff.
  rewrite !andb_true_iff, !Z.leb_le, !Z.ltb_lt. intros [H Hn].
  split; [lia | apply cell_in_false; exact Hn].
Qed.

Lemma pos_eqb_false (c : cell) (p : option cell) :
  pos_eqb c p = false -> p <> Some c.
Proof.
  intros H E. apply pos_eqb_eq in E. congruence.
Qed.

(** ** The outcome of a move and of a reset, field by field *)

Lemma move_snake_outcome (g g' : SnakeGame) (c : cell) :
  next_cell g = Ok c -> growing g = false -> _move_snake g = Ok g' ->
  (collides g c = true /\
   g' = _game_over (set_direction (next_direction g) g))
  \/
  (collides g c = false /\ pos_eqb c (food_pos g) = false /\
   pos_eqb c (special_food_pos g) = false /\
   g' = mkGame (cfg g) (env g) (fps g) (state g) (score g) (high_score g)
          (tl (snake g ++ [c])) (next_direction g) (next_direction g)
          false (food_pos g) (special_food_pos g) (special_food_timer g)
          (particles g))
  \/
  (collides g c = false /\ pos_eqb c (food_pos g) = false /\
   pos_eqb c (special_food_pos g) = true /\
   g' = mkGame (cfg g) (set_rng (skipn 60 (rng (env g))) (env g))
          (fps g) (state g) (score g + 50) (high_score g)
          (snake g ++ [c]) (next_direction g) (next_direction g)
          false (food_pos g) None 0
          (particles g ++ repeat (mkParticle 30 true) 20))
  \/
  (collides g c = false /\ pos_eqb c (food_pos g) = true /\
   exists food sp t,
     g' = mkGame (cfg g)
            (mkEnv t (disk (env g)) (disk_writable (env g))
                   (disk_writes (env g)) (screen (env g)))
            (fps g) (state g) (score g + 10) (high_score g)
            (snake g ++ [c]) (next_direction g) (next_direction g)
            false food sp (if truthy sp then 150 else 0)
            (particles g ++
               repeat (mkParticle 30 (pos_eqb c (special_food_pos g)))
                      (if pos_eqb c (special_food_pos g) then 20 else 10)%nat) /\
     (forall x, food = Some x -> in_grid g x /\ ~ In x (snake g ++ [c])) /\
     (forall x, sp = Some x -> in_grid g x /\ ~ In x (snake g ++ [c]))).
Proof.
  intros Hc Hg Hm.
  destruct (move_snake_cases g c Hc Hg)
    as [[Hcol H] | [[Hcol [Hf [Hs H]]] | [[Hcol [Hf [Hs H]]] | [Hcol [Hf _]]]]].
  - left. split; [exact Hcol | congruence].
  - right; left. repeat split; try assumption. congruence.
  - right; right; left. repeat split; try assumption. congruence.
  - right; right; right. split; [exact Hcol|]. split; [exact Hf|].
    apply next_cell_Ok in Hc. destruct Hc as [head [Hh ->]].
    destruct (move_snake_food g head Hh Hcol Hf) as [gs [Hsp Hmv]].
    match type of Hsp with
    | _spawn_food ?X = _ =>
        destruct (spawn_food_spec X) as [food [sp [t [E [Hfood [Hspec _]]]]]];
        pose proof (valid_positions_In X) as Hv
    end.
    rewrite E in Hsp. inversion Hsp; subst gs; clear Hsp.
    rewrite Hmv in Hm. inversion Hm; subst g'; clear Hm.
    exists food, sp, t. split; [reflexivity|].
    split; intros x Hx.
    + apply Hfood in Hx. apply Hv in Hx. exact Hx.
    + apply Hspec in Hx. apply Hv in Hx. exact Hx.
Qed.

Lemma reset_game_outcome (g g' : SnakeGame) :
  _reset_game g = Ok g' ->
  exists food sp t,
    g' = mkGame (cfg g)
           (mkEnv t (disk (env g)) (disk_writable (env g))
                  (disk_writes (env g)) (screen (env g)))
           (fps g) (state g) 0 (high_score g)
           [(grid_width (cfg g) / 2 - 2, grid_height (cfg g) / 2);
            (grid_width (cfg g) / 2 - 1, grid_height (cfg g) / 2);
            (grid_width (cfg g) / 2, grid_height (cfg g) / 2)]
           RIGHT RIGHT false food sp (if truthy sp then 150 else 0) [] /\
    (forall x, food = Some x -> in_grid g x /\ ~ In x (snake g')) /\
    (forall x, sp = Some x -> in_grid g x /\ ~ In x (snake g')).
Proof.
  unfold _reset_game.
  match goal with
  | |- context [_spawn_food ?X] =>
      destruct (spawn_food_spec X) as [food [sp [t [E [Hfood [Hspec _]]]]]];
      pose proof (valid_positions_In X) as Hv; rewrite E
  end.
  simpl. intros H; inversion H; subst g'; clear H.
  exists food, sp, t. split; [reflexivity|].
  split; intros x Hx.
  - apply Hfood in Hx. apply Hv in Hx. exact Hx.
  - apply Hspec in Hx. apply Hv in Hx. exact Hx.
Qed.

(** ** The invariant is kept by every step of the main loop *)

(** [play_inv_at] looks at the snake, the score, the speed, the food, the
    particles and the board only; the direction matters while the game is
    not over, the high score once it is. *)
Lemma play_inv_transfer (b : Z) (g g1 : SnakeGame) :
  play_inv_at b g ->
  cfg g1 = cfg g -> snake g1 = snake g -> score g1 = score g ->
  fps g1 = fps g -> food_pos g1 = food_pos g ->
  special_food_pos g1 = special_food_pos g ->
  special_food_timer g1 = special_food_timer g ->
  particles g1 = particles g ->
  (state g1 <> GAME_OVER -> state g <> GAME_OVER /\ direction g1 = direction g) ->
  (state g1 = GAME_OVER -> score g1 <= high_score g1) ->
  play_inv_at b g1.
Proof.
  intros [I1 I2 I3 I4 I5 I6 I7 I8 I9 I10 I11 I12 I13] E1 E2 E3 E4 E5 E6 E7 E8 Hd Ho.
  constructor; try exact Ho; unfold heads_along, in_grid in *;
    rewrite ?E1, ?E2, ?E3, ?E4, ?E5, ?E6, ?E7, ?E8; try assumption.
  intros Hst l neck head Hs. destruct (Hd Hst) as [Hst0 ->].
  apply (I3 Hst0 l neck head Hs).
Qed.

Lemma play_inv_set_state (b : Z) (s : GameState) (g : SnakeGame) :
  play_inv_at b g -> state g <> GAME_OVER -> s <> GAME_OVER ->
  play_inv_at b (set_state s g).
Proof.
  intros Hi Hg Hs. apply (play_inv_transfer b g); try reflexivity; try assumption.
  - intros _. split; [exact Hg | reflexivity].
  - simpl. intros E. congruence.
Qed.

Lemma play_inv_handle_input (b : Z) (k : key) (g : SnakeGame) :
  play_inv_at b g -> play_inv_at b (_handle_input k g).
Proof.
  intros Hi. unfold _handle_input. destruct (key_mapping k) as [d|]; [|exact Hi].
  destruct (negb (Direction_eqb d (direction_opposites (direction g)))); [|exact Hi].
  apply (play_inv_transfer b g); try reflexivity; try assumption.
  - simpl. intros H. split; [exact H | reflexivity].
  - simpl. apply (pi_over b g Hi).
Qed.

Lemma play_inv_reset (g g' : SnakeGame) (s : GameState) :
  10 <= fps g <= 20 -> s <> GAME_OVER ->
  _reset_game g = Ok g' -> play_inv (set_state s g').
Proof.
  intros Hfps Hs Hr.
  destruct (reset_game_outcome g g' Hr) as [food [sp [t [-> [Hfood Hspec]]]]].
  simpl in Hfood, Hspec.
  constructor; simpl.
  - repeat constructor; simpl; intros H;
      repeat (destruct H as [H | H]; [inversion H; lia|]); exact H.
  - split; [exists RIGHT; unfold step_cell; simpl; f_equal; lia|].
    split; [exists RIGHT; unfold step_cell; simpl; f_equal; lia | exact I].
  - intros _ l neck head H.
    destruct (two_last [(grid_width (cfg g) / 2 - 2, grid_height (cfg g) / 2)]
                l _ _ neck head H) as [-> ->].
    unfold step_cell. simpl. f_equal; lia.
  - lia.
  - lia.
  - reflexivity.
  - exact Hfps.
  - destruct sp; simpl; lia.
  - exact Hfood.
  - exact Hspec.
  - constructor.
  - congruence.
  - intros Hw Hh. unfold in_grid. simpl.
    repeat constructor; simpl; Z.div_mod_to_equations; lia.
Qed.

Lemma play_inv_handle_event (ev : event) (r r' : bool) (g g' : SnakeGame) :
  play_inv g -> handle_event ev (r, g) = Ok (r', g') -> play_inv g'.
Proof.
  intros Hi. unfold handle_event.
  destruct ev as [|k|]; try (intros H; inversion H; subst; exact Hi).
  destruct (key_eqb k K_ESCAPE); [intros H; inversion H; subst; exact Hi|].
  assert (Hreset :
            (g0 <- _reset_game g ;; Ok (r, set_state PLAYING g0)) = Ok (r', g') ->
            play_inv g').
  { destruct (_reset_game g) as [g1|e] eqn:Hr; simpl; [|discriminate].
    intros H; inversion H; subst.
    apply (play_inv_reset g g1 PLAYING (pi_fps _ _ Hi)); [discriminate | exact Hr]. }
  destruct (state g) eqn:Hst.
  - destruct (key_eqb k K_SPACE); [exact Hreset|].
    intros H; inversion H; subst; exact Hi.
  - destruct (key_eqb k K_p); intros H; inversion H; subst.
    + apply play_inv_set_state; [exact Hi | congruence | discriminate].
    + apply play_inv_handle_input; exact Hi.
  - destruct (key_eqb k K_p); intros H; inversion H; subst.
    + apply play_inv_set_state; [exact Hi | congruence | discriminate].
    + exact Hi.
  - destruct (key_eqb k K_SPACE); [exact Hreset|].
    intros H; inversion H; subst; exact Hi.
Qed.

#[local] Arguments Z.mul : simpl never.
#[local] Arguments Z.modulo : simpl never.
#[local] Arguments Z.div : simpl never.
#[local] Arguments Z.of_nat : simpl never.

Lemma length_snoc_Z {A} (l : list A) (x : A) :
  Z.of_nat (List.length (l ++ [x])) = Z.of_nat (List.length l) + 1.
Proof. rewrite length_snoc. lia. Qed.

Lemma Forall_life_weaken (b b' : Z) (ps : list particle) :
  b <= b' -> Forall (fun p => 0 <= life p <= b) ps ->
  Forall (fun p => 0 <= life p <= b') ps.
Proof.
  intros Hb H. eapply Forall_impl; [|exact H]. simpl. intros p Hp. lia.
Qed.

Lemma Forall_life_repeat (s : bool) (n : nat) :
  Forall (fun p => 0 <= life p <= 30) (repeat (mkParticle 30 s) n).
Proof.
  induction n as [|n IH]; [constructor|].
  change (repeat (mkParticle 30 s) (S n))
    with (mkParticle 30 s :: repeat (mkParticle 30 s) n).
  constructor; [simpl; lia | exact IH].
Qed.

Lemma play_inv_move (g g1 : SnakeGame) :
  play_inv g -> game_inv g -> state g = PLAYING ->
  _move_snake g = Ok g1 -> play_inv_at 30 g1.
Proof.
  intros Hi [Hg [Hne _]] Hst Hm.
  destruct (next_cell_total g Hne) as [c Hc].
  destruct (next_cell_Ok g c Hc) as [head [Hh Hstep]].
  destruct (deque_last_split _ _ Hh) as [l0 Hl0].
  assert (Hadj : adjacent head c) by (exists (next_direction g); exact Hstep).
  destruct Hi as [I1 I2 I3 I4 I5 I6 I7 I8 I9 I10 I11 I12 I13].
  assert (Hp30 : Forall (fun p => 0 <= life p <= 30) (particles g))
    by (apply (Forall_life_weaken 29 30); [lia | exact I11]).
  destruct (move_snake_outcome g g1 c Hc Hg Hm)
    as [[Hcol ->] | [[Hcol [Hf [Hs ->]]] | [[Hcol [Hf [Hs ->]]] |
        [Hcol [Hf [food [sp [t [-> [Hfood Hspec]]]]]]]]]].
  - destruct (game_over_fields (set_direction (next_direction g) g))
      as [E0 [E1 [E2 [E3 [E4 [_ [_ [_ [E5 [E6 [E7 E8]]]]]]]]]]].
    destruct (game_over_spec (set_direction (next_direction g) g))
      as [_ [G2 [G3 _]]].
    simpl in *.
    apply (play_inv_transfer 30 g); try assumption.
    + constructor; assumption.
    + intros H. congruence.
    + intros _. rewrite E3.
      destruct (Z_gt_le_dec (score g) (high_score g)) as [H | H].
      * destruct (G2 H) as [-> _]. lia.
      * destruct (G3 H) as [-> _]. exact H.
  - apply collides_false in Hcol. destruct Hcol as [Hin Hnot].
    apply pos_eqb_false in Hf. apply pos_eqb_false in Hs.
    assert (Hnd : NoDup (snake g ++ [c])) by (apply NoDup_snoc; assumption).
    constructor; simpl; try assumption.
    + apply NoDup_tl. exact Hnd.
    + apply chain_tl. rewrite Hl0. apply chain_snoc; [rewrite <- Hl0; exact I2 | exact Hadj].
    + intros _ l neck hd Hsn. rewrite Hl0 in Hsn.
      destruct l0 as [|a l1]; [rewrite Hl0 in I4; simpl in I4; lia|].
      simpl in Hsn.
      destruct (two_last l1 l head c neck hd Hsn) as [-> ->]. exact Hstep.
    + rewrite length_tl_snoc. exact I4.
    + rewrite length_tl_snoc. exact I5.
    + intros x Hx. destruct (I9 x Hx) as [Hg1 Hn1]. split; [exact Hg1|].
      intros Hi. apply In_tl in Hi. apply in_app_iff in Hi.
      destruct Hi as [Hi | [Hi | []]]; [contradiction | congruence].
    + intros x Hx. destruct (I10 x Hx) as [Hg1 Hn1]. split; [exact Hg1|].
      intros Hi. apply In_tl in Hi. apply in_app_iff in Hi.
      destruct Hi as [Hi | [Hi | []]]; [contradiction | congruence].
    + intros Hw Hh0. apply Forall_tl. apply Forall_snoc; [apply I13; assumption | exact Hin].
  - apply collides_false in Hcol. destruct Hcol as [Hin Hnot].
    apply pos_eqb_false in Hf.
    constructor; simpl; try assumption.
    + apply NoDup_snoc; assumption.
    + rewrite Hl0. apply chain_snoc; [rewrite <- Hl0; exact I2 | exact Hadj].
    + intros _ l neck hd Hsn. rewrite Hl0 in Hsn.
      destruct (two_last l0 l head c neck hd Hsn) as [-> ->]. exact Hstep.
    + rewrite length_snoc. lia.
    + rewrite length_snoc_Z. lia.
    + rewrite <- Z.add_mod_idemp_l by lia. rewrite I6. reflexivity.
    + reflexivity.
    + intros x Hx. destruct (I9 x Hx) as [Hg1 Hn1]. split; [exact Hg1|].
      intros Hi. apply in_app_iff in Hi.
      destruct Hi as [Hi | [Hi | []]]; [contradiction | congruence].
    + discriminate.
    + apply Forall_app. split; [exact Hp30 | apply Forall_life_repeat].
    + intros E; congruence.
    + intros Hw Hh0. apply Forall_snoc; [apply I13; assumption | exact Hin].
  - apply collides_false in Hcol. destruct Hcol as [Hin Hnot].
    constructor; simpl; try assumption.
    + apply NoDup_snoc; assumption.
    + rewrite Hl0. apply chain_snoc; [rewrite <- Hl0; exact I2 | exact Hadj].
    + intros _ l neck hd Hsn. rewrite Hl0 in Hsn.
      destruct (two_last l0 l head c neck hd Hsn) as [-> ->]. exact Hstep.
    + rewrite length_snoc. lia.
    + rewrite length_snoc_Z. lia.
    + rewrite <- Z.add_mod_idemp_l by lia. rewrite I6. reflexivity.
    + destruct sp; simpl; lia.
    + apply Forall_app. split; [exact Hp30 | apply Forall_life_repeat].
    + intros E; congruence.
    + intros Hw Hh0. apply Forall_snoc; [apply I13; assumption | exact Hin].
Qed.

#[local] Arguments Z.add : simpl never.
#[local] Arguments Z.sub : simpl never.
#[local] Arguments Z.min : simpl never.

Lemma play_inv_update (g g' : SnakeGame) :
  play_inv g -> game_inv g -> update g = Ok g' -> play_inv g'.
Proof.
  intros Hi Hgi. unfold update.
  destruct (state g) eqn:Hst; try (intros H; inversion H; subst; exact Hi).
  destruct (_move_snake g) as [g1|e] eqn:Hm; simpl; [|discriminate].
  intros H; inversion H; subst; clear H.
  destruct (play_inv_move g g1 Hi Hgi Hst Hm)
    as [I1 I2 I3 I4 I5 I6 I7 I8 I9 I10 I11 I12 I13].
  constructor; simpl; try assumption.
  - assert (Hs : 0 <= score g1) by lia.
    assert (Hd : 0 <= score g1 / 50) by (apply Z.div_pos; lia).
    lia.
  - apply Forall_forall. intros p Hp.
    apply in_map_iff in Hp. destruct Hp as [q [<- Hq]].
    apply filter_In in Hq. destruct Hq as [Hq Hlife].
    rewrite Forall_forall in I11. specialize (I11 q Hq).
    apply Z.gtb_lt in Hlife. simpl. lia.
Qed.

Lemma special_only_fields (g g' : SnakeGame) :
  special_only g g' ->
  cfg g' = cfg g /\ fps g' = fps g /\ particles g' = particles g /\
  growing g' = growing g.
Proof. unfold special_only. intros ->. simpl. repeat split. Qed.

(** The redraw of a game that is played or paused draws the food once. *)
Lemma render_draws_food (g g' : SnakeGame) :
  render g = Ok g' -> state g = PLAYING \/ state g = PAUSED ->
  exists gd, display_only g gd /\ display_only (_draw_food gd) g'.
Proof.
  unfold render. intros H Hst.
  assert (Hs : state (fill_screen g) = state g) by reflexivity.
  rewrite Hs in H.
  destruct (_draw_grid (fill_screen g)) as [gd|e] eqn:Hg;
    [|destruct Hst as [E | E]; rewrite E in H; discriminate].
  exists gd. split.
  - eapply display_only_trans;
      [apply fill_display_only | apply draw_grid_display_only; exact Hg].
  - destruct Hst as [E | E]; rewrite E in H; simpl in H; inversion H; subst.
    + eapply display_only_trans; [apply draw_snake_display_only|].
      eapply display_only_trans; [apply draw_particles_display_only|].
      eapply display_only_trans; [apply draw_ui_display_only | apply draw_display_only].
    + eapply display_only_trans; [apply draw_snake_display_only|].
      eapply display_only_trans; [apply draw_ui_display_only|].
      eapply display_only_trans; [apply draw_pause_display_only | apply draw_display_only].
Qed.

(** What a redraw does to the special food. *)
Lemma render_special_food (g g' : SnakeGame) :
  render g = Ok g' ->
  (special_food_pos g' = special_food_pos g /\
   special_food_timer g' = special_food_timer g)
  \/
  (exists c,
     special_food_pos g = Some c /\ special_food_timer g > 0 /\
     (state g = PLAYING \/ state g = PAUSED) /\
     special_food_timer g' = special_food_timer g - 1 /\
     special_food_pos g' =
       (if special_food_timer g - 1 =? 0 then None else Some c)).
Proof.
  intros H. destruct (state g) eqn:Hst.
  - left. apply (display_only_same _ _ (render_display_only _ _ H (or_introl Hst))).
  - destruct (render_draws_food g g' H (or_introl Hst)) as [gd [Hd Hd']].
    destruct (display_only_same _ _ Hd) as [_ [S1 S2]].
    destruct (display_only_same _ _ Hd') as [_ [T1 T2]].
    destruct (draw_food_spec gd) as [_ Hpair].
    rewrite S1, S2 in Hpair. rewrite T1, T2.
    destruct (special_food_pos g) as [c|] eqn:Hsp.
    + destruct (special_food_timer g >? 0) eqn:Ht; injection Hpair as P1 P2.
      * right. exists c. apply Z.gtb_lt in Ht. rewrite P1, P2.
        repeat split; auto; lia.
      * left. rewrite P1, P2. split; reflexivity.
    + injection Hpair as P1 P2. left. rewrite P1, P2. split; reflexivity.
  - destruct (render_draws_food g g' H (or_intror Hst)) as [gd [Hd Hd']].
    destruct (display_only_same _ _ Hd) as [_ [S1 S2]].
    destruct (display_only_same _ _ Hd') as [_ [T1 T2]].
    destruct (draw_food_spec gd) as [_ Hpair].
    rewrite S1, S2 in Hpair. rewrite T1, T2.
    destruct (special_food_pos g) as [c|] eqn:Hsp.
    + destruct (special_food_timer g >? 0) eqn:Ht; injection Hpair as P1 P2.
      * right. exists c. apply Z.gtb_lt in Ht. rewrite P1, P2.
        repeat split; auto; lia.
      * left. rewrite P1, P2. split; reflexivity.
    + injection Hpair as P1 P2. left. rewrite P1, P2. split; reflexivity.
  - left. apply (display_only_same _ _ (render_display_only _ _ H (or_intror Hst))).
Qed.

Lemma play_inv_render (g g' : SnakeGame) :
  play_inv g -> render g = Ok g' -> play_inv g'.
Proof.
  intros Hi Hr.
  pose proof (render_special_only _ _ Hr) as Hso.
  destruct (special_only_same_play _ _ Hso) as [E1 [E2 [_ [E3 [E4 [E5 E6]]]]]].
  destruct (special_only_fields _ _ Hso) as [F1 [F2 [F3 _]]].
  destruct Hi as [I1 I2 I3 I4 I5 I6 I7 I8 I9 I10 I11 I12 I13].
  constructor; unfold heads_along, in_grid in *;
    rewrite ?E1, ?E2, ?E3, ?E4, ?E5, ?E6, ?F1, ?F2, ?F3; try assumption.
  - destruct (render_special_food _ _ Hr) as [[-> ->] | [c [Hsp [Ht [_ [-> ->]]]]]];
      [exact I8|].
    rewrite Hsp in I8.
    destruct (special_food_timer g - 1 =? 0) eqn:Hz.
    + apply Z.eqb_eq in Hz. exact Hz.
    + apply Z.eqb_neq in Hz. lia.
  - intros x Hx.
    destruct (render_special_food _ _ Hr) as [[P _] | [c [Hsp [_ [_ [_ P]]]]]].
    + rewrite P in Hx. apply (I10 x Hx).
    + rewrite P in Hx. destruct (special_food_timer g - 1 =? 0); [discriminate|].
      inversion Hx; subst. apply (I10 x Hsp).
Qed.

Lemma play_inv_init (w h c : Z) (e : Env) (g : SnakeGame) :
  SnakeGame_init w h c e = Ok g -> play_inv g.
Proof.
  intros Hi. destruct (init_Ok _ _ _ _ _ Hi) as [_ [_ [hs [_ Hr]]]].
  assert (Hst : state g = MENU).
  { destruct (reset_game_outcome _ _ Hr) as [food [sp [t [-> _]]]]. reflexivity. }
  assert (Hg : set_state MENU g = g).
  { destruct g; simpl in *. subst. reflexivity. }
  rewrite <- Hg.
  refine (play_inv_reset _ g MENU _ _ Hr); [simpl; lia | discriminate].
Qed.

(** Every state of a run satisfies [play_inv]. *)
Lemma reachable_play_inv (g : SnakeGame) : reachable g -> play_inv g.
Proof.
  intros Hr. pose proof Hr as Hr0.
  induction Hr as [w h c e g Hi | ev r g r' g' Hg IH He | g g' Hg IH Hu | g g' Hg IH Hd].
  - eapply play_inv_init; exact Hi.
  - eapply play_inv_handle_event; [apply IH; exact Hg | exact He].
  - eapply play_inv_update; [apply IH; exact Hg | apply reachable_inv; exact Hg | exact Hu].
  - eapply play_inv_render; [apply IH; exact Hg | exact Hd].
Qed.

(** ** The board bounds the snake and the score *)

Lemma range_NoDup (n : Z) : NoDup (range n).
Proof.
  unfold range. apply NoDup_map_NoDup_ForallPairs; [|apply seq_NoDup].
  intros x y _ _ H. apply Nat2Z.inj. exact H.
Qed.

Lemma range_length (n : Z) : List.length (range n) = Z.to_nat n.
Proof. unfold range. rewrite length_map, length_seq. reflexivity. Qed.

Lemma all_cells_In (g : SnakeGame) (c : cell) : In c (all_cells g) <-> in_grid g c.
Proof.
  unfold all_cells, in_grid. rewrite in_flat_map. split.
  - intros [x [Hx Hc]]. apply in_map_iff in Hc. destruct Hc as [y [<- Hy]].
    apply range_In in Hx. apply range_In in Hy. simpl. lia.
  - intros [Hx Hy]. destruct c as [x y]. simpl in *.
    exists x. split; [apply range_In; lia|].
    apply in_map_iff. exists y. split; [reflexivity | apply range_In; lia].
Qed.

Lemma columns_NoDup (ys xs : list Z) :
  NoDup ys -> NoDup xs ->
  NoDup (flat_map (fun x => map (fun y => (x, y)) ys) xs).
Proof.
  intros Hys Hxs. induction Hxs as [|x xs Hx Hxs IH]; [constructor|].
  simpl. apply NoDup_app.
  - apply NoDup_map_NoDup_ForallPairs; [|exact Hys].
    intros a b _ _ H. inversion H. reflexivity.
  - exact IH.
  - intros c Hc Hc'. apply in_map_iff in Hc. destruct Hc as [y [<- _]].
    apply in_flat_map in Hc'. destruct Hc' as [x' [Hx' Hc']].
    apply in_map_iff in Hc'. destruct Hc' as [y' [E _]].
    inversion E; subst. contradiction.
Qed.

Lemma all_cells_NoDup (g : SnakeGame) : NoDup (all_cells g).
Proof. apply columns_NoDup; apply range_NoDup. Qed.

Lemma all_cells_length (g : SnakeGame) :
  List.length (all_cells g) =
    (Z.to_nat (grid_width (cfg g)) * Z.to_nat (grid_height (cfg g)))%nat.
Proof.
  unfold all_cells.
  rewrite flat_map_constant_length with (c := Z.to_nat (grid_height (cfg g))).
  - rewrite range_length. reflexivity.
  - intros x _. rewrite length_map. apply range_length.
Qed.

Lemma wall_collision_cfg (g g1 : SnakeGame) (c : cell) :
  cfg g1 = cfg g -> wall_collision g1 c = wall_collision g c.
Proof. unfold wall_collision. intros ->. reflexivity. Qed.

Lemma wall_collision_false (g : SnakeGame) (c : cell) :
  wall_collision g c = false <-> in_grid g c.
Proof.
  unfold wall_collision, in_grid. rewrite negb_false_iff.
  rewrite !andb_true_iff, !Z.leb_le, !Z.ltb_lt. tauto.
Qed.

Lemma board_inv_transfer (g g1 : SnakeGame) :
  board_inv g -> cfg g1 = cfg g -> snake g1 = snake g -> board_inv g1.
Proof.
  unfold board_inv. intros [Hw [Hh Hl]] Hc Hs. rewrite Hc, Hs.
  rewrite (filter_ext (wall_collision g1) (wall_collision g)
             (fun c => wall_collision_cfg g g1 c Hc)).
  auto.
Qed.

Lemma filter_tl_length {A} (f : A -> bool) (l : list A) :
  (List.length (filter f (tl l)) <= List.length (filter f l))%nat.
Proof. destruct l as [|x l]; simpl; [lia|]. destruct (f x); simpl; lia. Qed.

Lemma filter_snoc_false {A} (f : A -> bool) (l : list A) (x : A) :
  f x = false -> filter f (l ++ [x]) = filter f l.
Proof. intros H. rewrite filter_app. simpl. rewrite H. apply List.app_nil_r. Qed.

(** The snake after a step on the board: grown by the cell, or moved on. *)
Lemma board_inv_step (g g1 : SnakeGame) (c : cell) :
  board_inv g -> collides g c = false -> cfg g1 = cfg g ->
  snake g1 = snake g ++ [c] \/ snake g1 = tl (snake g ++ [c]) ->
  board_inv g1.
Proof.
  unfold board_inv. intros [Hw [Hh Hl]] Hcol Hc Hs. rewrite Hc.
  rewrite (filter_ext (wall_collision g1) (wall_collision g)
             (fun x => wall_collision_cfg g g1 x Hc)).
  split; [exact Hw|]. split; [exact Hh|].
  apply collides_false in Hcol. destruct Hcol as [Hin _].
  apply wall_collision_false in Hin.
  pose proof (filter_snoc_false (wall_collision g) (snake g) c Hin) as E.
  destruct Hs as [-> | ->].
  - rewrite E. exact Hl.
  - pose proof (filter_tl_length (wall_collision g) (snake g ++ [c])) as T.
    rewrite E in T. lia.
Qed.

Lemma board_inv_reset (g g' : SnakeGame) :
  grid_width (cfg g) < 2 ^ 31 -> grid_height (cfg g) < 2 ^ 31 ->
  _reset_game g = Ok g' -> board_inv g'.
Proof.
  intros Hw Hh Hr.
  destruct (reset_game_outcome g g' Hr) as [food [sp [t [-> _]]]].
  unfold board_inv. cbn [cfg snake].
  split; [exact Hw|]. split; [exact Hh|].
  match goal with
  | |- (List.length (filter ?f ?l) <= 3)%nat =>
      pose proof (filter_length_le f l) as L
  end.
  exact L.
Qed.

Lemma board_inv_handle_event (ev : event) (r r' : bool) (g g' : SnakeGame) :
  board_inv g -> handle_event ev (r, g) = Ok (r', g') -> board_inv g'.
Proof.
  intros Hi. unfold handle_event.
  destruct ev as [|k|]; try (intros H; inversion H; subst; exact Hi).
  destruct (key_eqb k K_ESCAPE); [intros H; inversion H; subst; exact Hi|].
  assert (Hreset :
            (g0 <- _reset_game g ;; Ok (r, set_state PLAYING g0)) = Ok (r', g') ->
            board_inv g').
  { destruct (_reset_game g) as [g1|e] eqn:Hr; simpl; [|discriminate].
    intros H; inversion H; subst.
    apply (board_inv_transfer g1); [|reflexivity|reflexivity].
    destruct Hi as [Hw [Hh _]]. apply (board_inv_reset g g1 Hw Hh Hr). }
  destruct (state g) eqn:Hst.
  - destruct (key_eqb k K_SPACE); [exact Hreset|].
    intros H; inversion H; subst; exact Hi.
  - destruct (key_eqb k K_p); intros H; inversion H; subst.
    + apply (board_inv_transfer g); [exact Hi | reflexivity | reflexivity].
    + apply (board_inv_transfer g); [exact Hi | |];
        unfold _handle_input; destruct (key_mapping k) as [d|]; try reflexivity;
        destruct (negb (Direction_eqb d (direction_opposites (direction g))));
        reflexivity.
  - destruct (key_eqb k K_p); intros H; inversion H; subst.
    + apply (board_inv_transfer g); [exact Hi | reflexivity | reflexivity].
    + exact Hi.
  - destruct (key_eqb k K_SPACE); [exact Hreset|].
    intros H; inversion H; subst; exact Hi.
Qed.

Lemma board_inv_update (g g' : SnakeGame) :
  board_inv g -> game_inv g -> update g = Ok g' -> board_inv g'.
Proof.
  intros Hi [Hg [Hne _]]. unfold update.
  destruct (state g) eqn:Hst; try (intros H; inversion H; subst; exact Hi).
  destruct (_move_snake g) as [g1|e] eqn:Hm; simpl; [|discriminate].
  intros H; inversion H; subst; clear H.
  destruct (next_cell_total g Hne) as [c Hc].
  assert (H1 : board_inv g1).
  { destruct (move_snake_outcome g g1 c Hc Hg Hm)
      as [[Hcol ->] | [[Hcol [_ [_ ->]]] | [[Hcol [_ [_ ->]]] |
          [Hcol [_ [food [sp [t [-> _]]]]]]]]].
    - destruct (game_over_fields (set_direction (next_direction g) g))
        as [_ [E1 [_ [_ [E2 _]]]]].
      apply (board_inv_transfer g); assumption.
    - apply (board_inv_step g _ c Hi Hcol); [reflexivity | right; reflexivity].
    - apply (board_inv_step g _ c Hi Hcol); [reflexivity | left; reflexivity].
    - apply (board_inv_step g _ c Hi Hcol); [reflexivity | left; reflexivity]. }
  apply (board_inv_transfer g1); [exact H1 | reflexivity | reflexivity].
Qed.

Lemma board_inv_render (g g' : SnakeGame) :
  board_inv g -> render g = Ok g' -> board_inv g'.
Proof.
  intros Hi Hr. pose proof (render_special_only _ _ Hr) as Hso.
  destruct (special_only_same_play _ _ Hso) as [E1 _].
  destruct (special_only_fields _ _ Hso) as [F1 _].
  apply (board_inv_transfer g); assumption.
Qed.

Lemma board_inv_init (w h c : Z) (e : Env) (g : SnakeGame) :
  SnakeGame_init w h c e = Ok g -> board_inv g.
Proof.
  intros Hi. destruct (init_Ok _ _ _ _ _ Hi) as [Hc [[Hw Hh] [hs [_ Hr]]]].
  assert (H31 : 16384 < 2 ^ 31) by reflexivity.
  revert Hr. apply board_inv_reset; cbn [cfg grid_width grid_height].
  - destruct (Z_lt_le_dec c 0) as [Hn | Hp].
    + assert (w / c <= 0) by (Z.div_mod_to_equations; nia). lia.
    + assert (w / c <= w) by (Z.div_mod_to_equations; nia). lia.
  - destruct (Z_lt_le_dec c 0) as [Hn | Hp].
    + assert (h / c <= 0) by (Z.div_mod_to_equations; nia). lia.
    + assert (h / c <= h) by (Z.div_mod_to_equations; nia). lia.
Qed.

(** Every state of a run satisfies [board_inv]. *)
Lemma reachable_board_inv (g : SnakeGame) : reachable g -> board_inv g.
Proof.
  intros Hr. pose proof Hr as Hr0.
  induction Hr as [w h c e g Hi | ev r g r' g' Hg IH He | g g' Hg IH Hu | g g' Hg IH Hd].
  - eapply board_inv_init; exact Hi.
  - eapply board_inv_handle_event; [apply IH; exact Hg | exact He].
  - eapply board_inv_update; [apply IH; exact Hg | apply reachable_inv; exact Hg | exact Hu].
  - eapply board_inv_render; [apply IH; exact Hg | exact Hd].
Qed.

(** The snake has at most three cells more than the board. *)
Lemma snake_length_bound (g : SnakeGame) :
  NoDup (snake g) -> board_inv g ->
  Z.of_nat (List.length (snake g)) <= 2 ^ 31 * 2 ^ 31 + 3.
Proof.
  intros Hnd [Hw [Hh Hoff]].
  pose proof (filter_length (wall_collision g) (snake g)) as Hsplit.
  assert (Hon : (List.length (filter (fun x => negb (wall_collision g x)) (snake g))
                 <= List.length (all_cells g))%nat).
  { apply NoDup_incl_length; [apply NoDup_filter; exact Hnd|].
    intros x Hx. apply filter_In in Hx. destruct Hx as [_ Hx].
    apply negb_true_iff in Hx. apply all_cells_In. apply wall_collision_false. exact Hx. }
  rewrite all_cells_length in Hon.
  assert (Hcells : Z.of_nat (Z.to_nat (grid_width (cfg g)) * Z.to_nat (grid_height (cfg g)))
                   <= 2 ^ 31 * 2 ^ 31).
  { rewrite Nat2Z.inj_mul.
    assert (0 <= Z.of_nat (Z.to_nat (grid_width (cfg g))) <= 2 ^ 31) by lia.
    assert (0 <= Z.of_nat (Z.to_nat (grid_height (cfg g))) <= 2 ^ 31) by lia.
    nia. }
  lia.
Qed.

(** No score of a run has more digits than [json.dumps] writes. *)
Lemma reachable_score_fits (g : SnakeGame) :
  reachable g -> 0 <= score g /\ fits_str_digits (score g) = true.
Proof.
  intros Hr.
  pose proof (reachable_play_inv g Hr) as Hp.
  pose proof (snake_length_bound g (pi_nodup _ _ Hp) (reachable_board_inv g Hr)) as Hl.
  pose proof (pi_score _ _ Hp) as Hs. pose proof (pi_length _ _ Hp) as H3.
  assert (H0 : 0 <= score g) by lia.
  split; [exact H0|].
  unfold fits_str_digits. apply Z.ltb_lt. rewrite Z.abs_eq by exact H0.
  apply Z.le_lt_trans with (50 * (2 ^ 31 * 2 ^ 31)); [lia|].
  apply Z.lt_le_trans with (10 ^ 21); [vm_compute; reflexivity|].
  apply Z.pow_le_mono_r; [lia | unfold int_max_str_digits; lia].
Qed.

(** ** The high score at game over *)

(** C6. The high score changes only in the game-over transition, and there
    exactly when the score is strictly greater than it: it becomes the score
    and the file is written, once; a second [_game_over] changes nothing.
    Key events, redraws and ticks that do not end the game leave the high
    score and the file alone. *)
Theorem high_score_at_game_over (g : SnakeGame) :
  reachable g ->
  (state (_game_over g) = GAME_OVER /\
   (high_score (_game_over g) <> high_score g <-> score g > high_score g) /\
   (score g > high_score g ->
    high_score (_game_over g) = score g /\
    disk_writes (env (_game_over g)) =
      disk_writes (env g) ++ [high_score_text (score g)] /\
    (disk_writable (env g) = true ->
     disk (env (_game_over g)) = Some (high_score_text (score g)))) /\
   (score g <= high_score g ->
    high_score (_game_over g) = high_score g /\ env (_game_over g) = env g) /\
   _game_over (_game_over g) = _game_over g) /\
  (forall ev r r' g',
     handle_event ev (r, g) = Ok (r', g') ->
     high_score g' = high_score g /\ disk_writes (env g') = disk_writes (env g)) /\
  (forall g',
     render g = Ok g' ->
     high_score g' = high_score g /\ disk_writes (env g') = disk_writes (env g)) /\
  (forall g',
     update g = Ok g' ->
     (state g = PLAYING /\ state g' = GAME_OVER /\ score g' = score g /\
      high_score g' = high_score (_game_over g) /\
      env g' = env (_game_over g))
     \/
     (state g' = state g /\ high_score g' = high_score g /\
      disk_writes (env g') = disk_writes (env g))).
Proof.
  intros Hr. pose proof (reachable_inv g Hr) as Hinv.
  destruct (reachable_score_fits g Hr) as [_ Hfit].
  destruct (game_over_spec g) as [G1 [G2 [G3 G4]]].
  split.
  { split; [exact G1|]. split.
    - split.
      + intros Hne. destruct (Z_gt_le_dec (score g) (high_score g)) as [H|H]; [exact H|].
        exfalso. apply Hne. apply (G3 H).
      + intros H. destruct (G2 H) as [-> _]. lia.
    - split; [intros H; destruct (G2 H) as [A [B _]];
              destruct (B Hfit) as [B1 [B2 _]]; auto|].
      split; [exact G3 | exact G4]. }
  split.
  { intros ev r r' g' H. destruct (handle_event_high_score _ _ _ _ _ H) as [A [_ B]].
    split; assumption. }
  split.
  { intros g' H. apply render_special_only in H.
    destruct (special_only_env _ _ H) as [A [_ [_ [_ B]]]]. split; assumption. }
  intros g'. unfold update. destruct (state g) eqn:Hst;
    try (intros H; inversion H; subst; right; rewrite Hst; repeat split).
  destruct (_move_snake g) as [g1|e] eqn:Hm; simpl; [|discriminate].
  intros H; inversion H; subst; clear H. simpl.
  destruct (move_snake_high_score _ _ Hinv Hst Hm) as [[A B] | [A [B [_ C]]]].
  - left. subst g1.
    destruct (game_over_set_direction (next_direction g) g) as [E1 [E2 E3]].
    rewrite A, E1, E2, E3. repeat split.
  - right. rewrite A, B, C. repeat split.
Qed.

Lemma high_score_at_game_over_witness :
  reachable game_scored /\
  score game_scored = 10 /\ high_score game_scored = 0 /\
  high_score (_game_over game_scored) = 10 /\
  disk_writes (env (_game_over game_scored)) = [high_score_text 10].
Proof.
  split; [exact game_scored_reachable|].
  split; [reflexivity|]. split; [reflexivity|].
  destruct (high_score_at_game_over game_scored game_scored_reachable)
    as [[_ [_ [H _]]] _].
  assert (Hgt : score game_scored > high_score game_scored) by (vm_compute; reflexivity).
  destruct (H Hgt) as [A [B _]]. split; [exact A | exact B].
Defined.

(** ** The snake *)

(** X1. In every state of a run the cells of the snake are pairwise
    distinct: the snake never overlaps itself. *)
Theorem snake_cells_distinct (g : SnakeGame) :
  reachable g -> NoDup (snake g).
Proof. intros Hr. apply (pi_nodup _ _ (reachable_play_inv g Hr)). Qed.

Lemma snake_cells_distinct_witness :
  reachable game_scored /\ NoDup (snake game_scored).
Proof.
  split; [exact game_scored_reachable|].
  exact (snake_cells_distinct game_scored game_scored_reachable).
Defined.

Lemma adjacent_distance (a b : cell) :
  adjacent a b -> Z.abs (fst b - fst a) + Z.abs (snd b - snd a) = 1.
Proof.
  intros [d ->]. destruct a as [x y]. destruct d; unfold step_cell; simpl; lia.
Qed.

Lemma chain_middle (l : list cell) (a b : cell) (r : list cell) :
  chain (l ++ a :: b :: r) -> adjacent a b.
Proof.
  induction l as [|x l IH]; intros H.
  - simpl in H. tauto.
  - apply IH. apply (chain_tl (x :: l ++ a :: b :: r) H).
Qed.

(** X2. In every state of a run the snake is one connected path: each cell
    and the cell after it are neighbours on the grid, one step apart
    horizontally or vertically. *)
Theorem snake_is_connected (g : SnakeGame) (l : list cell) (a b : cell) (r : list cell) :
  reachable g -> snake g = l ++ a :: b :: r ->
  Z.abs (fst b - fst a) + Z.abs (snd b - snd a) = 1.
Proof.
  intros Hr Hs. apply adjacent_distance. apply (chain_middle l a b r).
  rewrite <- Hs. apply (pi_chain _ _ (reachable_play_inv g Hr)).
Qed.

Lemma snake_is_connected_witness :
  reachable game1 /\ snake game1 = [] ++ (18, 15) :: (19, 15) :: [(20, 15)] /\
  Z.abs (fst (19, 15) - fst (18, 15)) + Z.abs (snd (19, 15) - snd (18, 15)) = 1.
Proof.
  split; [exact game1_reachable|]. split; [reflexivity|].
  exact (snake_is_connected game1 [] (18, 15) (19, 15) [(20, 15)]
           game1_reachable eq_refl).
Defined.

(** X3. While the game is not over, the cell the snake is about to enter is
    never the cell right behind its head: thanks to the rule of
    [_handle_input] the snake cannot turn back into its own neck. *)
Theorem no_turn_into_neck (g : SnakeGame) (l : list cell) (neck head c : cell) :
  reachable g -> state g <> GAME_OVER ->
  snake g = l ++ [neck; head] -> next_cell g = Ok c -> c <> neck.
Proof.
  intros Hr Hst Hs Hc.
  pose proof (pi_heads _ _ (reachable_play_inv g Hr) Hst l neck head Hs) as Hhead.
  destruct (reachable_inv g Hr) as [_ [_ [Hopp _]]].
  apply next_cell_Ok in Hc. destruct Hc as [h [Hh ->]].
  assert (h = head).
  { rewrite Hs in Hh. change (l ++ [neck; head]) with (l ++ [neck] ++ [head]) in Hh.
    rewrite app_assoc, deque_last_app in Hh. congruence. }
  subst h. rewrite Hhead. intros E. apply Hopp.
  destruct neck as [x y].
  destruct (direction g), (next_direction g); unfold step_cell in E; simpl in E;
    inversion E; try lia; reflexivity.
Qed.

Lemma no_turn_into_neck_witness :
  reachable game1 /\ state game1 <> GAME_OVER /\
  snake game1 = [(18, 15)] ++ [(19, 15); (20, 15)] /\
  next_cell game1 = Ok (21, 15) /\ (21, 15) <> (19, 15).
Proof.
  assert (Hst : state game1 <> GAME_OVER) by discriminate.
  split; [exact game1_reachable|]. split; [exact Hst|].
  split; [reflexivity|]. split; [reflexivity|].
  exact (no_turn_into_neck game1 [(18, 15)] (19, 15) (20, 15) (21, 15)
           game1_reachable Hst eq_refl eq_refl).
Defined.

(** X4. In every state of a run the snake has at least 3 cells, the score is
    a multiple of 10, and it lies between 10 and 50 times the number of
    cells the snake has grown since the game started. *)
Theorem score_follows_growth (g : SnakeGame) :
  reachable g ->
  (3 <= List.length (snake g))%nat /\
  score g mod 10 = 0 /\
  10 * (Z.of_nat (List.length (snake g)) - 3) <= score g
  <= 50 * (Z.of_nat (List.length (snake g)) - 3).
Proof.
  intros Hr. pose proof (reachable_play_inv g Hr) as Hi.
  split; [apply (pi_length _ _ Hi)|].
  split; [apply (pi_score10 _ _ Hi) | apply (pi_score _ _ Hi)].
Qed.

Lemma score_follows_growth_witness :
  reachable game_scored /\
  List.length (snake game_scored) = 4%nat /\ score game_scored = 10 /\
  10 * (Z.of_nat (List.length (snake game_scored)) - 3) <= score game_scored
  <= 50 * (Z.of_nat (List.length (snake game_scored)) - 3).
Proof.
  split; [exact game_scored_reachable|].
  split; [reflexivity|]. split; [reflexivity|].
  exact (proj2 (proj2 (score_follows_growth game_scored game_scored_reachable))).
Defined.

(** X5. The frame rate stays between 10 and 20 in every state of a run, and
    after every tick it is 10 plus one for every 50 points of the score,
    capped at 20. *)
Theorem speed_follows_score (g : SnakeGame) :
  reachable g ->
  10 <= fps g <= 20 /\
  (state g = PLAYING -> forall g',
     update g = Ok g' -> fps g' = Z.min (10 + score g' / 50) 20).
Proof.
  intros Hr. split; [apply (pi_fps _ _ (reachable_play_inv g Hr))|].
  intros Hst g'. unfold update. rewrite Hst.
  destruct (_move_snake g) as [g1|e]; simpl; [|discriminate].
  intros H; inversion H; subst. reflexivity.
Qed.

Lemma speed_follows_score_witness :
  reachable game1 /\ 10 <= fps game1 <= 20.
Proof.
  split; [exact game1_reachable|].
  exact (proj1 (speed_follows_score game1 game1_reachable)).
Defined.

(** X6. In every state of a run a special food on the board has between 1
    and 150 frames left, and when there is none the timer is 0. *)
Theorem special_food_timer_range (g : SnakeGame) :
  reachable g ->
  (forall c, special_food_pos g = Some c -> 0 < special_food_timer g <= 150) /\
  (special_food_pos g = None -> special_food_timer g = 0).
Proof.
  intros Hr. pose proof (pi_timer _ _ (reachable_play_inv g Hr)) as Ht.
  destruct (special_food_pos g) as [c|].
  - split; [intros _ _; exact Ht | discriminate].
  - split; [discriminate | intros _; exact Ht].
Qed.

Lemma special_food_timer_range_witness :
  reachable game_special_top /\
  special_food_pos game_special_top = Some (21, 15) /\
  0 < special_food_timer game_special_top <= 150.
Proof.
  split; [exact game_special_top_reachable|]. split; [reflexivity|].
  exact (proj1 (special_food_timer_range game_special_top game_special_top_reachable)
           (21, 15) eq_refl).
Defined.

(** X7. In every state of a run, not only right after spawning, the normal
    food and the special food lie on cells of the board that the snake does
    not occupy. *)
Theorem food_stays_free (g : SnakeGame) (c : cell) :
  reachable g ->
  food_pos g = Some c \/ special_food_pos g = Some c ->
  (0 <= fst c < grid_width (cfg g) /\ 0 <= snd c < grid_height (cfg g)) /\
  ~ In c (snake g).
Proof.
  intros Hr [H | H].
  - apply (pi_food _ _ (reachable_play_inv g Hr) c H).
  - apply (pi_special _ _ (reachable_play_inv g Hr) c H).
Qed.

Lemma food_stays_free_witness :
  reachable game_scored /\ food_pos game_scored = Some (0, 0) /\
  ~ In (0, 0) (snake game_scored).
Proof.
  split; [exact game_scored_reachable|]. split; [reflexivity|].
  exact (proj2 (food_stays_free game_scored (0, 0) game_scored_reachable
                  (or_introl eq_refl))).
Defined.

(** X8. On a board at least 4 cells wide and 1 cell high every cell of the
    snake lies on the board, in every state of a run. *)
Theorem snake_stays_on_board (g : SnakeGame) (c : cell) :
  reachable g ->
  4 <= grid_width (cfg g) -> 1 <= grid_height (cfg g) ->
  In c (snake g) ->
  0 <= fst c < grid_width (cfg g) /\ 0 <= snd c < grid_height (cfg g).
Proof.
  intros Hr Hw Hh Hin.
  pose proof (pi_grid _ _ (reachable_play_inv g Hr) Hw Hh) as Hall.
  rewrite Forall_forall in Hall. apply (Hall c Hin).
Qed.

Lemma snake_stays_on_board_witness :
  reachable game_top /\ In (20, 0) (snake game_top) /\
  0 <= fst (20, 0) < grid_width (cfg game_top) /\
  0 <= snd (20, 0) < grid_height (cfg game_top).
Proof.
  assert (Hin : In (20, 0) (snake game_top)) by (simpl; tauto).
  assert (Hw : 4 <= grid_width (cfg game_top)) by (simpl; lia).
  assert (Hh : 1 <= grid_height (cfg game_top)) by (simpl; lia).
  split; [exact game_top_reachable|]. split; [exact Hin|].
  exact (snake_stays_on_board game_top (20, 0) game_top_reachable Hw Hh Hin).
Defined.

(** ** Particles *)

Lemma update_particles_bound (n : Z) (g : SnakeGame) :
  Forall (fun p => life p <= n + 1) (particles g) ->
  Forall (fun p => life p <= n) (particles (_update_particles g)).
Proof.
  intros H. unfold _update_particles. simpl.
  apply Forall_forall. intros p Hp.
  apply in_map_iff in Hp. destruct Hp as [q [<- Hq]].
  apply filter_In in Hq. destruct Hq as [Hq _].
  rewrite Forall_forall in H. specialize (H q Hq). simpl. lia.
Qed.

Lemma update_particles_iter (n : nat) :
  forall g, Forall (fun p => life p <= Z.of_nat n) (particles g) ->
            particles (Nat.iter (S n) _update_particles g) = [].
Proof.
  induction n as [|n IH]; intros g H.
  - simpl. destruct (filter (fun p => life p >? 0) (particles g)) as [|p ps] eqn:E;
      [reflexivity|].
    assert (Hp : In p (filter (fun p => life p >? 0) (particles g)))
      by (rewrite E; left; reflexivity).
    apply filter_In in Hp. destruct Hp as [Hp Hl].
    rewrite Forall_forall in H. specialize (H p Hp).
    apply Z.gtb_lt in Hl. change (Z.of_nat 0) with 0 in H. lia.
  - rewrite Nat.iter_succ_r. apply IH.
    apply update_particles_bound. eapply Forall_impl; [|exact H].
    simpl. intros p Hp. lia.
Qed.

(** X9. The particles of every state of a run have between 0 and 29 frames
    of life left, and 30 further calls of [_update_particles] remove them
    all. *)
Theorem particles_die_out (g : SnakeGame) :
  reachable g ->
  Forall (fun p => 0 <= life p <= 29) (particles g) /\
  particles (Nat.iter 30 _update_particles g) = [].
Proof.
  intros Hr. pose proof (pi_particles _ _ (reachable_play_inv g Hr)) as Hp.
  split; [exact Hp|].
  apply (update_particles_iter 29). eapply Forall_impl; [|exact Hp].
  simpl. intros p H. lia.
Qed.

(** [game_scored] still shows the ten particles of its bite, sixteen ticks
    old: fourteen more ticks leave them on the display, thirty none. *)
Lemma particles_die_out_witness :
  reachable game_scored /\
  particles game_scored = repeat (mkParticle 14 false) 10 /\
  List.length (particles (Nat.iter 14 _update_particles game_scored)) = 10%nat /\
  Forall (fun p => 0 <= life p <= 29) (particles game_scored) /\
  particles (Nat.iter 30 _update_particles game_scored) = [].
Proof.
  split; [exact game_scored_reachable|].
  split; [reflexivity|]. split; [reflexivity|].
  exact (particles_die_out game_scored game_scored_reachable).
Defined.

(** ** High score *)

(** X10. The high score never decreases: no key event, tick or redraw
    lowers it; and whenever the game is over it is at least the score. *)
Theorem high_score_never_decreases (g : SnakeGame) :
  reachable g ->
  (state g = GAME_OVER -> score g <= high_score g) /\
  (forall ev r r' g',
     handle_event ev (r, g) = Ok (r', g') -> high_score g' = high_score g) /\
  (forall g', update g = Ok g' -> high_score g <= high_score g') /\
  (forall g', render g = Ok g' -> high_score g' = high_score g).
Proof.
  intros Hr. pose proof (reachable_inv g Hr) as Hinv.
  split; [apply (pi_over _ _ (reachable_play_inv g Hr))|].
  split; [intros ev r r' g' H; apply (handle_event_high_score _ _ _ _ _ H)|].
  split.
  - intros g'. unfold update. destruct (state g) eqn:Hst;
      try (intros H; inversion H; subst; lia).
    destruct (_move_snake g) as [g1|e] eqn:Hm; simpl; [|discriminate].
    intros H; inversion H; subst; clear H. simpl.
    destruct (move_snake_high_score _ _ Hinv Hst Hm) as [[_ ->] | [_ [-> _]]]; [|lia].
    destruct (game_over_set_direction (next_direction g) g) as [-> _].
    destruct (game_over_spec g) as [_ [G2 [G3 _]]].
    destruct (Z_gt_le_dec (score g) (high_score g)) as [H | H].
    + destruct (G2 H) as [-> _]. lia.
    + destruct (G3 H) as [-> _]. lia.
  - intros g' H. apply render_special_only in H.
    apply (special_only_env _ _ H).
Qed.

Lemma high_score_never_decreases_witness :
  reachable game_scored /\
  exists g', update game_scored = Ok g' /\ high_score game_scored <= high_score g'.
Proof.
  split; [exact game_scored_reachable|].
  eexists. split; [vm_compute; reflexivity|].
  exact (proj1 (proj2 (proj2
    (high_score_never_decreases game_scored game_scored_reachable))) _ eq_refl).
Defined.

(** ** The state machine *)

Lemma key_eqb_eq (a b : key) : key_eqb a b = true <-> a = b.
Proof.
  split.
  - destruct a, b; simpl; try discriminate; try reflexivity.
    intros H. apply Z.eqb_eq in H. subst. reflexivity.
  - intros <-. destruct a; simpl; try reflexivity. apply Z.eqb_refl.
Qed.

Lemma reset_game_state (g g' : SnakeGame) :
  _reset_game g = Ok g' -> state g' = state g.
Proof.
  intros H. destruct (reset_game_outcome _ _ H) as [food [sp [t [-> _]]]]. reflexivity.
Qed.

Lemma handle_event_transition (ev : event) (r r' : bool) (g g' : SnakeGame) :
  handle_event ev (r, g) = Ok (r', g') ->
  transition (state g) (state g') /\ (state g' = GAME_OVER -> state g = GAME_OVER).
Proof.
  unfold handle_event.
  assert (Hsame : transition (state g) (state g)) by (destruct (state g); exact I).
  destruct ev as [|k|]; try (intros H; inversion H; subst; tauto).
  destruct (key_eqb k K_ESCAPE); [intros H; inversion H; subst; tauto|].
  destruct (state g) eqn:Hst.
  - destruct (key_eqb k K_SPACE).
    + destruct (_reset_game g) as [g1|e]; simpl; [|discriminate].
      intros H; inversion H; subst. simpl. split; [exact I | discriminate].
    + intros H; inversion H; subst. rewrite Hst. tauto.
  - destruct (key_eqb k K_p); intros H; inversion H; subst; simpl.
    + split; [exact I | discriminate].
    + assert (E : state (_handle_input k g) = state g).
      { unfold _handle_input. destruct (key_mapping k) as [d|]; [|reflexivity].
        destruct (negb (Direction_eqb d (direction_opposites (direction g)))); reflexivity. }
      rewrite E, Hst. split; [exact I | discriminate].
  - destruct (key_eqb k K_p); intros H; inversion H; subst; simpl.
    + split; [exact I | discriminate].
    + rewrite Hst. split; [exact I | discriminate].
  - destruct (key_eqb k K_SPACE).
    + destruct (_reset_game g) as [g1|e]; simpl; [|discriminate].
      intros H; inversion H; subst. simpl. split; [exact I | discriminate].
    + intros H; inversion H; subst. rewrite Hst. tauto.
Qed.

(** X11. The game states change only along Menu -> Playing, Playing <->
    Paused, Playing -> GameOver and GameOver -> Playing: key events never
    lead to GameOver, only a tick of a game being played does, a redraw
    never changes the state, and the menu is never entered again. *)
Theorem state_machine (g : SnakeGame) :
  reachable g ->
  (forall ev r r' g',
     handle_event ev (r, g) = Ok (r', g') ->
     transition (state g) (state g') /\
     (state g' = GAME_OVER -> state g = GAME_OVER) /\
     (state g' = MENU -> state g = MENU)) /\
  (forall g',
     update g = Ok g' ->
     state g' = state g \/ (state g = PLAYING /\ state g' = GAME_OVER)) /\
  (forall g', render g = Ok g' -> state g' = state g).
Proof.
  intros Hr. pose proof (reachable_inv g Hr) as Hinv.
  split.
  - intros ev r r' g' H. destruct (handle_event_transition _ _ _ _ _ H) as [Ht Ho].
    split; [exact Ht|]. split; [exact Ho|].
    intros E. rewrite E in Ht. destruct (state g); simpl in Ht; tauto.
  - split.
    + intros g'. unfold update. destruct (state g) eqn:Hst;
        try (intros H; inversion H; subst; left; exact Hst).
      destruct (_move_snake g) as [g1|e] eqn:Hm; simpl; [|discriminate].
      intros H; inversion H; subst; clear H. simpl.
      destruct (move_snake_high_score _ _ Hinv Hst Hm) as [[E _] | [E _]].
      * right. split; [reflexivity | exact E].
      * left. exact E.
    + intros g' H. apply render_special_only in H.
      apply special_only_same_play in H. apply H.
Qed.

Lemma state_machine_witness :
  reachable game_top /\
  forall g',
    update game_top = Ok g' ->
    state g' = state game_top \/ (state game_top = PLAYING /\ state g' = GAME_OVER).
Proof.
  split; [exact game_top_reachable|].
  exact (proj1 (proj2 (state_machine game_top game_top_reachable))).
Defined.

(** ** Leaving the loop *)

Lemma handle_event_running (ev : event) (r r' : bool) (g g' : SnakeGame) :
  handle_event ev (r, g) = Ok (r', g') ->
  r' = (if quits ev then false else r).
Proof.
  unfold handle_event, quits.
  destruct ev as [|k|]; try (intros H; inversion H; subst; reflexivity).
  destruct (key_eqb k K_ESCAPE); [intros H; inversion H; subst; reflexivity|].
  destruct (state g).
  - destruct (key_eqb k K_SPACE).
    + destruct (_reset_game g) as [g1|e]; simpl; [|discriminate].
      intros H; inversion H; subst. reflexivity.
    + intros H; inversion H; subst. reflexivity.
  - destruct (key_eqb k K_p); intros H; inversion H; subst; reflexivity.
  - destruct (key_eqb k K_p); intros H; inversion H; subst; reflexivity.
  - destruct (key_eqb k K_SPACE).
    + destruct (_reset_game g) as [g1|e]; simpl; [|discriminate].
      intros H; inversion H; subst. reflexivity.
    + intros H; inversion H; subst. reflexivity.
Qed.

Lemma handle_events_running (evs : list event) :
  forall r g r' g',
    handle_events evs (r, g) = Ok (r', g') ->
    r' = r && negb (existsb quits evs).
Proof.
  induction evs as [|ev evs IH]; intros r g r' g'.
  - simpl. intros H; inversion H; subst. rewrite andb_true_r. reflexivity.
  - rewrite handle_events_cons.
    destruct (handle_event ev (r, g)) as [[r1 g1]|e] eqn:He; simpl; [|discriminate].
    intros H. rewrite (IH _ _ _ _ H), (handle_event_running _ _ _ _ _ He).
    destruct (quits ev); simpl; [rewrite andb_false_r|]; reflexivity.
Qed.

(** X12. A frame leaves the main loop exactly when its events contain a QUIT
    or an ESC key press, wherever in the list and in whatever game state;
    the frame is still completed, and [run] looks at no later frame. *)
Theorem quit_ends_the_loop (evs : list event) (g : SnakeGame) (r : bool) (g' : SnakeGame) :
  frame evs g = Ok (r, g') ->
  r = negb (existsb quits evs) /\
  (existsb quits evs = true -> forall rest, run (evs :: rest) g = Ok g').
Proof.
  intros Hf.
  assert (Hr : r = negb (existsb quits evs)).
  { revert Hf. unfold frame.
    destruct (handle_events evs (true, g)) as [[r1 g1]|e] eqn:He; simpl; [|discriminate].
    destruct (update g1) as [g2|e]; simpl; [|discriminate].
    destruct (render g2) as [g3|e]; simpl; [|discriminate].
    intros H; inversion H; subst.
    apply (handle_events_running _ _ _ _ _ He). }
  split; [exact Hr|].
  intros Hq rest. simpl. rewrite Hf. simpl. rewrite Hr, Hq. reflexivity.
Qed.

Lemma quit_ends_the_loop_witness :
  exists g',
    frame [KEYDOWN K_UP; QUIT; KEYDOWN K_LEFT] game1 = Ok (false, g') /\
    run ([KEYDOWN K_UP; QUIT; KEYDOWN K_LEFT] :: [[]; []]) game1 = Ok g'.
Proof.
  eexists.
  assert (Hf : frame [KEYDOWN K_UP; QUIT; KEYDOWN K_LEFT] game1 =
               Ok (false, the_game (run [[KEYDOWN K_UP; QUIT; KEYDOWN K_LEFT]] game1)))
    by (vm_compute; reflexivity).
  split; [exact Hf|].
  exact (proj2 (quit_ends_the_loop _ _ _ _ Hf) eq_refl [[]; []]).
Defined.

(** ** Frames in which nothing moves *)

Lemma handle_events_waiting (evs : list event) :
  forall r g r' g',
    state g = MENU \/ state g = GAME_OVER ->
    ~ In (KEYDOWN K_SPACE) evs ->
    handle_events evs (r, g) = Ok (r', g') -> g' = g.
Proof.
  induction evs as [|ev evs IH]; intros r g r' g' Hst Hno.
  - simpl. intros H; inversion H; reflexivity.
  - rewrite handle_events_cons.
    destruct (handle_event ev (r, g)) as [[r1 g1]|e] eqn:He; simpl; [|discriminate].
    intros H.
    assert (Hg1 : g1 = g).
    { revert He. unfold handle_event.
      destruct ev as [|k|]; try (intros E; inversion E; reflexivity).
      destruct (key_eqb k K_ESCAPE); [intros E; inversion E; reflexivity|].
      assert (Hk : key_eqb k K_SPACE = false).
      { destruct (key_eqb k K_SPACE) eqn:Ek; [|reflexivity].
        apply key_eqb_eq in Ek. subst k. exfalso. apply Hno. left. reflexivity. }
      destruct Hst as [E | E]; rewrite E, Hk; intros E'; inversion E'; reflexivity. }
    subst g1. apply (IH r1 g r' g' Hst); [|exact H].
    intros Hin. apply Hno. right. exact Hin.
Qed.

Lemma handle_events_paused (evs : list event) :
  forall r g r' g',
    state g = PAUSED -> ~ In (KEYDOWN K_p) evs ->
    handle_events evs (r, g) = Ok (r', g') -> g' = g.
Proof.
  induction evs as [|ev evs IH]; intros r g r' g' Hst Hno.
  - simpl. intros H; inversion H; reflexivity.
  - rewrite handle_events_cons.
    destruct (handle_event ev (r, g)) as [[r1 g1]|e] eqn:He; simpl; [|discriminate].
    intros H.
    assert (Hg1 : g1 = g).
    { revert He. unfold handle_event.
      destruct ev as [|k|]; try (intros E; inversion E; reflexivity).
      destruct (key_eqb k K_ESCAPE); [intros E; inversion E; reflexivity|].
      assert (Hk : key_eqb k K_p = false).
      { destruct (key_eqb k K_p) eqn:Ek; [|reflexivity].
        apply key_eqb_eq in Ek. subst k. exfalso. apply Hno. left. reflexivity. }
      rewrite Hst, Hk. intros E'; inversion E'; reflexivity. }
    subst g1. apply (IH r1 g r' g' Hst); [|exact H].
    intros Hin. apply Hno. right. exact Hin.
Qed.

(** X13. In the menu and on the game-over screen a frame without a SPACE key
    press changes nothing of the game: the snake, the directions, the score,
    the high score, both foods with the special food timer, the particles,
    the speed and the random tape all stay as they are. *)
Theorem waiting_screens_are_still (evs : list event) (g : SnakeGame) (r : bool) (g' : SnakeGame) :
  state g = MENU \/ state g = GAME_OVER ->
  ~ In (KEYDOWN K_SPACE) evs ->
  frame evs g = Ok (r, g') ->
  same_play g g' /\ same_special g g' /\
  particles g' = particles g /\ fps g' = fps g /\ rng (env g') = rng (env g).
Proof.
  intros Hst Hno. unfold frame.
  destruct (handle_events evs (true, g)) as [[r1 g1]|e] eqn:He; simpl; [|discriminate].
  apply (handle_events_waiting _ _ _ _ _ Hst Hno) in He. subst g1.
  rewrite update_idle by (destruct Hst as [E | E]; rewrite E; discriminate). simpl.
  destruct (render g) as [g3|e] eqn:Hd; simpl; [|discriminate].
  intros H; inversion H; subst.
  pose proof (render_display_only _ _ Hd Hst) as Hdo.
  destruct (display_only_same _ _ Hdo) as [Hp Hs].
  destruct (special_only_fields _ _ (display_only_special_only _ _ Hdo)) as [_ [F2 [F3 _]]].
  destruct (display_only_env _ _ Hdo) as [Hrng _].
  repeat split; try apply Hp; try apply Hs; assumption.
Qed.

Lemma waiting_screens_are_still_witness :
  (state menu1 = MENU \/ state menu1 = GAME_OVER) /\
  ~ In (KEYDOWN K_SPACE) [KEYDOWN K_UP; KEYDOWN K_p] /\
  exists g',
    frame [KEYDOWN K_UP; KEYDOWN K_p] menu1 = Ok (true, g') /\ same_play menu1 g'.
Proof.
  assert (Hst : state menu1 = MENU \/ state menu1 = GAME_OVER) by (left; reflexivity).
  assert (Hno : ~ In (KEYDOWN K_SPACE) [KEYDOWN K_UP; KEYDOWN K_p]).
  { simpl. intros [H | [H | []]]; discriminate. }
  assert (Hf : frame [KEYDOWN K_UP; KEYDOWN K_p] menu1 =
               Ok (true, the_game (run [[KEYDOWN K_UP; KEYDOWN K_p]] menu1)))
    by (vm_compute; reflexivity).
  split; [exact Hst|]. split; [exact Hno|].
  eexists. split; [exact Hf|].
  exact (proj1 (waiting_screens_are_still _ _ _ _ Hst Hno Hf)).
Defined.

(** X14. While the game is paused, a frame without a P key press keeps it
    paused and changes neither the snake, the directions, the score, the
    high score, the normal food, the particles nor the speed: direction keys
    pressed during the pause are dropped, not buffered. *)
Theorem pause_holds_the_game (evs : list event) (g : SnakeGame) (r : bool) (g' : SnakeGame) :
  state g = PAUSED -> ~ In (KEYDOWN K_p) evs ->
  frame evs g = Ok (r, g') ->
  state g' = PAUSED /\ same_play g g' /\
  particles g' = particles g /\ fps g' = fps g /\ rng (env g') = rng (env g).
Proof.
  intros Hst Hno. unfold frame.
  destruct (handle_events evs (true, g)) as [[r1 g1]|e] eqn:He; simpl; [|discriminate].
  apply (handle_events_paused _ _ _ _ _ Hst Hno) in He. subst g1.
  rewrite update_idle by (rewrite Hst; discriminate). simpl.
  destruct (render g) as [g3|e] eqn:Hd; simpl; [|discriminate].
  intros H; inversion H; subst.
  pose proof (render_special_only _ _ Hd) as Hso.
  pose proof (special_only_same_play _ _ Hso) as Hp.
  destruct (special_only_fields _ _ Hso) as [_ [F2 [F3 _]]].
  destruct (special_only_env _ _ Hso) as [_ [Hrng _]].
  split; [destruct Hp as [_ [_ [_ [_ [_ [-> _]]]]]]; exact Hst|].
  repeat split; try apply Hp; assumption.
Qed.

Lemma pause_holds_the_game_witness :
  state game_paused = PAUSED /\
  ~ In (KEYDOWN K_p) [KEYDOWN K_UP; KEYDOWN K_SPACE] /\
  exists g',
    frame [KEYDOWN K_UP; KEYDOWN K_SPACE] game_paused = Ok (true, g') /\
    state g' = PAUSED /\ next_direction g' = RIGHT.
Proof.
  assert (Hno : ~ In (KEYDOWN K_p) [KEYDOWN K_UP; KEYDOWN K_SPACE]).
  { simpl. intros [H | [H | []]]; discriminate. }
  assert (Hf : frame [KEYDOWN K_UP; KEYDOWN K_SPACE] game_paused =
               Ok (true, the_game (run [[KEYDOWN K_UP; KEYDOWN K_SPACE]] game_paused)))
    by (vm_compute; reflexivity).
  split; [reflexivity|]. split; [exact Hno|].
  eexists. split; [exact Hf|].
  destruct (pause_holds_the_game [KEYDOWN K_UP; KEYDOWN K_SPACE] game_paused true _
              eq_refl Hno Hf) as [Hs [[_ [_ [Hn _]]] _]].
  split; [exact Hs | exact Hn].
Defined.

(** ** Starting a game *)

(** X15. SPACE in the menu or on the game-over screen always starts a game:
    the state becomes Playing, the score 0, the snake the three cells that
    end at the centre of the board, heading right, with no particles; the
    high score and the file are kept, and so is the speed of the game
    before, until the first tick sets it again. *)
Theorem space_starts_a_game (r : bool) (g : SnakeGame) :
  state g = MENU \/ state g = GAME_OVER ->
  exists g',
    handle_event (KEYDOWN K_SPACE) (r, g) = Ok (r, g') /\
    state g' = PLAYING /\ score g' = 0 /\
    snake g' = [(grid_width (cfg g) / 2 - 2, grid_height (cfg g) / 2);
                (grid_width (cfg g) / 2 - 1, grid_height (cfg g) / 2);
                (grid_width (cfg g) / 2, grid_height (cfg g) / 2)] /\
    direction g' = RIGHT /\ next_direction g' = RIGHT /\ particles g' = [] /\
    high_score g' = high_score g /\ disk (env g') = disk (env g) /\
    fps g' = fps g.
Proof.
  intros Hst.
  destruct (reset_game_total g) as [g1 Hr].
  destruct (reset_game_outcome g g1 Hr) as [food [sp [t [E _]]]].
  exists (set_state PLAYING g1). split.
  - unfold handle_event. change (key_eqb K_SPACE K_ESCAPE) with false.
    change (key_eqb K_SPACE K_SPACE) with true. cbv iota.
    destruct Hst as [-> | ->]; rewrite Hr; reflexivity.
  - rewrite E. simpl. repeat split.
Qed.

Lemma space_starts_a_game_witness :
  (state menu1 = MENU \/ state menu1 = GAME_OVER) /\
  exists g',
    handle_event (KEYDOWN K_SPACE) (true, menu1) = Ok (true, g') /\
    state g' = PLAYING /\ score g' = 0 /\
    snake g' = [(18, 15); (19, 15); (20, 15)].
Proof.
  split; [left; reflexivity|].
  destruct (space_starts_a_game true menu1 (or_introl eq_refl))
    as [g' [He [Hs [Hsc [Hsn _]]]]].
  exists g'. repeat split; assumption.
Defined.

(** X16. [_reset_game] does not look at the size of the board: on a board
    less than 4 cells wide the snake it builds starts with a cell left of
    the board. *)
Theorem narrow_board_start (g g' : SnakeGame) :
  grid_width (cfg g) < 4 -> _reset_game g = Ok g' ->
  exists c, In c (snake g') /\ fst c < 0.
Proof.
  intros Hw Hr. destruct (reset_game_outcome g g' Hr) as [food [sp [t [-> _]]]].
  exists (grid_width (cfg g) / 2 - 2, grid_height (cfg g) / 2).
  split; [left; reflexivity|]. cbn [fst]. Z.div_mod_to_equations. lia.
Qed.

Lemma narrow_board_start_witness :
  exists g',
    SnakeGame_init 60 600 20 env0 = Ok g' /\
    grid_width (cfg g') = 3 /\ exists c, In c (snake g') /\ fst c < 0.
Proof.
  assert (Hi : SnakeGame_init 60 600 20 env0 =
               Ok (the_game (SnakeGame_init 60 600 20 env0)))
    by (vm_compute; reflexivity).
  eexists. split; [exact Hi|]. split; [reflexivity|].
  assert (Hw : grid_width
                 (cfg (mkGame (mkConfig 60 600 20 3 30) env0 10 MENU 0 0 []
                         RIGHT RIGHT false None None 0 [])) < 4) by (simpl; lia).
  refine (narrow_board_start _ _ Hw _). vm_compute. reflexivity.
Defined.

(** ** A new high score reaches the next run *)

Lemma game_over_saves (g : SnakeGame) :
  score g > high_score g -> fits_str_digits (score g) = true ->
  disk_writable (env g) = true ->
  disk (env (_game_over g)) = Some (high_score_text (score g)) /\
  _load_high_score (env (_game_over g)) = Some (AInt (score g)).
Proof.
  intros Hgt Hfit Hw.
  destruct (game_over_spec g) as [_ [G2 _]].
  destruct (G2 Hgt) as [_ [G _]]. destruct (G Hfit) as [_ [Hd _]].
  split; [exact (Hd Hw)|].
  apply (load_high_score_text _ _ Hfit (Hd Hw)).
Qed.

(** X17. When the tick that ends the game finds the score above the high
    score and the file can be written, the file then holds the text of that
    score, and the game that [main] constructs when the program is started
    next, [SnakeGame(800, 600, 20)], begins with that score as its high
    score. *)
Theorem new_high_score_survives_restart (g : SnakeGame) (c : cell) :
  reachable g -> state g = PLAYING ->
  next_cell g = Ok c -> collides g c = true ->
  score g > high_score g -> disk_writable (env g) = true ->
  exists g1,
    update g = Ok g1 /\ state g1 = GAME_OVER /\ high_score g1 = score g /\
    disk (env g1) = Some (high_score_text (score g)) /\
    exists g2, SnakeGame_init 800 600 20 (env g1) = Ok g2 /\ high_score g2 = score g.
Proof.
  intros Hr Hst Hc Hcol Hgt Hw.
  destruct (reachable_inv g Hr) as [Hg _].
  destruct (reachable_score_fits g Hr) as [_ Hfit].
  destruct (move_snake_cases g c Hc Hg)
    as [[_ H] | [[Hf _] | [[Hf _] | [Hf _]]]]; try congruence.
  eexists. split; [apply (update_playing _ _ Hst H)|].
  destruct (game_over_fields (set_direction (next_direction g) g)) as [E0 _].
  destruct (game_over_set_direction (next_direction g) g) as [E1 [E2 _]].
  destruct (game_over_spec g) as [_ [G2 _]]. destruct (G2 Hgt) as [G _].
  destruct (game_over_saves g Hgt Hfit Hw) as [Hd Hl].
  split; [exact E0|]. split; [simpl; rewrite E1; exact G|].
  change (env (set_fps
                 (Z.min (10 + score (_game_over (set_direction (next_direction g) g)) / 50) 20)
                 (_update_particles (_game_over (set_direction (next_direction g) g)))))
    with (env (_game_over (set_direction (next_direction g) g))).
  rewrite E2. split; [exact Hd|].
  apply (init_after_load 800 600 20 (score g)); [discriminate | lia | lia | exact Hl].
Qed.

Lemma new_high_score_survives_restart_witness :
  reachable game_scored /\ state game_scored = PLAYING /\
  next_cell game_scored = Ok (21, -1) /\ collides game_scored (21, -1) = true /\
  score game_scored > high_score game_scored /\
  disk_writable (env game_scored) = true /\
  exists g1,
    update game_scored = Ok g1 /\ state g1 = GAME_OVER /\ high_score g1 = 10 /\
    disk (env g1) = Some (high_score_text 10) /\
    exists g2, SnakeGame_init 800 600 20 (env g1) = Ok g2 /\ high_score g2 = 10.
Proof.
  assert (Hgt : score game_scored > high_score game_scored) by (vm_compute; reflexivity).
  split; [exact game_scored_reachable|].
  split; [reflexivity|]. split; [reflexivity|]. split; [reflexivity|].
  split; [exact Hgt|]. split; [reflexivity|].
  destruct (new_high_score_survives_restart game_scored (21, -1)
              game_scored_reachable eq_refl eq_refl eq_refl Hgt eq_refl)
    as [g1 [Hu [Hs [Hh [Hd Hi]]]]].
  exists g1. split; [exact Hu|]. split; [exact Hs|]. split; [exact Hh|].
  split; [exact Hd | exact Hi].
Defined.

(** ** How the snake moves *)

Lemma tl_snoc {A} (l : list A) (x : A) : l <> [] -> tl (l ++ [x]) = tl l ++ [x].
Proof. destruct l; [congruence | reflexivity]. Qed.

(** X18. On a tick without collision the cell in front becomes the new
    head and the body follows: the snake is its old cells, without the tail
    cell unless food was eaten, followed by the cell entered; and the
    committed direction is the one that was buffered. *)
Theorem snake_advances (g : SnakeGame) (c : cell) :
  reachable g -> state g = PLAYING ->
  next_cell g = Ok c -> collides g c = false ->
  exists g',
    update g = Ok g' /\
    snake g' =
      (if pos_eqb c (food_pos g) || pos_eqb c (special_food_pos g)
       then snake g else tl (snake g)) ++ [c] /\
    deque_last (snake g') = Ok c /\
    direction g' = next_direction g /\ state g' = PLAYING.
Proof.
  intros Hr Hst Hc Hfree.
  destruct (reachable_inv g Hr) as [Hg [Hne _]].
  destruct (move_snake_total g (reachable_inv g Hr)) as [g1 Hm].
  exists (set_fps (Z.min (10 + score g1 / 50) 20) (_update_particles g1)).
  split; [apply (update_playing _ _ Hst Hm)|].
  cbn [snake direction state set_fps _update_particles set_particles].
  destruct (move_snake_outcome g g1 c Hc Hg Hm)
    as [[Hcol _] | [[_ [Hf [Hs ->]]] | [[_ [Hf [Hs ->]]] |
        [_ [Hf [food [sp [t [-> _]]]]]]]]]; [congruence| | |];
    cbn [snake direction state]; rewrite Hf; try rewrite Hs; cbn [orb].
  - rewrite tl_snoc by exact Hne.
    split; [reflexivity|]. split; [apply deque_last_app | split; [reflexivity | exact Hst]].
  - split; [reflexivity|]. split; [apply deque_last_app | split; [reflexivity | exact Hst]].
  - split; [reflexivity|]. split; [apply deque_last_app | split; [reflexivity | exact Hst]].
Qed.

Lemma snake_advances_witness :
  reachable game2_up /\ state game2_up = PLAYING /\
  next_cell game2_up = Ok (20, 14) /\ collides game2_up (20, 14) = false /\
  exists g',
    update game2_up = Ok g' /\ snake g' = [(19, 15); (20, 15); (20, 14)].
Proof.
  split; [exact game2_up_reachable|].
  split; [reflexivity|]. split; [reflexivity|]. split; [reflexivity|].
  destruct (snake_advances game2_up (20, 14) game2_up_reachable
              eq_refl eq_refl eq_refl) as [g' [Hu [Hs _]]].
  exists g'. split; [exact Hu | exact Hs].
Defined.

(** ** Keys *)

Lemma handle_input_accepted (k : key) (g : SnakeGame) :
  _handle_input k g =
    match key_mapping k with
    | Some d => if accepted k g then set_next_direction d g else g
    | None => g
    end.
Proof.
  unfold _handle_input, accepted. destruct (key_mapping k); reflexivity.
Qed.

(** X19. [_handle_input] keeps one buffered direction, not a queue: of two
    key presses before a tick the second replaces the first whenever it is
    accepted, and is dropped otherwise; whether it is accepted depends on
    the committed direction only, never on the first key. *)
Theorem last_accepted_key_wins (k1 k2 : key) (g : SnakeGame) :
  accepted k2 (_handle_input k1 g) = accepted k2 g /\
  _handle_input k2 (_handle_input k1 g) =
    (if accepted k2 g then _handle_input k2 g else _handle_input k1 g).
Proof.
  assert (Hd : direction (_handle_input k1 g) = direction g).
  { rewrite handle_input_accepted. destruct (key_mapping k1); [|reflexivity].
    destruct (accepted k1 g); reflexivity. }
  assert (Ha : accepted k2 (_handle_input k1 g) = accepted k2 g).
  { unfold accepted. rewrite Hd. reflexivity. }
  split; [exact Ha|].
  rewrite (handle_input_accepted k2 (_handle_input k1 g)), Ha.
  rewrite (handle_input_accepted k2 g).
  destruct (key_mapping k2) as [d2|] eqn:E2.
  - destruct (accepted k2 g); [|reflexivity].
    rewrite handle_input_accepted. destruct (key_mapping k1); [|reflexivity].
    destruct (accepted k1 g); reflexivity.
  - unfold accepted. rewrite E2. reflexivity.
Qed.

Lemma last_accepted_key_wins_witness :
  next_direction (_handle_input K_DOWN (_handle_input K_UP game1)) = DOWN /\
  next_direction (_handle_input K_LEFT (_handle_input K_UP game1)) = UP.
Proof.
  split.
  - rewrite (proj2 (last_accepted_key_wins K_UP K_DOWN game1)). reflexivity.
  - rewrite (proj2 (last_accepted_key_wins K_UP K_LEFT game1)). reflexivity.
Defined.

(** ** The free cells of the board *)

Lemma free_column_filter (sn : list cell) (x : Z) (ys : list Z) :
  flat_map (fun y => if cell_in (x, y) sn then [] else [(x, y)]) ys =
    filter (fun c => negb (cell_in c sn)) (map (fun y => (x, y)) ys).
Proof.
  induction ys as [|y ys IH]; [reflexivity|].
  simpl. rewrite IH. destruct (cell_in (x, y) sn); reflexivity.
Qed.

Lemma valid_positions_filter (g : SnakeGame) :
  valid_positions g =
    filter (fun c => negb (cell_in c (snake g))) (all_cells g).
Proof.
  unfold valid_positions, all_cells.
  induction (range (grid_width (cfg g))) as [|x xs IH]; [reflexivity|].
  simpl. rewrite filter_app, IH, free_column_filter. reflexivity.
Qed.

Lemma occupied_cells_length (g : SnakeGame) :
  NoDup (snake g) -> (forall c, In c (snake g) -> in_grid g c) ->
  List.length (filter (fun c => cell_in c (snake g)) (all_cells g)) =
    List.length (snake g).
Proof.
  intros Hn Hin. apply Nat.le_antisymm.
  - apply NoDup_incl_length; [apply NoDup_filter, all_cells_NoDup|].
    intros c Hc. apply filter_In in Hc. apply cell_in_In. apply Hc.
  - apply NoDup_incl_length; [exact Hn|].
    intros c Hc. apply filter_In. split.
    + apply all_cells_In. apply Hin. exact Hc.
    + apply cell_in_In. exact Hc.
Qed.

(** X20. When the cells of the snake are distinct and on the board, the
    cells [_spawn_food] may choose from are all the others: their number is
    the number of cells of the board less the length of the snake. *)
Theorem free_cells_count (g : SnakeGame) :
  NoDup (snake g) -> (forall c, In c (snake g) -> in_grid g c) ->
  (List.length (valid_positions g) + List.length (snake g) =
   Z.to_nat (grid_width (cfg g)) * Z.to_nat (grid_height (cfg g)))%nat.
Proof.
  intros Hn Hin.
  rewrite valid_positions_filter, <- (occupied_cells_length g Hn Hin).
  rewrite <- (all_cells_length g).
  rewrite Nat.add_comm. apply filter_length.
Qed.

Lemma free_cells_count_witness :
  NoDup (snake game1) /\ (forall c, In c (snake game1) -> in_grid game1 c) /\
  (List.length (valid_positions game1) + 3 = 40 * 30)%nat.
Proof.
  assert (Hn : NoDup (snake game1)).
  { repeat constructor; simpl; intros H;
      repeat (destruct H as [H | H]; [discriminate|]); exact H. }
  assert (Hin : forall c, In c (snake game1) -> in_grid game1 c).
  { simpl. intros c H.
    repeat (destruct H as [H | H]; [subst c; unfold in_grid; simpl; lia|]).
    destruct H. }
  split; [exact Hn|]. split; [exact Hin|].
  exact (free_cells_count game1 Hn Hin).
Defined.

(** X21. [_spawn_food] leaves the normal food absent only when every cell of
    the board is taken by the snake; a special food is never spawned without
    a normal one; both lie on the board; and the timer is 150 with a special
    food and 0 without. *)
Theorem spawn_food_result (g : SnakeGame) :
  exists g',
    _spawn_food g = Ok g' /\
    (food_pos g' = None <-> forall c, in_grid g c -> In c (snake g)) /\
    (food_pos g' = None -> special_food_pos g' = None) /\
    (forall c, food_pos g' = Some c \/ special_food_pos g' = Some c -> in_grid g c) /\
    special_food_timer g' = (if truthy (special_food_pos g') then 150 else 0).
Proof.
  destruct (spawn_food_spec g) as [food [sp [t [E [Hf [Hs Hnone]]]]]].
  eexists. split; [exact E|]. cbn [food_pos special_food_pos special_food_timer].
  assert (Hfull : valid_positions g = [] <-> forall c, in_grid g c -> In c (snake g)).
  { split.
    - intros Hv c Hc. destruct (cell_in c (snake g)) eqn:Ein; [apply cell_in_In; exact Ein|].
      exfalso. assert (Hin : In c (valid_positions g)).
      { apply valid_positions_In. split; [exact Hc | apply cell_in_false; exact Ein]. }
      rewrite Hv in Hin. exact Hin.
    - intros Hall. destruct (valid_positions g) as [|c l] eqn:Hv; [reflexivity|].
      assert (Hin : In c (valid_positions g)) by (rewrite Hv; left; reflexivity).
      apply valid_positions_In in Hin. destruct Hin as [Hc Hn].
      exfalso. apply Hn. apply Hall. exact Hc. }
  assert (Hpresent : valid_positions g <> [] -> food <> None).
  { intros Hv. revert E. unfold _spawn_food.
    destruct (valid_positions g) as [|c l] eqn:Ev; [congruence|].
    cbn [nonempty].
    destruct (random_choice (c :: l) (rng (env g))) as [[c1 t1]|e]; cbn [bind];
      [|discriminate].
    destruct (random_below_tenth t1) as [[|] t2].
    - destruct (random_choice (c :: l) t2) as [[c2 t3]|e]; cbn [bind]; [|discriminate].
      intros H; inversion H. discriminate.
    - cbn [bind]. intros H; inversion H. discriminate. }
  split; [|split; [|split]].
  - rewrite <- Hfull. split.
    + intros Hn. destruct (valid_positions g) as [|c l] eqn:Hv; [reflexivity|].
      exfalso. apply Hpresent; [discriminate | exact Hn].
    + intros Hv. apply (Hnone Hv).
  - intros Hn. destruct (valid_positions g) as [|c l] eqn:Hv.
    + apply (Hnone eq_refl).
    + exfalso. apply Hpresent; [discriminate | exact Hn].
  - intros c [H | H]; [apply Hf in H | apply Hs in H];
      apply valid_positions_In in H; apply H.
  - reflexivity.
Qed.

Lemma spawn_food_result_witness :
  exists g', _spawn_food game1 = Ok g' /\ food_pos g' <> None.
Proof.
  destruct (spawn_food_result game1) as [g' [E [[Hnone _] _]]].
  exists g'. split; [exact E|].
  intros Hn. specialize (Hnone Hn (0, 0)).
  assert (Hg : in_grid game1 (0, 0)) by (unfold in_grid; simpl; lia).
  specialize (Hnone Hg). simpl in Hnone.
  repeat (destruct Hnone as [Hnone | Hnone]; [discriminate|]). exact Hnone.
Defined.

(** ** The special food *)

Lemma draw_food_countdown (k : nat) :
  forall g c,
    special_food_pos g = Some c -> Z.of_nat k < special_food_timer g ->
    special_food_pos (Nat.iter k _draw_food g) = Some c /\
    special_food_timer (Nat.iter k _draw_food g) = special_food_timer g - Z.of_nat k.
Proof.
  induction k as [|k IH]; intros g c Hsp Ht.
  - simpl. split; [exact Hsp | lia].
  - destruct (IH g c Hsp) as [Hp Htm]; [lia|].
    change (Nat.iter (S k) _draw_food g) with (_draw_food (Nat.iter k _draw_food g)).
    destruct (draw_food_spec (Nat.iter k _draw_food g)) as [_ Hpair].
    rewrite Hp, Htm in Hpair.
    replace (special_food_timer g - Z.of_nat k >? 0) with true in Hpair
      by (symmetry; apply Z.gtb_lt; lia).
    replace (special_food_timer g - Z.of_nat k - 1 =? 0) with false in Hpair
      by (symmetry; apply Z.eqb_neq; lia).
    injection Hpair as P1 P2. rewrite P1, P2. split; [reflexivity | lia].
Qed.

(** X22. A special food that is not eaten and not replaced stays on the
    board for exactly as many food drawings as its timer says: after fewer
    drawings it is still there with the timer reduced by their number, and
    the drawing that brings the timer to 0 removes it. *)
Theorem special_food_lifetime (g : SnakeGame) (c : cell) (k : nat) :
  special_food_pos g = Some c -> 0 < special_food_timer g ->
  (Z.of_nat k < special_food_timer g ->
   special_food_pos (Nat.iter k _draw_food g) = Some c /\
   special_food_timer (Nat.iter k _draw_food g) = special_food_timer g - Z.of_nat k) /\
  (Z.of_nat k = special_food_timer g ->
   special_food_pos (Nat.iter k _draw_food g) = None /\
   special_food_timer (Nat.iter k _draw_food g) = 0).
Proof.
  intros Hsp Ht. split; [apply draw_food_countdown; exact Hsp|].
  intros Hk. destruct k as [|k]; [simpl in Hk; lia|].
  destruct (draw_food_countdown k g c Hsp) as [Hp Htm]; [lia|].
  change (Nat.iter (S k) _draw_food g) with (_draw_food (Nat.iter k _draw_food g)).
  destruct (draw_food_spec (Nat.iter k _draw_food g)) as [_ Hpair].
  rewrite Hp, Htm in Hpair.
  replace (special_food_timer g - Z.of_nat k >? 0) with true in Hpair
    by (symmetry; apply Z.gtb_lt; lia).
  replace (special_food_timer g - Z.of_nat k - 1 =? 0) with true in Hpair
    by (symmetry; apply Z.eqb_eq; lia).
  injection Hpair as P1 P2. rewrite P1, P2. split; [reflexivity | lia].
Qed.

Lemma special_food_lifetime_witness :
  special_food_pos game2 = Some (21, 15) /\ 0 < special_food_timer game2 /\
  special_food_pos (Nat.iter 149 _draw_food game2) = Some (21, 15) /\
  special_food_pos (Nat.iter 150 _draw_food game2) = None.
Proof.
  assert (Ht : 0 < special_food_timer game2) by (simpl; lia).
  split; [reflexivity|]. split; [exact Ht|]. split.
  - apply (proj1 (special_food_lifetime game2 (21, 15) 149 eq_refl Ht)).
    simpl. lia.
  - apply (proj2 (special_food_lifetime game2 (21, 15) 150 eq_refl Ht)).
    reflexivity.
Defined.

(** X23. Eating the normal food draws the special food anew: whatever
    special food was on the board before the tick, afterwards there is
    either none (timer 0) or a freshly spawned one with the full 150 frames,
    so a special food can vanish before its countdown ends. *)
Theorem eating_rerolls_special_food (g : SnakeGame) (c : cell) :
  reachable g -> state g = PLAYING ->
  next_cell g = Ok c -> collides g c = false -> food_pos g = Some c ->
  exists g',
    update g = Ok g' /\
    ((special_food_pos g' = None /\ special_food_timer g' = 0) \/
     ((exists c', special_food_pos g' = Some c') /\ special_food_timer g' = 150)).
Proof.
  intros Hr Hst Hc Hfree Hf.
  destruct (reachable_inv g Hr) as [Hg _].
  destruct (move_snake_total g (reachable_inv g Hr)) as [g1 Hm].
  exists (set_fps (Z.min (10 + score g1 / 50) 20) (_update_particles g1)).
  split; [apply (update_playing _ _ Hst Hm)|].
  cbn [special_food_pos special_food_timer set_fps _update_particles set_particles].
  apply pos_eqb_eq in Hf.
  destruct (move_snake_outcome g g1 c Hc Hg Hm)
    as [[Hcol _] | [[_ [Hf' _]] | [[_ [Hf' _]] |
        [_ [_ [food [sp [t [-> _]]]]]]]]]; try congruence.
  cbn [special_food_pos special_food_timer].
  destruct sp as [c'|]; [right | left]; simpl; split; eauto.
Qed.

Lemma eating_rerolls_special_food_witness :
  reachable game1 /\ state game1 = PLAYING /\
  next_cell game1 = Ok (21, 15) /\ collides game1 (21, 15) = false /\
  food_pos game1 = Some (21, 15) /\
  exists g', update game1 = Ok g' /\ special_food_timer g' = 150.
Proof.
  split; [exact game1_reachable|].
  repeat (split; [reflexivity|]).
  destruct (eating_rerolls_special_food game1 (21, 15) game1_reachable
              eq_refl eq_refl eq_refl eq_refl) as [g' [Hu _]].
  exists g'. split; [exact Hu|].
  revert Hu. vm_compute. intros Hu. inversion Hu. reflexivity.
Defined.

(** ** What is drawn *)

Lemma draw_screen (ops : list draw_op) (g : SnakeGame) :
  screen (env (draw ops g)) = screen (env g) ++ ops.
Proof. reflexivity. Qed.

Lemma draw_segments_cons (n i : Z) (s : cell) (r : list cell) (g : SnakeGame) :
  draw_segments n i (s :: r) g =
    draw_segments n (i + 1) r
      (if i =? n - 1
       then _draw_glow (draw [HeadRect s] (draw [BodyRect s] g))
       else draw [BodyRect s] g).
Proof. reflexivity. Qed.

Lemma draw_segments_screen (l : list cell) :
  forall n i g h,
    i + Z.of_nat (List.length l) = n - 1 ->
    screen (env (draw_segments n i (l ++ [h]) g)) = screen (env g) ++ snake_ops l h.
Proof.
  induction l as [|s l IH]; intros n i g h Hi.
  - change (Z.of_nat (List.length (@nil cell))) with 0 in Hi.
    change ([] ++ [h]) with [h]. rewrite draw_segments_cons.
    replace (i =? n - 1) with true by (symmetry; apply Z.eqb_eq; lia).
    change (draw_segments n (i + 1) [] (_draw_glow (draw [HeadRect h] (draw [BodyRect h] g))))
      with (_draw_glow (draw [HeadRect h] (draw [BodyRect h] g))).
    unfold _draw_glow, snake_ops. rewrite !draw_screen.
    change (map BodyRect []) with (@nil draw_op).
    rewrite <- !app_assoc. reflexivity.
  - change ((s :: l) ++ [h]) with (s :: (l ++ [h])). rewrite draw_segments_cons.
    assert (Hlen : Z.of_nat (List.length (s :: l)) = Z.of_nat (List.length l) + 1).
    { change (List.length (s :: l)) with (S (List.length l)). lia. }
    replace (i =? n - 1) with false by (symmetry; apply Z.eqb_neq; lia).
    rewrite IH by lia. rewrite draw_screen. unfold snake_ops.
    change (map BodyRect (s :: l)) with (BodyRect s :: map BodyRect l).
    rewrite <- !app_assoc. reflexivity.
Qed.

Lemma draw_snake_screen (g : SnakeGame) (l : list cell) (h : cell) :
  snake g = l ++ [h] ->
  screen (env (_draw_snake g)) = screen (env g) ++ snake_ops l h.
Proof.
  unfold _draw_snake. intros ->. apply draw_segments_screen.
  rewrite length_snoc_Z. lia.
Qed.

(** X24. [_draw_snake] draws one body rectangle per cell, in the order of
    the deque, and the head rectangle with its glow exactly once, for the
    last cell and after that cell's body rectangle; for an empty snake it
    draws nothing. *)
Theorem draw_snake_marks_the_head (g : SnakeGame) :
  (snake g = [] -> screen (env (_draw_snake g)) = screen (env g)) /\
  (forall l h, snake g = l ++ [h] ->
     screen (env (_draw_snake g)) =
       screen (env g) ++ map BodyRect l ++ [BodyRect h; HeadRect h] ++
       repeat Circle 10 ++ [Blit]).
Proof.
  split.
  - unfold _draw_snake. intros ->. reflexivity.
  - intros l h Hs. apply (draw_snake_screen g l h Hs).
Qed.

Lemma draw_snake_marks_the_head_witness :
  screen (env (_draw_snake game1)) =
    [BodyRect (18, 15); BodyRect (19, 15); BodyRect (20, 15); HeadRect (20, 15)]
    ++ repeat Circle 10 ++ [Blit].
Proof.
  exact (proj2 (draw_snake_marks_the_head game1) [(18, 15); (19, 15)] (20, 15) eq_refl).
Defined.

Lemma draw_grid_screen (g g' : SnakeGame) :
  _draw_grid g = Ok g' ->
  exists xs ys,
    screen (env g') =
      screen (env g) ++ map (GridLine true) xs ++ map (GridLine false) ys.
Proof.
  unfold _draw_grid.
  destruct (range_step (width (cfg g)) (cell_size (cfg g))) as [xs|e]; cbn [bind];
    [|discriminate].
  change (cfg (draw (map (GridLine true) xs) g)) with (cfg g).
  destruct (range_step (height (cfg g)) (cell_size (cfg g))) as [ys|e]; cbn [bind];
    [|discriminate].
  intros H; inversion H; subst. exists xs, ys.
  rewrite !draw_screen, <- app_assoc. reflexivity.
Qed.

Lemma draw_game_over_screen (g : SnakeGame) :
  screen (env (_draw_game_over g)) =
    screen (env g) ++
    [Overlay 128; Text "GAME OVER" None; Text "Final Score: " (Some (score g))] ++
    (if (score g =? high_score g) && (score g >? 0)
     then [new_high_score_banner] else []) ++
    [Text "Press SPACE to Play Again or ESC to Quit" None].
Proof.
  unfold _draw_game_over.
  change (score (draw [Text "Final Score: " (Some (score (draw [Text "GAME OVER" None]
            (draw [Overlay 128] g))))] (draw [Text "GAME OVER" None] (draw [Overlay 128] g))))
    with (score g).
  change (high_score (draw [Text "Final Score: " (Some (score (draw [Text "GAME OVER" None]
            (draw [Overlay 128] g))))] (draw [Text "GAME OVER" None] (draw [Overlay 128] g))))
    with (high_score g).
  destruct ((score g =? high_score g) && (score g >? 0));
    rewrite !draw_screen, <- !app_assoc; reflexivity.
Qed.

(** The display after the redraw of a finished game. *)
Lemma render_game_over_screen (g g' : SnakeGame) (l : list cell) (h : cell) :
  state g = GAME_OVER -> snake g = l ++ [h] -> render g = Ok g' ->
  exists xs ys,
    screen (env g') =
      [Fill] ++ map (GridLine true) xs ++ map (GridLine false) ys ++
      snake_ops l h ++
      [Overlay 128; Text "GAME OVER" None; Text "Final Score: " (Some (score g))] ++
      (if (score g =? high_score g) && (score g >? 0)
       then [new_high_score_banner] else []) ++
      [Text "Press SPACE to Play Again or ESC to Quit" None] ++ [Flip].
Proof.
  intros Hst Hsn. unfold render.
  assert (Hs : state (fill_screen g) = state g) by reflexivity.
  rewrite Hs, Hst.
  destruct (_draw_grid (fill_screen g)) as [gd|e] eqn:Hg; cbn [bind]; [|discriminate].
  intros H; inversion H; subst; clear H.
  destruct (draw_grid_screen _ _ Hg) as [xs [ys Hscr]].
  pose proof (draw_grid_display_only _ _ Hg) as Hd.
  destruct (display_only_same _ _ Hd) as [[Esn [_ [_ [Esc [Ehs _]]]]] _].
  change (snake (fill_screen g)) with (snake g) in Esn.
  change (score (fill_screen g)) with (score g) in Esc.
  change (high_score (fill_screen g)) with (high_score g) in Ehs.
  destruct (display_only_same _ _ (draw_snake_display_only gd))
    as [[_ [_ [_ [Fsc [Fhs _]]]]] _].
  exists xs, ys.
  rewrite draw_screen, draw_game_over_screen, Fsc, Fhs, Esc, Ehs.
  rewrite (draw_snake_screen gd l h) by (rewrite Esn; exact Hsn).
  rewrite Hscr. change (screen (env (fill_screen g))) with [Fill].
  rewrite <- !app_assoc. reflexivity.
Qed.

Lemma banner_not_in_game_over_frame (xs ys : list Z) (l : list cell) (h : cell)
      (sc : Z) (shown : bool) :
  In new_high_score_banner
     ([Fill] ++ map (GridLine true) xs ++ map (GridLine false) ys ++
      snake_ops l h ++
      [Overlay 128; Text "GAME OVER" None; Text "Final Score: " (Some sc)] ++
      (if shown then [new_high_score_banner] else []) ++
      [Text "Press SPACE to Play Again or ESC to Quit" None] ++ [Flip]) <->
  shown = true.
Proof.
  unfold snake_ops, new_high_score_banner. rewrite !in_app_iff, !in_map_iff.
  split.
  - intros [H | [[x [H _]] | [[x [H _]] | [[[x [H _]] | [H | [H | H]]] | [H | [H | [H | H]]]]]]];
      try discriminate.
    + simpl in H. destruct H as [H | []]. discriminate.
    + simpl in H. destruct H as [H | [H | []]]; discriminate.
    + apply repeat_spec in H. discriminate.
    + simpl in H. destruct H as [H | []]. discriminate.
    + simpl in H. destruct H as [H | [H | [H | []]]]; discriminate.
    + destruct shown; [reflexivity | destruct H].
    + simpl in H. destruct H as [H | []]. discriminate.
    + simpl in H. destruct H as [H | []]. discriminate.
  - intros ->. do 5 right. left. left. reflexivity.
Qed.

(** X25. On the frame that ends the game the text NEW HIGH SCORE! is on the
    display exactly when the score is positive and at least the high score
    held before: it is shown for a score that beats the old high score and
    also for one that only equals it. *)
Theorem new_high_score_banner_shown (g : SnakeGame) (c : cell) :
  reachable g -> state g = PLAYING ->
  next_cell g = Ok c -> collides g c = true ->
  exists g1 g2,
    update g = Ok g1 /\ render g1 = Ok g2 /\
    (In new_high_score_banner (screen (env g2)) <->
     score g >= high_score g /\ score g > 0).
Proof.
  intros Hr Hst Hc Hcol.
  pose proof (reachable_inv g Hr) as Hinv.
  destruct (move_snake_cases g c Hc (proj1 Hinv))
    as [[_ H] | [[Hf _] | [[Hf _] | [Hf _]]]]; try congruence.
  pose proof (update_playing _ _ Hst H) as Hu.
  pose proof (update_inv _ _ Hinv Hu) as Hinv1.
  destruct (render_total _ (proj2 (proj2 (proj2 Hinv1)))) as [g2 Hr2].
  remember (set_fps (Z.min (10 + score (_game_over (set_direction (next_direction g) g)) / 50) 20)
              (_update_particles (_game_over (set_direction (next_direction g) g))))
    as g1 eqn:Eg1.
  destruct (game_over_fields (set_direction (next_direction g) g))
    as [E1 [_ [_ [E2 [E3 _]]]]].
  destruct (game_over_set_direction (next_direction g) g) as [E4 _].
  assert (F : state g1 = GAME_OVER /\ snake g1 = snake g /\ score g1 = score g /\
              high_score g1 = high_score (_game_over g)).
  { subst g1. cbn [state snake score high_score set_fps _update_particles set_particles].
    rewrite E1, E2, E3, E4. repeat split. }
  destruct F as [F1 [F2 [F3 F4]]].
  destruct (deque_last_nonempty (snake g) (proj1 (proj2 Hinv))) as [h Hh].
  destruct (deque_last_split _ _ Hh) as [l Hl].
  destruct (render_game_over_screen g1 g2 l h F1 (eq_trans F2 Hl) Hr2) as [xs [ys Hscr]].
  exists g1, g2. split; [exact Hu|]. split; [exact Hr2|].
  rewrite Hscr, banner_not_in_game_over_frame, F3, F4.
  rewrite andb_true_iff, Z.eqb_eq. rewrite Z.gtb_ltb, Z.ltb_lt.
  destruct (game_over_spec g) as [_ [G2 [G3 _]]].
  destruct (Z_gt_le_dec (score g) (high_score g)) as [Hgt | Hle].
  - destruct (G2 Hgt) as [-> _]. lia.
  - destruct (G3 Hle) as [-> _]. lia.
Qed.

Lemma new_high_score_banner_shown_witness :
  reachable game_scored /\ state game_scored = PLAYING /\
  next_cell game_scored = Ok (21, -1) /\ collides game_scored (21, -1) = true /\
  exists g1 g2,
    update game_scored = Ok g1 /\ render g1 = Ok g2 /\
    In new_high_score_banner (screen (env g2)).
Proof.
  split; [exact game_scored_reachable|].
  repeat (split; [reflexivity|]).
  destruct (new_high_score_banner_shown game_scored (21, -1) game_scored_reachable
              eq_refl eq_refl eq_refl) as [g1 [g2 [Hu [Hr Hb]]]].
  exists g1, g2. split; [exact Hu|]. split; [exact Hr|].
  apply Hb. split; vm_compute; [discriminate | reflexivity].
Defined.
